(** * cribcall_quic: session orchestration layer (src/native/cribcall_quic/rust/src/lib.rs)

    Shallow embedding of the Rust QUIC bridge: the trust policy helpers,
    the handle registry and its FFI entry points, the session set-up
    functions, and one iteration of the client and server worker loops.
    The quiche engine is a black box: its connection operations are the
    methods of the class [QuicEngine] below.  A Rust [String] or [str] is
    a Stdlib [string] holding its UTF-8 bytes, so lengths and slice
    offsets count bytes as Rust's do; [trim] and [to_lowercase] work on
    the decoded characters with Rust's Unicode rules. *)

From stdpp Require Import base gmap sets list strings.
From Stdlib Require Import Ascii String Strings.Byte NArith Lia.

Open Scope N_scope.

#[global] Instance byte_eq_decision : EqDecision Byte.byte := Byte.byte_eq_dec.
#[global] Instance byte_countable : Countable Byte.byte :=
  inj_countable Byte.to_N Byte.of_N Byte.of_to_N.

(** ** Text helpers *)

(** One lowercase hex digit, as printed by [format!("{b:02x}")]. *)
Definition hex_digit (n : N) : ascii :=
  ascii_of_N (if n <? 10 then 48 + n else 87 + n).

(** [hex_string]: [data.iter().map(|b| format!("{b:02x}")).collect()]. *)
Fixpoint hex_string (data : list Byte.byte) : string :=
  match data with
  | [] => EmptyString
  | b :: bs =>
      String (hex_digit (Byte.to_N b / 16))
        (String (hex_digit (Byte.to_N b mod 16)) (hex_string bs))
  end.

(** *** UTF-8 text

    A Rust [str] is valid UTF-8, and a [string] here holds its bytes.
    [chars] decodes them into code points as [str::chars] does; on bytes
    that are not UTF-8, which no [str] holds, each byte that starts no
    valid sequence decodes to U+FFFD. *)

Definition REPLACEMENT_CHARACTER : N := 65533.

(** A continuation byte [10xxxxxx]. *)
Definition cont_byte (n : N) : bool := (128 <=? n) && (n <? 192).

(** Two-, three- and four-byte sequences, refusing overlong forms,
    surrogates and code points above U+10FFFF. *)
Definition utf8_2 (n0 n1 : N) : option N :=
  if (194 <=? n0) && (n0 <? 224) && cont_byte n1
  then Some ((n0 - 192) * 64 + (n1 - 128)) else None.

Definition utf8_3 (n0 n1 n2 : N) : option N :=
  let c := (n0 - 224) * 4096 + (n1 - 128) * 64 + (n2 - 128) in
  if (224 <=? n0) && (n0 <? 240) && cont_byte n1 && cont_byte n2
     && (2048 <=? c) && negb ((55296 <=? c) && (c <? 57344))
  then Some c else None.

Definition utf8_4 (n0 n1 n2 n3 : N) : option N :=
  let c := (n0 - 240) * 262144 + (n1 - 128) * 4096 + (n2 - 128) * 64 + (n3 - 128) in
  if (240 <=? n0) && (n0 <? 245) && cont_byte n1 && cont_byte n2 && cont_byte n3
     && (65536 <=? c) && (c <? 1114112)
  then Some c else None.

Fixpoint utf8_decode (l : list ascii) : list N :=
  match l with
  | [] => []
  | b0 :: l1 =>
    let n0 := N_of_ascii b0 in
    if n0 <? 128 then n0 :: utf8_decode l1 else
    match l1 with
    | [] => [REPLACEMENT_CHARACTER]
    | b1 :: l2 =>
      match utf8_2 n0 (N_of_ascii b1) with
      | Some c => c :: utf8_decode l2
      | None =>
        match l2 with
        | [] => REPLACEMENT_CHARACTER :: utf8_decode l1
        | b2 :: l3 =>
          match utf8_3 n0 (N_of_ascii b1) (N_of_ascii b2) with
          | Some c => c :: utf8_decode l3
          | None =>
            match l3 with
            | [] => REPLACEMENT_CHARACTER :: utf8_decode l1
            | b3 :: l4 =>
              match utf8_4 n0 (N_of_ascii b1) (N_of_ascii b2) (N_of_ascii b3) with
              | Some c => c :: utf8_decode l4
              | None => REPLACEMENT_CHARACTER :: utf8_decode l1
              end
            end
          end
        end
      end
    end
  end.

(** [char::encode_utf8]. *)
Definition utf8_encode (c : N) : list ascii :=
  if c <? 128 then [ascii_of_N c]
  else if c <? 2048 then
    [ascii_of_N (192 + c / 64); ascii_of_N (128 + c mod 64)]
  else if c <? 65536 then
    [ascii_of_N (224 + c / 4096); ascii_of_N (128 + c / 64 mod 64);
     ascii_of_N (128 + c mod 64)]
  else
    [ascii_of_N (240 + c / 262144); ascii_of_N (128 + c / 4096 mod 64);
     ascii_of_N (128 + c / 64 mod 64); ascii_of_N (128 + c mod 64)].

(** [str::chars], and the [String] collected from characters. *)
Definition chars (s : string) : list N := utf8_decode (list_ascii_of_string s).

Definition string_of_chars (cs : list N) : string :=
  string_of_list_ascii (flat_map utf8_encode cs).

(** A Unicode scalar value: what a Rust [char] holds. *)
Definition valid_char (c : N) : bool :=
  (c <? 55296) || ((57343 <? c) && (c <? 1114112)).

(** Membership in a table of inclusive code point ranges. *)
Definition in_ranges (t : list (N * N)) (c : N) : bool :=
  existsb (fun '(lo, hi) => (lo <=? c) && (c <=? hi)) t.

(** The [White_Space] characters above U+007F. *)
Definition white_space_table : list (N * N) :=
  [(133, 133); (160, 160); (5760, 5760); (8192, 8202); (8232, 8233);
   (8239, 8239); (8287, 8287); (12288, 12288)].

(** [char::is_whitespace]:
    [' ' | '\x09'..='\x0d' => true, c => c > '\x7f' && White_Space(c)]. *)
Definition is_whitespace (c : N) : bool :=
  (c =? 32) || ((9 <=? c) && (c <=? 13))
  || ((127 <? c) && in_ranges white_space_table c).

Fixpoint drop_ws (cs : list N) : list N :=
  match cs with
  | [] => []
  | c :: cs' => if is_whitespace c then drop_ws cs' else cs
  end.

(** [str::trim]: strip the leading and trailing characters that
    [char::is_whitespace] accepts. *)
Definition trim (s : string) : string :=
  string_of_chars (rev (drop_ws (rev (drop_ws (chars s))))).

(** *** Unicode tables

    The tables of [core::unicode] as data of Unicode 14.0: the characters
    beyond ASCII that [char::to_lowercase] changes, with their lowercase
    ([conversions::LOWERCASE_TABLE]), and the [Cased] and [Case_Ignorable]
    ranges used for the final sigma.  The proofs use the lowercase table
    only through the laws checked in [lowercase_table_ok] and
    [whitespace_breaker], which later Unicode versions keep. *)
Definition lowercase_table : list (N * list N) := [
  (192, [224]); (193, [225]); (194, [226]); (195, [227]); (196, [228]);
  (197, [229]); (198, [230]); (199, [231]); (200, [232]); (201, [233]);
  (202, [234]); (203, [235]); (204, [236]); (205, [237]); (206, [238]);
  (207, [239]); (208, [240]); (209, [241]); (210, [242]); (211, [243]);
  (212, [244]); (213, [245]); (214, [246]); (216, [248]); (217, [249]);
  (218, [250]); (219, [251]); (220, [252]); (221, [253]); (222, [254]);
  (256, [257]); (258, [259]); (260, [261]); (262, [263]); (264, [265]);
  (266, [267]); (268, [269]); (270, [271]); (272, [273]); (274, [275]);
  (276, [277]); (278, [279]); (280, [281]); (282, [283]); (284, [285]);
  (286, [287]); (288, [289]); (290, [291]); (292, [293]); (294, [295]);
  (296, [297]); (298, [299]); (300, [301]); (302, [303]); (304, [105; 775]);
  (306, [307]); (308, [309]); (310, [311]); (313, [314]); (315, [316]);
  (317, [318]); (319, [320]); (321, [322]); (323, [324]); (325, [326]);
  (327, [328]); (330, [331]); (332, [333]); (334, [335]); (336, [337]);
  (338, [339]); (340, [341]); (342, [343]); (344, [345]); (346, [347]);
  (348, [349]); (350, [351]); (352, [353]); (354, [355]); (356, [357]);
  (358, [359]); (360, [361]); (362, [363]); (364, [365]); (366, [367]);
  (368, [369]); (370, [371]); (372, [373]); (374, [375]); (376, [255]);
  (377, [378]); (379, [380]); (381, [382]); (385, [595]); (386, [387]);
  (388, [389]); (390, [596]); (391, [392]); (393, [598]); (394, [599]);
  (395, [396]); (398, [477]); (399, [601]); (400, [603]); (401, [402]);
  (403, [608]); (404, [611]); (406, [617]); (407, [616]); (408, [409]);
  (412, [623]); (413, [626]); (415, [629]); (416, [417]); (418, [419]);
  (420, [421]); (422, [640]); (423, [424]); (425, [643]); (428, [429]);
  (430, [648]); (431, [432]); (433, [650]); (434, [651]); (435, [436]);
  (437, [438]); (439, [658]); (440, [441]); (444, [445]); (452, [454]);
  (453, [454]); (455, [457]); (456, [457]); (458, [460]); (459, [460]);
  (461, [462]); (463, [464]); (465, [466]); (467, [468]); (469, [470]);
  (471, [472]); (473, [474]); (475, [476]); (478, [479]); (480, [481]);
  (482, [483]); (484, [485]); (486, [487]); (488, [489]); (490, [491]);
  (492, [493]); (494, [495]); (497, [499]); (498, [499]); (500, [501]);
  (502, [405]); (503, [447]); (504, [505]); (506, [507]); (508, [509]);
  (510, [511]); (512, [513]); (514, [515]); (516, [517]); (518, [519]);
  (520, [521]); (522, [523]); (524, [525]); (526, [527]); (528, [529]);
  (530, [531]); (532, [533]); (534, [535]); (536, [537]); (538, [539]);
  (540, [541]); (542, [543]); (544, [414]); (546, [547]); (548, [549]);
  (550, [551]); (552, [553]); (554, [555]); (556, [557]); (558, [559]);
  (560, [561]); (562, [563]); (570, [11365]); (571, [572]); (573, [410]);
  (574, [11366]); (577, [578]); (579, [384]); (580, [649]); (581, [652]);
  (582, [583]); (584, [585]); (586, [587]); (588, [589]); (590, [591]);
  (880, [881]); (882, [883]); (886, [887]); (895, [1011]); (902, [940]);
  (904, [941]); (905, [942]); (906, [943]); (908, [972]); (910, [973]);
  (911, [974]); (913, [945]); (914, [946]); (915, [947]); (916, [948]);
  (917, [949]); (918, [950]); (919, [951]); (920, [952]); (921, [953]);
  (922, [954]); (923, [955]); (924, [956]); (925, [957]); (926, [958]);
  (927, [959]); (928, [960]); (929, [961]); (931, [963]); (932, [964]);
  (933, [965]); (934, [966]); (935, [967]); (936, [968]); (937, [969]);
  (938, [970]); (939, [971]); (975, [983]); (984, [985]); (986, [987]);
  (988, [989]); (990, [991]); (992, [993]); (994, [995]); (996, [997]);
  (998, [999]); (1000, [1001]); (1002, [1003]); (1004, [1005]);
  (1006, [1007]); (1012, [952]); (1015, [1016]); (1017, [1010]);
  (1018, [1019]); (1021, [891]); (1022, [892]); (1023, [893]);
  (1024, [1104]); (1025, [1105]); (1026, [1106]); (1027, [1107]);
  (1028, [1108]); (1029, [1109]); (1030, [1110]); (1031, [1111]);
  (1032, [1112]); (1033, [1113]); (1034, [1114]); (1035, [1115]);
  (1036, [1116]); (1037, [1117]); (1038, [1118]); (1039, [1119]);
  (1040, [1072]); (1041, [1073]); (1042, [1074]); (1043, [1075]);
  (1044, [1076]); (1045, [1077]); (1046, [1078]); (1047, [1079]);
  (1048, [1080]); (1049, [1081]); (1050, [1082]); (1051, [1083]);
  (1052, [1084]); (1053, [1085]); (1054, [1086]); (1055, [1087]);
  (1056, [1088]); (1057, [1089]); (1058, [1090]); (1059, [1091]);
  (1060, [1092]); (1061, [1093]); (1062, [1094]); (1063, [1095]);
  (1064, [1096]); (1065, [1097]); (1066, [1098]); (1067, [1099]);
  (1068, [1100]); (1069, [1101]); (1070, [1102]); (1071, [1103]);
  (1120, [1121]); (1122, [1123]); (1124, [1125]); (1126, [1127]);
  (1128, [1129]); (1130, [1131]); (1132, [1133]); (1134, [1135]);
  (1136, [1137]); (1138, [1139]); (1140, [1141]); (1142, [1143]);
  (1144, [1145]); (1146, [1147]); (1148, [1149]); (1150, [1151]);
  (1152, [1153]); (1162, [1163]); (1164, [1165]); (1166, [1167]);
  (1168, [1169]); (1170, [1171]); (1172, [1173]); (1174, [1175]);
  (1176, [1177]); (1178, [1179]); (1180, [1181]); (1182, [1183]);
  (1184, [1185]); (1186, [1187]); (1188, [1189]); (1190, [1191]);
  (1192, [1193]); (1194, [1195]); (1196, [1197]); (1198, [1199]);
  (1200, [1201]); (1202, [1203]); (1204, [1205]); (1206, [1207]);
  (1208, [1209]); (1210, [1211]); (1212, [1213]); (1214, [1215]);
  (1216, [1231]); (1217, [1218]); (1219, [1220]); (1221, [1222]);
  (1223, [1224]); (1225, [1226]); (1227, [1228]); (1229, [1230]);
  (1232, [1233]); (1234, [1235]); (1236, [1237]); (1238, [1239]);
  (1240, [1241]); (1242, [1243]); (1244, [1245]); (1246, [1247]);
  (1248, [1249]); (1250, [1251]); (1252, [1253]); (1254, [1255]);
  (1256, [1257]); (1258, [1259]); (1260, [1261]); (1262, [1263]);
  (1264, [1265]); (1266, [1267]); (1268, [1269]); (1270, [1271]);
  (1272, [1273]); (1274, [1275]); (1276, [1277]); (1278, [1279]);
  (1280, [1281]); (1282, [1283]); (1284, [1285]); (1286, [1287]);
  (1288, [1289]); (1290, [1291]); (1292, [1293]); (1294, [1295]);
  (1296, [1297]); (1298, [1299]); (1300, [1301]); (1302, [1303]);
  (1304, [1305]); (1306, [1307]); (1308, [1309]); (1310, [1311]);
  (1312, [1313]); (1314, [1315]); (1316, [1317]); (1318, [1319]);
  (1320, [1321]); (1322, [1323]); (1324, [1325]); (1326, [1327]);
  (1329, [1377]); (1330, [1378]); (1331, [1379]); (1332, [1380]);
  (1333, [1381]); (1334, [1382]); (1335, [1383]); (1336, [1384]);
  (1337, [1385]); (1338, [1386]); (1339, [1387]); (1340, [1388]);
  (1341, [1389]); (1342, [1390]); (1343, [1391]); (1344, [1392]);
  (1345, [1393]); (1346, [1394]); (1347, [1395]); (1348, [1396]);
  (1349, [1397]); (1350, [1398]); (1351, [1399]); (1352, [1400]);
  (1353, [1401]); (1354, [1402]); (1355, [1403]); (1356, [1404]);
  (1357, [1405]); (1358, [1406]); (1359, [1407]); (1360, [1408]);
  (1361, [1409]); (1362, [1410]); (1363, [1411]); (1364, [1412]);
  (1365, [1413]); (1366, [1414]); (4256, [11520]); (4257, [11521]);
  (4258, [11522]); (4259, [11523]); (4260, [11524]); (4261, [11525]);
  (4262, [11526]); (4263, [11527]); (4264, [11528]); (4265, [11529]);
  (4266, [11530]); (4267, [11531]); (4268, [11532]); (4269, [11533]);
  (4270, [11534]); (4271, [11535]); (4272, [11536]); (4273, [11537]);
  (4274, [11538]); (4275, [11539]); (4276, [11540]); (4277, [11541]);
  (4278, [11542]); (4279, [11543]); (4280, [11544]); (4281, [11545]);
  (4282, [11546]); (4283, [11547]); (4284, [11548]); (4285, [11549]);
  (4286, [11550]); (4287, [11551]); (4288, [11552]); (4289, [11553]);
  (4290, [11554]); (4291, [11555]); (4292, [11556]); (4293, [11557]);
  (4295, [11559]); (4301, [11565]); (5024, [43888]); (5025, [43889]);
  (5026, [43890]); (5027, [43891]); (5028, [43892]); (5029, [43893]);
  (5030, [43894]); (5031, [43895]); (5032, [43896]); (5033, [43897]);
  (5034, [43898]); (5035, [43899]); (5036, [43900]); (5037, [43901]);
  (5038, [43902]); (5039, [43903]); (5040, [43904]); (5041, [43905]);
  (5042, [43906]); (5043, [43907]); (5044, [43908]); (5045, [43909]);
  (5046, [43910]); (5047, [43911]); (5048, [43912]); (5049, [43913]);
  (5050, [43914]); (5051, [43915]); (5052, [43916]); (5053, [43917]);
  (5054, [43918]); (5055, [43919]); (5056, [43920]); (5057, [43921]);
  (5058, [43922]); (5059, [43923]); (5060, [43924]); (5061, [43925]);
  (5062, [43926]); (5063, [43927]); (5064, [43928]); (5065, [43929]);
  (5066, [43930]); (5067, [43931]); (5068, [43932]); (5069, [43933]);
  (5070, [43934]); (5071, [43935]); (5072, [43936]); (5073, [43937]);
  (5074, [43938]); (5075, [43939]); (5076, [43940]); (5077, [43941]);
  (5078, [43942]); (5079, [43943]); (5080, [43944]); (5081, [43945]);
  (5082, [43946]); (5083, [43947]); (5084, [43948]); (5085, [43949]);
  (5086, [43950]); (5087, [43951]); (5088, [43952]); (5089, [43953]);
  (5090, [43954]); (5091, [43955]); (5092, [43956]); (5093, [43957]);
  (5094, [43958]); (5095, [43959]); (5096, [43960]); (5097, [43961]);
  (5098, [43962]); (5099, [43963]); (5100, [43964]); (5101, [43965]);
  (5102, [43966]); (5103, [43967]); (5104, [5112]); (5105, [5113]);
  (5106, [5114]); (5107, [5115]); (5108, [5116]); (5109, [5117]);
  (7312, [4304]); (7313, [4305]); (7314, [4306]); (7315, [4307]);
  (7316, [4308]); (7317, [4309]); (7318, [4310]); (7319, [4311]);
  (7320, [4312]); (7321, [4313]); (7322, [4314]); (7323, [4315]);
  (7324, [4316]); (7325, [4317]); (7326, [4318]); (7327, [4319]);
  (7328, [4320]); (7329, [4321]); (7330, [4322]); (7331, [4323]);
  (7332, [4324]); (7333, [4325]); (7334, [4326]); (7335, [4327]);
  (7336, [4328]); (7337, [4329]); (7338, [4330]); (7339, [4331]);
  (7340, [4332]); (7341, [4333]); (7342, [4334]); (7343, [4335]);
  (7344, [4336]); (7345, [4337]); (7346, [4338]); (7347, [4339]);
  (7348, [4340]); (7349, [4341]); (7350, [4342]); (7351, [4343]);
  (7352, [4344]); (7353, [4345]); (7354, [4346]); (7357, [4349]);
  (7358, [4350]); (7359, [4351]); (7680, [7681]); (7682, [7683]);
  (7684, [7685]); (7686, [7687]); (7688, [7689]); (7690, [7691]);
  (7692, [7693]); (7694, [7695]); (7696, [7697]); (7698, [7699]);
  (7700, [7701]); (7702, [7703]); (7704, [7705]); (7706, [7707]);
  (7708, [7709]); (7710, [7711]); (7712, [7713]); (7714, [7715]);
  (7716, [7717]); (7718, [7719]); (7720, [7721]); (7722, [7723]);
  (7724, [7725]); (7726, [7727]); (7728, [7729]); (7730, [7731]);
  (7732, [7733]); (7734, [7735]); (7736, [7737]); (7738, [7739]);
  (7740, [7741]); (7742, [7743]); (7744, [7745]); (7746, [7747]);
  (7748, [7749]); (7750, [7751]); (7752, [7753]); (7754, [7755]);
  (7756, [7757]); (7758, [7759]); (7760, [7761]); (7762, [7763]);
  (7764, [7765]); (7766, [7767]); (7768, [7769]); (7770, [7771]);
  (7772, [7773]); (7774, [7775]); (7776, [7777]); (7778, [7779]);
  (7780, [7781]); (7782, [7783]); (7784, [7785]); (7786, [7787]);
  (7788, [7789]); (7790, [7791]); (7792, [7793]); (7794, [7795]);
  (7796, [7797]); (7798, [7799]); (7800, [7801]); (7802, [7803]);
  (7804, [7805]); (7806, [7807]); (7808, [7809]); (7810, [7811]);
  (7812, [7813]); (7814, [7815]); (7816, [7817]); (7818, [7819]);
  (7820, [7821]); (7822, [7823]); (7824, [7825]); (7826, [7827]);
  (7828, [7829]); (7838, [223]); (7840, [7841]); (7842, [7843]);
  (7844, [7845]); (7846, [7847]); (7848, [7849]); (7850, [7851]);
  (7852, [7853]); (7854, [7855]); (7856, [7857]); (7858, [7859]);
  (7860, [7861]); (7862, [7863]); (7864, [7865]); (7866, [7867]);
  (7868, [7869]); (7870, [7871]); (7872, [7873]); (7874, [7875]);
  (7876, [7877]); (7878, [7879]); (7880, [7881]); (7882, [7883]);
  (7884, [7885]); (7886, [7887]); (7888, [7889]); (7890, [7891]);
  (7892, [7893]); (7894, [7895]); (7896, [7897]); (7898, [7899]);
  (7900, [7901]); (7902, [7903]); (7904, [7905]); (7906, [7907]);
  (7908, [7909]); (7910, [7911]); (7912, [7913]); (7914, [7915]);
  (7916, [7917]); (7918, [7919]); (7920, [7921]); (7922, [7923]);
  (7924, [7925]); (7926, [7927]); (7928, [7929]); (7930, [7931]);
  (7932, [7933]); (7934, [7935]); (7944, [7936]); (7945, [7937]);
  (7946, [7938]); (7947, [7939]); (7948, [7940]); (7949, [7941]);
  (7950, [7942]); (7951, [7943]); (7960, [7952]); (7961, [7953]);
  (7962, [7954]); (7963, [7955]); (7964, [7956]); (7965, [7957]);
  (7976, [7968]); (7977, [7969]); (7978, [7970]); (7979, [7971]);
  (7980, [7972]); (7981, [7973]); (7982, [7974]); (7983, [7975]);
  (7992, [7984]); (7993, [7985]); (7994, [7986]); (7995, [7987]);
  (7996, [7988]); (7997, [7989]); (7998, [7990]); (7999, [7991]);
  (8008, [8000]); (8009, [8001]); (8010, [8002]); (8011, [8003]);
  (8012, [8004]); (8013, [8005]); (8025, [8017]); (8027, [8019]);
  (8029, [8021]); (8031, [8023]); (8040, [8032]); (8041, [8033]);
  (8042, [8034]); (8043, [8035]); (8044, [8036]); (8045, [8037]);
  (8046, [8038]); (8047, [8039]); (8072, [8064]); (8073, [8065]);
  (8074, [8066]); (8075, [8067]); (8076, [8068]); (8077, [8069]);
  (8078, [8070]); (8079, [8071]); (8088, [8080]); (8089, [8081]);
  (8090, [8082]); (8091, [8083]); (8092, [8084]); (8093, [8085]);
  (8094, [8086]); (8095, [8087]); (8104, [8096]); (8105, [8097]);
  (8106, [8098]); (8107, [8099]); (8108, [8100]); (8109, [8101]);
  (8110, [8102]); (8111, [8103]); (8120, [8112]); (8121, [8113]);
  (8122, [8048]); (8123, [8049]); (8124, [8115]); (8136, [8050]);
  (8137, [8051]); (8138, [8052]); (8139, [8053]); (8140, [8131]);
  (8152, [8144]); (8153, [8145]); (8154, [8054]); (8155, [8055]);
  (8168, [8160]); (8169, [8161]); (8170, [8058]); (8171, [8059]);
  (8172, [8165]); (8184, [8056]); (8185, [8057]); (8186, [8060]);
  (8187, [8061]); (8188, [8179]); (8486, [969]); (8490, [107]);
  (8491, [229]); (8498, [8526]); (8544, [8560]); (8545, [8561]);
  (8546, [8562]); (8547, [8563]); (8548, [8564]); (8549, [8565]);
  (8550, [8566]); (8551, [8567]); (8552, [8568]); (8553, [8569]);
  (8554, [8570]); (8555, [8571]); (8556, [8572]); (8557, [8573]);
  (8558, [8574]); (8559, [8575]); (8579, [8580]); (9398, [9424]);
  (9399, [9425]); (9400, [9426]); (9401, [9427]); (9402, [9428]);
  (9403, [9429]); (9404, [9430]); (9405, [9431]); (9406, [9432]);
  (9407, [9433]); (9408, [9434]); (9409, [9435]); (9410, [9436]);
  (9411, [9437]); (9412, [9438]); (9413, [9439]); (9414, [9440]);
  (9415, [9441]); (9416, [9442]); (9417, [9443]); (9418, [9444]);
  (9419, [9445]); (9420, [9446]); (9421, [9447]); (9422, [9448]);
  (9423, [9449]); (11264, [11312]); (11265, [11313]); (11266, [11314]);
  (11267, [11315]); (11268, [11316]); (11269, [11317]); (11270, [11318]);
  (11271, [11319]); (11272, [11320]); (11273, [11321]); (11274, [11322]);
  (11275, [11323]); (11276, [11324]); (11277, [11325]); (11278, [11326]);
  (11279, [11327]); (11280, [11328]); (11281, [11329]); (11282, [11330]);
  (11283, [11331]); (11284, [11332]); (11285, [11333]); (11286, [11334]);
  (11287, [11335]); (11288, [11336]); (11289, [11337]); (11290, [11338]);
  (11291, [11339]); (11292, [11340]); (11293, [11341]); (11294, [11342]);
  (11295, [11343]); (11296, [11344]); (11297, [11345]); (11298, [11346]);
  (11299, [11347]); (11300, [11348]); (11301, [11349]); (11302, [11350]);
  (11303, [11351]); (11304, [11352]); (11305, [11353]); (11306, [11354]);
  (11307, [11355]); (11308, [11356]); (11309, [11357]); (11310, [11358]);
  (11311, [11359]); (11360, [11361]); (11362, [619]); (11363, [7549]);
  (11364, [637]); (11367, [11368]); (11369, [11370]); (11371, [11372]);
  (11373, [593]); (11374, [625]); (11375, [592]); (11376, [594]);
  (11378, [11379]); (11381, [11382]); (11390, [575]); (11391, [576]);
  (11392, [11393]); (11394, [11395]); (11396, [11397]); (11398, [11399]);
  (11400, [11401]); (11402, [11403]); (11404, [11405]); (11406, [11407]);
  (11408, [11409]); (11410, [11411]); (11412, [11413]); (11414, [11415]);
  (11416, [11417]); (11418, [11419]); (11420, [11421]); (11422, [11423]);
  (11424, [11425]); (11426, [11427]); (11428, [11429]); (11430, [11431]);
  (11432, [11433]); (11434, [11435]); (11436, [11437]); (11438, [11439]);
  (11440, [11441]); (11442, [11443]); (11444, [11445]); (11446, [11447]);
  (11448, [11449]); (11450, [11451]); (11452, [11453]); (11454, [11455]);
  (11456, [11457]); (11458, [11459]); (11460, [11461]); (11462, [11463]);
  (11464, [11465]); (11466, [11467]); (11468, [11469]); (11470, [11471]);
  (11472, [11473]); (11474, [11475]); (11476, [11477]); (11478, [11479]);
  (11480, [11481]); (11482, [11483]); (11484, [11485]); (11486, [11487]);
  (11488, [11489]); (11490, [11491]); (11499, [11500]); (11501, [11502]);
  (11506, [11507]); (42560, [42561]); (42562, [42563]); (42564, [42565]);
  (42566, [42567]); (42568, [42569]); (42570, [42571]); (42572, [42573]);
  (42574, [42575]); (42576, [42577]); (42578, [42579]); (42580, [42581]);
  (42582, [42583]); (42584, [42585]); (42586, [42587]); (42588, [42589]);
  (42590, [42591]); (42592, [42593]); (42594, [42595]); (42596, [42597]);
  (42598, [42599]); (42600, [42601]); (42602, [42603]); (42604, [42605]);
  (42624, [42625]); (42626, [42627]); (42628, [42629]); (42630, [42631]);
  (42632, [42633]); (42634, [42635]); (42636, [42637]); (42638, [42639]);
  (42640, [42641]); (42642, [42643]); (42644, [42645]); (42646, [42647]);
  (42648, [42649]); (42650, [42651]); (42786, [42787]); (42788, [42789]);
  (42790, [42791]); (42792, [42793]); (42794, [42795]); (42796, [42797]);
  (42798, [42799]); (42802, [42803]); (42804, [42805]); (42806, [42807]);
  (42808, [42809]); (42810, [42811]); (42812, [42813]); (42814, [42815]);
  (42816, [42817]); (42818, [42819]); (42820, [42821]); (42822, [42823]);
  (42824, [42825]); (42826, [42827]); (42828, [42829]); (42830, [42831]);
  (42832, [42833]); (42834, [42835]); (42836, [42837]); (42838, [42839]);
  (42840, [42841]); (42842, [42843]); (42844, [42845]); (42846, [42847]);
  (42848, [42849]); (42850, [42851]); (42852, [42853]); (42854, [42855]);
  (42856, [42857]); (42858, [42859]); (42860, [42861]); (42862, [42863]);
  (42873, [42874]); (42875, [42876]); (42877, [7545]); (42878, [42879]);
  (42880, [42881]); (42882, [42883]); (42884, [42885]); (42886, [42887]);
  (42891, [42892]); (42893, [613]); (42896, [42897]); (42898, [42899]);
  (42902, [42903]); (42904, [42905]); (42906, [42907]); (42908, [42909]);
  (42910, [42911]); (42912, [42913]); (42914, [42915]); (42916, [42917]);
  (42918, [42919]); (42920, [42921]); (42922, [614]); (42923, [604]);
  (42924, [609]); (42925, [620]); (42926, [618]); (42928, [670]);
  (42929, [647]); (42930, [669]); (42931, [43859]); (42932, [42933]);
  (42934, [42935]); (42936, [42937]); (42938, [42939]); (42940, [42941]);
  (42942, [42943]); (42944, [42945]); (42946, [42947]); (42948, [42900]);
  (42949, [642]); (42950, [7566]); (42951, [42952]); (42953, [42954]);
  (42960, [42961]); (42966, [42967]); (42968, [42969]); (42997, [42998]);
  (65313, [65345]); (65314, [65346]); (65315, [65347]); (65316, [65348]);
  (65317, [65349]); (65318, [65350]); (65319, [65351]); (65320, [65352]);
  (65321, [65353]); (65322, [65354]); (65323, [65355]); (65324, [65356]);
  (65325, [65357]); (65326, [65358]); (65327, [65359]); (65328, [65360]);
  (65329, [65361]); (65330, [65362]); (65331, [65363]); (65332, [65364]);
  (65333, [65365]); (65334, [65366]); (65335, [65367]); (65336, [65368]);
  (65337, [65369]); (65338, [65370]); (66560, [66600]); (66561, [66601]);
  (66562, [66602]); (66563, [66603]); (66564, [66604]); (66565, [66605]);
  (66566, [66606]); (66567, [66607]); (66568, [66608]); (66569, [66609]);
  (66570, [66610]); (66571, [66611]); (66572, [66612]); (66573, [66613]);
  (66574, [66614]); (66575, [66615]); (66576, [66616]); (66577, [66617]);
  (66578, [66618]); (66579, [66619]); (66580, [66620]); (66581, [66621]);
  (66582, [66622]); (66583, [66623]); (66584, [66624]); (66585, [66625]);
  (66586, [66626]); (66587, [66627]); (66588, [66628]); (66589, [66629]);
  (66590, [66630]); (66591, [66631]); (66592, [66632]); (66593, [66633]);
  (66594, [66634]); (66595, [66635]); (66596, [66636]); (66597, [66637]);
  (66598, [66638]); (66599, [66639]); (66736, [66776]); (66737, [66777]);
  (66738, [66778]); (66739, [66779]); (66740, [66780]); (66741, [66781]);
  (66742, [66782]); (66743, [66783]); (66744, [66784]); (66745, [66785]);
  (66746, [66786]); (66747, [66787]); (66748, [66788]); (66749, [66789]);
  (66750, [66790]); (66751, [66791]); (66752, [66792]); (66753, [66793]);
  (66754, [66794]); (66755, [66795]); (66756, [66796]); (66757, [66797]);
  (66758, [66798]); (66759, [66799]); (66760, [66800]); (66761, [66801]);
  (66762, [66802]); (66763, [66803]); (66764, [66804]); (66765, [66805]);
  (66766, [66806]); (66767, [66807]); (66768, [66808]); (66769, [66809]);
  (66770, [66810]); (66771, [66811]); (66928, [66967]); (66929, [66968]);
  (66930, [66969]); (66931, [66970]); (66932, [66971]); (66933, [66972]);
  (66934, [66973]); (66935, [66974]); (66936, [66975]); (66937, [66976]);
  (66938, [66977]); (66940, [66979]); (66941, [66980]); (66942, [66981]);
  (66943, [66982]); (66944, [66983]); (66945, [66984]); (66946, [66985]);
  (66947, [66986]); (66948, [66987]); (66949, [66988]); (66950, [66989]);
  (66951, [66990]); (66952, [66991]); (66953, [66992]); (66954, [66993]);
  (66956, [66995]); (66957, [66996]); (66958, [66997]); (66959, [66998]);
  (66960, [66999]); (66961, [67000]); (66962, [67001]); (66964, [67003]);
  (66965, [67004]); (68736, [68800]); (68737, [68801]); (68738, [68802]);
  (68739, [68803]); (68740, [68804]); (68741, [68805]); (68742, [68806]);
  (68743, [68807]); (68744, [68808]); (68745, [68809]); (68746, [68810]);
  (68747, [68811]); (68748, [68812]); (68749, [68813]); (68750, [68814]);
  (68751, [68815]); (68752, [68816]); (68753, [68817]); (68754, [68818]);
  (68755, [68819]); (68756, [68820]); (68757, [68821]); (68758, [68822]);
  (68759, [68823]); (68760, [68824]); (68761, [68825]); (68762, [68826]);
  (68763, [68827]); (68764, [68828]); (68765, [68829]); (68766, [68830]);
  (68767, [68831]); (68768, [68832]); (68769, [68833]); (68770, [68834]);
  (68771, [68835]); (68772, [68836]); (68773, [68837]); (68774, [68838]);
  (68775, [68839]); (68776, [68840]); (68777, [68841]); (68778, [68842]);
  (68779, [68843]); (68780, [68844]); (68781, [68845]); (68782, [68846]);
  (68783, [68847]); (68784, [68848]); (68785, [68849]); (68786, [68850]);
  (71840, [71872]); (71841, [71873]); (71842, [71874]); (71843, [71875]);
  (71844, [71876]); (71845, [71877]); (71846, [71878]); (71847, [71879]);
  (71848, [71880]); (71849, [71881]); (71850, [71882]); (71851, [71883]);
  (71852, [71884]); (71853, [71885]); (71854, [71886]); (71855, [71887]);
  (71856, [71888]); (71857, [71889]); (71858, [71890]); (71859, [71891]);
  (71860, [71892]); (71861, [71893]); (71862, [71894]); (71863, [71895]);
  (71864, [71896]); (71865, [71897]); (71866, [71898]); (71867, [71899]);
  (71868, [71900]); (71869, [71901]); (71870, [71902]); (71871, [71903]);
  (93760, [93792]); (93761, [93793]); (93762, [93794]); (93763, [93795]);
  (93764, [93796]); (93765, [93797]); (93766, [93798]); (93767, [93799]);
  (93768, [93800]); (93769, [93801]); (93770, [93802]); (93771, [93803]);
  (93772, [93804]); (93773, [93805]); (93774, [93806]); (93775, [93807]);
  (93776, [93808]); (93777, [93809]); (93778, [93810]); (93779, [93811]);
  (93780, [93812]); (93781, [93813]); (93782, [93814]); (93783, [93815]);
  (93784, [93816]); (93785, [93817]); (93786, [93818]); (93787, [93819]);
  (93788, [93820]); (93789, [93821]); (93790, [93822]); (93791, [93823]);
  (125184, [125218]); (125185, [125219]); (125186, [125220]);
  (125187, [125221]); (125188, [125222]); (125189, [125223]);
  (125190, [125224]); (125191, [125225]); (125192, [125226]);
  (125193, [125227]); (125194, [125228]); (125195, [125229]);
  (125196, [125230]); (125197, [125231]); (125198, [125232]);
  (125199, [125233]); (125200, [125234]); (125201, [125235]);
  (125202, [125236]); (125203, [125237]); (125204, [125238]);
  (125205, [125239]); (125206, [125240]); (125207, [125241]);
  (125208, [125242]); (125209, [125243]); (125210, [125244]);
  (125211, [125245]); (125212, [125246]); (125213, [125247]);
  (125214, [125248]); (125215, [125249]); (125216, [125250]);
  (125217, [125251])
].

Definition cased_table : list (N * N) := [
  (65, 90); (97, 122); (170, 170); (181, 181); (186, 186); (192, 214);
  (216, 246); (248, 442); (444, 447); (452, 659); (661, 696); (704, 705);
  (736, 740); (837, 837); (880, 883); (886, 887); (890, 893); (895, 895);
  (902, 902); (904, 906); (908, 908); (910, 929); (931, 1013); (1015, 1153);
  (1162, 1327); (1329, 1366); (1376, 1416); (4256, 4293); (4295, 4295);
  (4301, 4301); (4304, 4346); (4349, 4351); (5024, 5109); (5112, 5117);
  (7296, 7304); (7312, 7354); (7357, 7359); (7424, 7615); (7680, 7957);
  (7960, 7965); (7968, 8005); (8008, 8013); (8016, 8023); (8025, 8025);
  (8027, 8027); (8029, 8029); (8031, 8061); (8064, 8116); (8118, 8124);
  (8126, 8126); (8130, 8132); (8134, 8140); (8144, 8147); (8150, 8155);
  (8160, 8172); (8178, 8180); (8182, 8188); (8305, 8305); (8319, 8319);
  (8336, 8348); (8450, 8450); (8455, 8455); (8458, 8467); (8469, 8469);
  (8473, 8477); (8484, 8484); (8486, 8486); (8488, 8488); (8490, 8493);
  (8495, 8500); (8505, 8505); (8508, 8511); (8517, 8521); (8526, 8526);
  (8544, 8575); (8579, 8580); (9398, 9449); (11264, 11492); (11499, 11502);
  (11506, 11507); (11520, 11557); (11559, 11559); (11565, 11565);
  (42560, 42605); (42624, 42653); (42786, 42887); (42891, 42894);
  (42896, 42954); (42960, 42961); (42963, 42963); (42965, 42969);
  (42997, 42998); (43000, 43002); (43824, 43866); (43868, 43880);
  (43888, 43967); (64256, 64262); (64275, 64279); (65313, 65338);
  (65345, 65370); (66560, 66639); (66736, 66771); (66776, 66811);
  (66928, 66938); (66940, 66954); (66956, 66962); (66964, 66965);
  (66967, 66977); (66979, 66993); (66995, 67001); (67003, 67004);
  (67456, 67456); (67459, 67461); (67463, 67504); (67506, 67514);
  (68736, 68786); (68800, 68850); (71840, 71903); (93760, 93823);
  (119808, 119892); (119894, 119964); (119966, 119967); (119970, 119970);
  (119973, 119974); (119977, 119980); (119982, 119993); (119995, 119995);
  (119997, 120003); (120005, 120069); (120071, 120074); (120077, 120084);
  (120086, 120092); (120094, 120121); (120123, 120126); (120128, 120132);
  (120134, 120134); (120138, 120144); (120146, 120485); (120488, 120512);
  (120514, 120538); (120540, 120570); (120572, 120596); (120598, 120628);
  (120630, 120654); (120656, 120686); (120688, 120712); (120714, 120744);
  (120746, 120770); (120772, 120779); (122624, 122633); (122635, 122654);
  (125184, 125251); (127280, 127305); (127312, 127337); (127344, 127369)
].

Definition case_ignorable_table : list (N * N) := [
  (39, 39); (46, 46); (58, 58); (94, 94); (96, 96); (168, 168); (173, 173);
  (175, 175); (180, 180); (183, 184); (688, 879); (884, 885); (890, 890);
  (900, 901); (903, 903); (1155, 1161); (1369, 1369); (1375, 1375);
  (1425, 1469); (1471, 1471); (1473, 1474); (1476, 1477); (1479, 1479);
  (1524, 1524); (1536, 1541); (1552, 1562); (1564, 1564); (1600, 1600);
  (1611, 1631); (1648, 1648); (1750, 1757); (1759, 1768); (1770, 1773);
  (1807, 1807); (1809, 1809); (1840, 1866); (1958, 1968); (2027, 2037);
  (2042, 2042); (2045, 2045); (2070, 2093); (2137, 2139); (2184, 2184);
  (2192, 2193); (2200, 2207); (2249, 2306); (2362, 2362); (2364, 2364);
  (2369, 2376); (2381, 2381); (2385, 2391); (2402, 2403); (2417, 2417);
  (2433, 2433); (2492, 2492); (2497, 2500); (2509, 2509); (2530, 2531);
  (2558, 2558); (2561, 2562); (2620, 2620); (2625, 2626); (2631, 2632);
  (2635, 2637); (2641, 2641); (2672, 2673); (2677, 2677); (2689, 2690);
  (2748, 2748); (2753, 2757); (2759, 2760); (2765, 2765); (2786, 2787);
  (2810, 2815); (2817, 2817); (2876, 2876); (2879, 2879); (2881, 2884);
  (2893, 2893); (2901, 2902); (2914, 2915); (2946, 2946); (3008, 3008);
  (3021, 3021); (3072, 3072); (3076, 3076); (3132, 3132); (3134, 3136);
  (3142, 3144); (3146, 3149); (3157, 3158); (3170, 3171); (3201, 3201);
  (3260, 3260); (3263, 3263); (3270, 3270); (3276, 3277); (3298, 3299);
  (3328, 3329); (3387, 3388); (3393, 3396); (3405, 3405); (3426, 3427);
  (3457, 3457); (3530, 3530); (3538, 3540); (3542, 3542); (3633, 3633);
  (3636, 3642); (3654, 3662); (3761, 3761); (3764, 3772); (3782, 3782);
  (3784, 3789); (3864, 3865); (3893, 3893); (3895, 3895); (3897, 3897);
  (3953, 3966); (3968, 3972); (3974, 3975); (3981, 3991); (3993, 4028);
  (4038, 4038); (4141, 4144); (4146, 4151); (4153, 4154); (4157, 4158);
  (4184, 4185); (4190, 4192); (4209, 4212); (4226, 4226); (4229, 4230);
  (4237, 4237); (4253, 4253); (4348, 4348); (4957, 4959); (5906, 5908);
  (5938, 5939); (5970, 5971); (6002, 6003); (6068, 6069); (6071, 6077);
  (6086, 6086); (6089, 6099); (6103, 6103); (6109, 6109); (6155, 6159);
  (6211, 6211); (6277, 6278); (6313, 6313); (6432, 6434); (6439, 6440);
  (6450, 6450); (6457, 6459); (6679, 6680); (6683, 6683); (6742, 6742);
  (6744, 6750); (6752, 6752); (6754, 6754); (6757, 6764); (6771, 6780);
  (6783, 6783); (6823, 6823); (6832, 6862); (6912, 6915); (6964, 6964);
  (6966, 6970); (6972, 6972); (6978, 6978); (7019, 7027); (7040, 7041);
  (7074, 7077); (7080, 7081); (7083, 7085); (7142, 7142); (7144, 7145);
  (7149, 7149); (7151, 7153); (7212, 7219); (7222, 7223); (7288, 7293);
  (7376, 7378); (7380, 7392); (7394, 7400); (7405, 7405); (7412, 7412);
  (7416, 7417); (7468, 7530); (7544, 7544); (7579, 7679); (8125, 8125);
  (8127, 8129); (8141, 8143); (8157, 8159); (8173, 8175); (8189, 8190);
  (8203, 8207); (8216, 8217); (8228, 8228); (8231, 8231); (8234, 8238);
  (8288, 8292); (8294, 8303); (8305, 8305); (8319, 8319); (8336, 8348);
  (8400, 8432); (11388, 11389); (11503, 11505); (11631, 11631);
  (11647, 11647); (11744, 11775); (11823, 11823); (12293, 12293);
  (12330, 12333); (12337, 12341); (12347, 12347); (12441, 12446);
  (12540, 12542); (40981, 40981); (42232, 42237); (42508, 42508);
  (42607, 42610); (42612, 42621); (42623, 42623); (42652, 42655);
  (42736, 42737); (42752, 42785); (42864, 42864); (42888, 42890);
  (42994, 42996); (43000, 43001); (43010, 43010); (43014, 43014);
  (43019, 43019); (43045, 43046); (43052, 43052); (43204, 43205);
  (43232, 43249); (43263, 43263); (43302, 43309); (43335, 43345);
  (43392, 43394); (43443, 43443); (43446, 43449); (43452, 43453);
  (43471, 43471); (43493, 43494); (43561, 43566); (43569, 43570);
  (43573, 43574); (43587, 43587); (43596, 43596); (43632, 43632);
  (43644, 43644); (43696, 43696); (43698, 43700); (43703, 43704);
  (43710, 43711); (43713, 43713); (43741, 43741); (43756, 43757);
  (43763, 43764); (43766, 43766); (43867, 43871); (43881, 43883);
  (44005, 44005); (44008, 44008); (44013, 44013); (64286, 64286);
  (64434, 64450); (65024, 65039); (65043, 65043); (65056, 65071);
  (65106, 65106); (65109, 65109); (65279, 65279); (65287, 65287);
  (65294, 65294); (65306, 65306); (65342, 65342); (65344, 65344);
  (65392, 65392); (65438, 65439); (65507, 65507); (65529, 65531);
  (66045, 66045); (66272, 66272); (66422, 66426); (67456, 67461);
  (67463, 67504); (67506, 67514); (68097, 68099); (68101, 68102);
  (68108, 68111); (68152, 68154); (68159, 68159); (68325, 68326);
  (68900, 68903); (69291, 69292); (69446, 69456); (69506, 69509);
  (69633, 69633); (69688, 69702); (69744, 69744); (69747, 69748);
  (69759, 69761); (69811, 69814); (69817, 69818); (69821, 69821);
  (69826, 69826); (69837, 69837); (69888, 69890); (69927, 69931);
  (69933, 69940); (70003, 70003); (70016, 70017); (70070, 70078);
  (70089, 70092); (70095, 70095); (70191, 70193); (70196, 70196);
  (70198, 70199); (70206, 70206); (70367, 70367); (70371, 70378);
  (70400, 70401); (70459, 70460); (70464, 70464); (70502, 70508);
  (70512, 70516); (70712, 70719); (70722, 70724); (70726, 70726);
  (70750, 70750); (70835, 70840); (70842, 70842); (70847, 70848);
  (70850, 70851); (71090, 71093); (71100, 71101); (71103, 71104);
  (71132, 71133); (71219, 71226); (71229, 71229); (71231, 71232);
  (71339, 71339); (71341, 71341); (71344, 71349); (71351, 71351);
  (71453, 71455); (71458, 71461); (71463, 71467); (71727, 71735);
  (71737, 71738); (71995, 71996); (71998, 71998); (72003, 72003);
  (72148, 72151); (72154, 72155); (72160, 72160); (72193, 72202);
  (72243, 72248); (72251, 72254); (72263, 72263); (72273, 72278);
  (72281, 72283); (72330, 72342); (72344, 72345); (72752, 72758);
  (72760, 72765); (72767, 72767); (72850, 72871); (72874, 72880);
  (72882, 72883); (72885, 72886); (73009, 73014); (73018, 73018);
  (73020, 73021); (73023, 73029); (73031, 73031); (73104, 73105);
  (73109, 73109); (73111, 73111); (73459, 73460); (78896, 78904);
  (92912, 92916); (92976, 92982); (92992, 92995); (94031, 94031);
  (94095, 94111); (94176, 94177); (94179, 94180); (110576, 110579);
  (110581, 110587); (110589, 110590); (113821, 113822); (113824, 113827);
  (118528, 118573); (118576, 118598); (119143, 119145); (119155, 119170);
  (119173, 119179); (119210, 119213); (119362, 119364); (121344, 121398);
  (121403, 121452); (121461, 121461); (121476, 121476); (121499, 121503);
  (121505, 121519); (122880, 122886); (122888, 122904); (122907, 122913);
  (122915, 122916); (122918, 122922); (123184, 123197); (123566, 123566);
  (123628, 123631); (125136, 125142); (125252, 125259); (127995, 127999);
  (917505, 917505); (917536, 917631); (917760, 917999)
].

Fixpoint table_lookup (c : N) (t : list (N * list N)) : option (list N) :=
  match t with
  | [] => None
  | (k, v) :: t' => if k =? c then Some v else table_lookup c t'
  end.

(** [char::to_lowercase] ([conversions::to_lower]): an ASCII character
    by [to_ascii_lowercase], another by the table, and a character the
    table does not list is its own lowercase.  (Rust pads the result to
    three characters with ['\0'] and [str::to_lowercase] pushes the
    characters before the padding: the list here.) *)
Definition to_lower (c : N) : list N :=
  if c <? 128 then [if (65 <=? c) && (c <=? 90) then c + 32 else c]
  else match table_lookup c lowercase_table with
       | Some l => l
       | None => [c]
       end.

(** The [Cased] and [Case_Ignorable] properties. *)
Definition cased (c : N) : bool := in_ranges cased_table c.
Definition case_ignorable (c : N) : bool := in_ranges case_ignorable_table c.

(** [case_ignorable_then_cased] of [alloc::str]. *)
Fixpoint case_ignorable_then_cased (cs : list N) : bool :=
  match cs with
  | [] => false
  | c :: cs' => if case_ignorable c then case_ignorable_then_cased cs' else cased c
  end.

(** The lowercase of one character, given the characters before it
    (nearest first) and after it: U+03A3 is [map_uppercase_sigma]'s final
    U+03C2 or U+03C3, any other character its [to_lower]. *)
Definition lower_one (before : list N) (c : N) (after : list N) : list N :=
  if c =? 931 then
    [if case_ignorable_then_cased before && negb (case_ignorable_then_cased after)
     then 962 else 963]
  else to_lower c.

Fixpoint lower_from (before cs : list N) : list N :=
  match cs with
  | [] => []
  | c :: cs' => lower_one before c cs' ++ lower_from (c :: before) cs'
  end.

(** [str::to_lowercase].  Its ASCII fast path lowers a leading ASCII run
    with [to_ascii_lowercase], which is [to_lower] there. *)
Definition to_lowercase (s : string) : string :=
  string_of_chars (lower_from [] (chars s)).

(** [str::split(sep)]: the pieces between separators, empty ones included
    (["".split(',')] yields one empty piece). *)
Fixpoint split_on (sep : ascii) (l : list ascii) : list (list ascii) :=
  match l with
  | [] => [[]]
  | c :: l' =>
      let rest := split_on sep l' in
      if ascii_dec c sep then [] :: rest
      else match rest with
           | [] => [[c]]
           | p :: ps => (c :: p) :: ps
           end
  end.

(** [parse_allowlist]: split on commas, trim each piece, drop empty pieces,
    lowercase the rest, collect into a [HashSet<String>]. *)
Definition parse_allowlist (csv : string) : gset string :=
  list_to_set
    (omap (fun piece =>
             let trimmed := trim (string_of_list_ascii piece) in
             if String.eqb trimmed EmptyString then None
             else Some (to_lowercase trimmed))
          (split_on "," (list_ascii_of_string csv))).

(** *** Notions used in the proofs *)

(** A character that is its own lowercase. *)
Definition lower_fixed (x : N) : bool :=
  match to_lower x with [y] => y =? x | _ => false end.

(** What every character of the lowercase table's images satisfies. *)
Definition lower_image_ok (x : N) : bool :=
  lower_fixed x && negb (x =? 931) && valid_char x && negb (is_whitespace x)
  && negb (x =? 44).

(** A character of the lowercase of [c]. *)
Definition lower_image (c x : N) : Prop :=
  to_lower x = [x] /\ x <> 931 /\ (valid_char c = true -> valid_char x = true)
  /\ (is_whitespace x = true -> x = c) /\ (x = 44 -> c = 44).

(** Whitespace and the comma are neither cased nor case-ignorable and are
    their own lowercase. *)
Definition breaker (x : N) : Prop :=
  case_ignorable x = false /\ cased x = false /\ x <> 931 /\ to_lower x = [x].

(** The characters [trim] keeps. *)
Definition trim_core (cs : list N) : list N := rev (drop_ws (rev (drop_ws cs))).

(** A list whose first and last characters are not whitespace. *)
Definition ws_edges (xs : list N) : Prop :=
  (forall c r, xs = c :: r -> is_whitespace c = false) /\
  (forall i d, xs = i ++ [d] -> is_whitespace d = false).

(** The bytes of the lowercase of a byte string. *)
Definition lower_bytes (p : list ascii) : list ascii :=
  list_ascii_of_string (to_lowercase (string_of_list_ascii p)).

(** The SHA-256 digest is the [sha2] crate's; it is a parameter here. *)
Class Sha256 := sha256 : list Byte.byte -> list Byte.byte.

(** [sha256_hex]: lowercase hex of the digest. *)
Definition sha256_hex `{Sha256} (data : list Byte.byte) : string :=
  hex_string (sha256 data).

(** [peer_fp] in both workers: the hex fingerprint of the peer certificate,
    or the empty string when the engine has none. *)
Definition peer_fingerprint `{Sha256} (cert : option (list Byte.byte)) : string :=
  match cert with
  | Some c => sha256_hex c
  | None => EmptyString
  end.

(** Client pinning test (lib.rs 585):
    [!expected_fp.is_empty() && peer_fp.to_lowercase() != expected_fp];
    [expected_fp] was lowercased by [cc_quic_client_connect]. *)
Definition client_mismatch (expected_fp peer_fp : string) : bool :=
  negb (String.eqb expected_fp EmptyString)
  && negb (String.eqb (to_lowercase peer_fp) expected_fp).

(** Server pinning test (lib.rs 829):
    [!trusted_allowlist.is_empty() && !trusted_allowlist.contains(&peer_fp)]. *)
Definition server_rejects (allow : gset string) (peer_fp : string) : bool :=
  negb (bool_decide (allow = ∅)) && negb (bool_decide (peer_fp ∈ allow)).

(** [BASE64.encode] (standard alphabet, [=] padding). *)
Definition b64_char (n : N) : ascii :=
  ascii_of_N
    (if n <? 26 then 65 + n
     else if n <? 52 then 71 + n
     else if n <? 62 then n - 4
     else if n =? 62 then 43 else 47).

Fixpoint base64_encode (data : list Byte.byte) : string :=
  match data with
  | a :: b :: c :: rest =>
      let n := Byte.to_N a * 65536 + Byte.to_N b * 256 + Byte.to_N c in
      String (b64_char (n / 262144)) (String (b64_char (n / 4096 mod 64))
        (String (b64_char (n / 64 mod 64)) (String (b64_char (n mod 64))
          (base64_encode rest))))
  | [a; b] =>
      let n := Byte.to_N a * 65536 + Byte.to_N b * 256 in
      String (b64_char (n / 262144)) (String (b64_char (n / 4096 mod 64))
        (String (b64_char (n / 64 mod 64)) (String "=" EmptyString)))
  | [a] =>
      let n := Byte.to_N a * 65536 in
      String (b64_char (n / 262144)) (String (b64_char (n / 4096 mod 64))
        (String "=" (String "=" EmptyString)))
  | [] => EmptyString
  end.

(** ** Data model *)

(** [Result<T, E>] of the Rust code. *)
Inductive result (A E : Type) : Type :=
| Ok (a : A)
| Err (e : E).
Arguments Ok {A E} a.
Arguments Err {A E} e.

(** Connection ids are [Vec<u8>]; socket addresses are opaque. *)
Abbreviation cid := (list Byte.byte).
Definition sockaddr := N.

(** [QuicEvent]: the four variants posted to the Dart port. *)
Inductive QuicEvent : Type :=
| Connected (handle : N) (connection_id : string) (peer_fingerprint : string)
| Message (handle : N) (connection_id : string) (data_base64 : string)
| Closed (handle : N) (connection_id : string) (reason : option string)
| Error (handle : N) (connection_id : option string) (message : string).

(** [WorkerCommand]. *)
Inductive WorkerCommand : Type :=
| Send (conn_id : cid) (payload : list Byte.byte)
| Close (conn_id : option cid).

(** [quiche::Header]: only the two ids are used. *)
Record Header := { hdr_dcid : cid; hdr_scid : cid }.

(** Outcome of [conn.send(&mut out)]: a datagram, [Error::Done], or another
    engine error (its [Display] text). *)
Inductive SendResult : Type :=
| SendPacket (out : list Byte.byte) (to : sockaddr)
| SendDone
| SendError (err : string).

(** Outcome of the non-blocking [socket.recv_from(&mut buf)]. *)
Inductive RecvResult : Type :=
| RecvData (data : list Byte.byte) (from : sockaddr)
| RecvWouldBlock
| RecvError (err : string).

(** The quiche engine.  [conn_stream_reads c s] is the sequence of [Ok]
    results of [stream_recv] on stream [s] up to the first [Done] or error,
    with the connection afterwards; [conn_peer_error] is the [{:?}] text of
    [peer_error()]; [conn_timeout] is in nanoseconds.  Errors of [recv],
    [stream_send] and [close] are only logged by the code, so these return
    the connection alone. *)
Class QuicEngine (Conn : Type) := {
  quic_connect : string -> cid -> sockaddr -> sockaddr -> result Conn string;
  quic_accept : cid -> cid -> sockaddr -> sockaddr -> result Conn string;
  header_from_slice : list Byte.byte -> option Header;
  conn_recv : Conn -> list Byte.byte -> sockaddr -> sockaddr -> Conn;
  conn_send : Conn -> SendResult * Conn;
  conn_stream_send : Conn -> N -> list Byte.byte -> bool -> Conn;
  conn_close : Conn -> bool -> N -> list Byte.byte -> Conn;
  conn_is_established : Conn -> bool;
  conn_is_closed : Conn -> bool;
  conn_peer_cert : Conn -> option (list Byte.byte);
  conn_peer_error : Conn -> option string;
  conn_readable : Conn -> list N;
  conn_stream_reads : Conn -> N -> list (list Byte.byte) * Conn;
  conn_timeout : Conn -> option N;
  conn_on_timeout : Conn -> Conn
}.

Definition CONTROL_STREAM_ID : N := 0.

(** Application close codes used by the workers. *)
Definition CLIENT_APP_CLOSE : N := 0x100.
Definition SERVER_APP_CLOSE : N := 0x101.
Definition FINGERPRINT_MISMATCH_CLOSE : N := 0x102.
Definition UNTRUSTED_CLIENT_CLOSE : N := 0x103.

Section Engine.
Context {Conn : Type} `{QuicEngine Conn}.

(** The drain of readable streams (lib.rs 618-640 and 856-878): one
    [Message] per successful read, streams in [readable()] order. *)
Definition drain_readable (mk : list Byte.byte -> QuicEvent) (c : Conn)
  : list QuicEvent * Conn :=
  fold_left
    (fun acc stream_id =>
       let '(evs, c0) := acc in
       let '(reads, c1) := conn_stream_reads c0 stream_id in
       (evs ++ map mk reads, c1))
    (conn_readable c) ([], c).

(** The timer step (lib.rs 662-682 and 901-923): fire at once when the
    deadline is zero, otherwise sleep [min(timeout, 5ms)] and fire when
    that covered the deadline. *)
Definition fire_timer (c : Conn) : Conn :=
  match conn_timeout c with
  | Some t =>
      if t =? 0 then conn_on_timeout c
      else let wait := N.min t 5000000 in
           if t <=? wait then conn_on_timeout c else c
  | None => c
  end.

End Engine.

(** ** Client worker ([run_client_worker], lib.rs 454-684) *)

Record ClientState (Conn : Type) := {
  cl_conn : Conn;
  cl_announced : bool
}.
Arguments cl_conn {Conn} _.
Arguments cl_announced {Conn} _.

(** What one loop iteration reads from the outside world: the commands
    pending in the channel (drained by [try_recv]) and the outcome of the
    non-blocking [recv_from]. *)
Record ClientInput := {
  ci_cmds : list WorkerCommand;
  ci_recv : RecvResult
}.

Section Client.
Context {Conn : Type} `{QuicEngine Conn} `{Sha256}.
Variable handle_id : N.
Variable scid : cid.
Variable expected_fp : string.
Variable local_addr : sockaddr.

Definition client_conn_id_hex : string := hex_string scid.

(** One command of the drain (lib.rs 519-536). *)
Definition client_command (conn : Conn) (cmd : WorkerCommand) : Conn :=
  match cmd with
  | Send conn_id payload =>
      if conn_is_established conn && bool_decide (conn_id = scid)
      then conn_stream_send conn CONTROL_STREAM_ID payload false
      else conn
  | Close conn_id =>
      if match conn_id with None => true | Some id => bool_decide (id = scid) end
      then conn_close conn false CLIENT_APP_CLOSE (list_byte_of_string "app close")
      else conn
  end.

(** One iteration of the client loop; [None] is [break]. *)
Definition client_step (st : ClientState Conn) (i : ClientInput)
  : list QuicEvent * option (ClientState Conn) :=
  let c0 := fold_left client_command (ci_cmds i) (cl_conn st) in
  let '(sr, c1) := conn_send c0 in
  match sr with
  | SendError err =>
      ([Error handle_id (Some client_conn_id_hex)
          (String.append "quic send error: " err)], None)
  | _ =>
    let recvd :=
      match ci_recv i with
      | RecvData data from => Some (conn_recv c1 data from local_addr)
      | RecvWouldBlock => Some c1
      | RecvError _ => None
      end in
    match recvd with
    | None => ([], None)
    | Some c2 =>
      let announcement :=
        if conn_is_established c2 && negb (cl_announced st) then
          let peer_fp := peer_fingerprint (conn_peer_cert c2) in
          if client_mismatch expected_fp peer_fp then
            let c3 := conn_close c2 false FINGERPRINT_MISMATCH_CLOSE
                        (list_byte_of_string "fingerprint mismatch") in
            inl (c3, Error handle_id (Some client_conn_id_hex)
                       "server fingerprint mismatch")
          else inr ([Connected handle_id client_conn_id_hex peer_fp], true)
        else inr ([], cl_announced st) in
      match announcement with
      | inl (_, err_ev) => ([err_ev], None)
      | inr (ann_evs, announced) =>
        let '(msgs, c4) :=
          drain_readable
            (fun data => Message handle_id client_conn_id_hex (base64_encode data)) c2 in
        if conn_is_closed c4 then
          (ann_evs ++ msgs ++
             [Closed handle_id client_conn_id_hex (conn_peer_error c4)], None)
        else
          (ann_evs ++ msgs,
           Some {| cl_conn := fire_timer c4; cl_announced := announced |})
      end
    end
  end.

(** The loop run on a finite sequence of iterations: the events posted,
    until a [break] or the end of the inputs. *)
Fixpoint client_loop (st : ClientState Conn) (ins : list ClientInput)
  : list QuicEvent :=
  match ins with
  | [] => []
  | i :: rest =>
      let '(evs, next) := client_step st i in
      evs ++ match next with
             | Some st' => client_loop st' rest
             | None => []
             end
  end.

End Client.

(** [run_client_worker]: [socket.local_addr()] and [quiche::connect] may
    fail before the loop starts; [scid] is the random id drawn from [OsRng]. *)
Definition run_client_worker {Conn : Type} `{QuicEngine Conn} `{Sha256}
    (handle_id : N) (scid : cid) (expected_fp : string)
    (local : result sockaddr string) (peer : sockaddr) (server_name : string)
    (ins : list ClientInput) : list QuicEvent :=
  match local with
  | Err err => [Error handle_id None (String.append "socket addr error: " err)]
  | Ok local_addr =>
      match quic_connect server_name scid local_addr peer with
      | Err err =>
          [Error handle_id (Some (client_conn_id_hex scid))
             (String.append "connect error: " err)]
      | Ok conn =>
          client_loop handle_id scid expected_fp local_addr
            {| cl_conn := conn; cl_announced := false |} ins
      end
  end.

(** ** Server worker ([run_server_worker], lib.rs 686-933) *)

(** [conns] and [announced]; [start_times] only feeds log lines and is
    left out. *)
Record ServerState (Conn : Type) := {
  sv_conns : gmap cid Conn;
  sv_announced : gset cid
}.
Arguments sv_conns {Conn} _.
Arguments sv_announced {Conn} _.

(** One iteration's outside world: pending commands, the [recv_from]
    outcome, and the id [OsRng] yields if a connection is accepted. *)
Record ServerInput := {
  si_cmds : list WorkerCommand;
  si_recv : RecvResult;
  si_fresh : cid
}.

(** What the per-connection body of the [for (id, connection)] pass
    produced: its events, the updated connection, whether [id] was added to
    [announced], and whether [id] was pushed to [to_close]. *)
Record ConnOutcome (Conn : Type) := {
  co_events : list QuicEvent;
  co_conn : Conn;
  co_announce : bool;
  co_close : bool
}.
Arguments co_events {Conn} _.
Arguments co_conn {Conn} _.
Arguments co_announce {Conn} _.
Arguments co_close {Conn} _.

Section Server.
Context {Conn : Type} `{QuicEngine Conn} `{Sha256}.
Variable handle_id : N.
Variable local_addr : sockaddr.
Variable trusted_allowlist : gset string.

(** One command of the drain (lib.rs 716-743). *)
Definition server_command (conns : gmap cid Conn) (cmd : WorkerCommand)
  : gmap cid Conn :=
  match cmd with
  | Send conn_id payload =>
      match conns !! conn_id with
      | Some connection =>
          if conn_is_established connection
          then <[conn_id := conn_stream_send connection CONTROL_STREAM_ID payload false]> conns
          else conns
      | None => conns
      end
  | Close (Some id) =>
      match conns !! id with
      | Some conn =>
          <[id := conn_close conn false SERVER_APP_CLOSE (list_byte_of_string "server close")]> conns
      | None => conns
      end
  | Close None =>
      fmap (fun connection =>
              conn_close connection false SERVER_APP_CLOSE (list_byte_of_string "server close"))
           conns
  end.

(** The body of the per-connection pass (lib.rs 796-923). *)
Definition process_conn (id : cid) (connection : Conn) (is_announced : bool)
  : ConnOutcome Conn :=
  let id_hex := hex_string id in
  let '(sr, c1) := conn_send connection in
  match sr with
  | SendError err =>
      {| co_events := [Error handle_id (Some id_hex)
                         (String.append "server send error: " err)];
         co_conn := c1; co_announce := false; co_close := true |}
  | _ =>
    let announcement :=
      if conn_is_established c1 && negb is_announced then
        let peer_fp := peer_fingerprint (conn_peer_cert c1) in
        if server_rejects trusted_allowlist peer_fp then
          inl (conn_close c1 false UNTRUSTED_CLIENT_CLOSE
                 (list_byte_of_string "untrusted client"))
        else inr ([Connected handle_id id_hex peer_fp], true)
      else inr ([], false) in
    match announcement with
    | inl c2 =>
        {| co_events := []; co_conn := c2; co_announce := false; co_close := true |}
    | inr (ann_evs, newly) =>
      let '(msgs, c3) :=
        drain_readable (fun data => Message handle_id id_hex (base64_encode data)) c1 in
      if conn_is_closed c3 then
        {| co_events := ann_evs ++ msgs ++
                          [Closed handle_id id_hex (conn_peer_error c3)];
           co_conn := c3; co_announce := newly; co_close := true |}
      else
        {| co_events := ann_evs ++ msgs; co_conn := fire_timer c3;
           co_announce := newly; co_close := false |}
    end
  end.

(** The pass over a snapshot of [conns]: connections are updated in place,
    [announced] grows, removals are collected in [to_close]. *)
Fixpoint server_pass (conns : gmap cid Conn) (announced : gset cid)
    (snapshot : list (cid * Conn))
  : list QuicEvent * gmap cid Conn * gset cid * list cid :=
  match snapshot with
  | [] => ([], conns, announced, [])
  | (id, connection) :: rest =>
      let o := process_conn id connection (bool_decide (id ∈ announced)) in
      let '(evs, conns', announced', to_close) :=
        server_pass (<[id := co_conn o]> conns)
          (if co_announce o then {[id]} ∪ announced else announced) rest in
      (co_events o ++ evs, conns', announced',
       if co_close o then id :: to_close else to_close)
  end.

(** The pass and the removals of lib.rs 926-930.  The order in which a
    [HashMap] is iterated is unspecified; the model uses [map_to_list]. *)
Definition finish_iteration (conns : gmap cid Conn) (announced : gset cid)
  : list QuicEvent * option (ServerState Conn) :=
  let '(evs, conns', announced', to_close) :=
    server_pass conns announced (map_to_list conns) in
  (evs, Some {| sv_conns := foldr delete conns' to_close;
                sv_announced := announced' ∖ list_to_set to_close |}).

(** One iteration of the server loop; [None] is [break]. *)
Definition server_step (st : ServerState Conn) (i : ServerInput)
  : list QuicEvent * option (ServerState Conn) :=
  let conns0 := fold_left server_command (si_cmds i) (sv_conns st) in
  let announced := sv_announced st in
  match si_recv i with
  | RecvError _ => ([], None)
  | RecvWouldBlock => finish_iteration conns0 announced
  | RecvData data from =>
      match header_from_slice data with
      | None => ([], Some {| sv_conns := conns0; sv_announced := announced |})
      | Some hdr =>
          let accepted :=
            match conns0 !! hdr_dcid hdr with
            | Some _ => Some conns0
            | None =>
                match quic_accept (si_fresh i) (hdr_scid hdr) local_addr from with
                | Ok c => Some (<[si_fresh i := c]> conns0)
                | Err _ => None
                end
            end in
          match accepted with
          | None => ([], Some {| sv_conns := conns0; sv_announced := announced |})
          | Some conns1 =>
              let conns2 :=
                match conns1 !! hdr_dcid hdr with
                | Some connection =>
                    <[hdr_dcid hdr := conn_recv connection data from local_addr]> conns1
                | None => conns1
                end in
              finish_iteration conns2 announced
          end
      end
  end.

Fixpoint server_loop (st : ServerState Conn) (ins : list ServerInput)
  : list QuicEvent :=
  match ins with
  | [] => []
  | i :: rest =>
      let '(evs, next) := server_step st i in
      evs ++ match next with
             | Some st' => server_loop st' rest
             | None => []
             end
  end.

Definition server_init : ServerState Conn :=
  {| sv_conns := ∅; sv_announced := ∅ |}.

End Server.

(** [run_server_worker]: [socket.local_addr()] may fail before the loop. *)
Definition run_server_worker {Conn : Type} `{QuicEngine Conn} `{Sha256}
    (handle_id : N) (local : result sockaddr string)
    (trusted_allowlist : gset string) (ins : list ServerInput) : list QuicEvent :=
  match local with
  | Err err => [Error handle_id None (String.append "socket addr error: " err)]
  | Ok local_addr =>
      server_loop handle_id local_addr trusted_allowlist server_init ins
  end.

(** ** Status codes, handle registry and FFI entry points *)

Module CcQuicStatus.
Inductive t : Type :=
| Ok | NullPointer | ConfigError | InvalidAlpn | CertLoadError
| SocketError | HandshakeError | EventSendError | Internal.

Definition code (s : t) : N :=
  match s with
  | Ok => 0 | NullPointer => 1 | ConfigError => 2 | InvalidAlpn => 3
  | CertLoadError => 4 | SocketError => 5 | HandshakeError => 6
  | EventSendError => 7 | Internal => 255
  end.
End CcQuicStatus.

(** Library conversions the entry points rely on: [String::from_utf8] /
    [CStr::to_str] and [hex::decode]; parameters of the model. *)
Class TextCodec := {
  from_utf8 : list Byte.byte -> option string;
  hex_decode : string -> option (list Byte.byte)
}.

(** The sending half of a worker's [mpsc] channel: the commands queued so
    far, and whether the receiving worker is still alive. *)
Record Channel := {
  ch_queue : list WorkerCommand;
  ch_open : bool
}.

(** [mpsc::Sender::send]: fails once the receiver is gone. *)
Definition channel_send (ch : Channel) (cmd : WorkerCommand) : option Channel :=
  if ch_open ch
  then Some {| ch_queue := ch_queue ch ++ [cmd]; ch_open := true |}
  else None.

(** Process-wide state: [NEXT_HANDLE], the [CONNECTIONS] once-cell
    ([None] until first initialised) and the worker threads spawned, by
    handle. *)
Record Globals := {
  g_next_handle : N;
  g_connections : option (gmap N Channel);
  g_spawned : list N
}.

(** Removal of a registry entry, as the worker thread does on exit
    (lib.rs 281-283, 381-383): [DashMap::remove]. *)
Definition remove_handle (g : Globals) (handle : N) : Globals :=
  {| g_next_handle := g_next_handle g;
     g_connections := fmap (delete handle) (g_connections g);
     g_spawned := g_spawned g |}.

Definition set_connections (g : Globals) (m : gmap N Channel) : Globals :=
  {| g_next_handle := g_next_handle g; g_connections := Some m;
     g_spawned := g_spawned g |}.

Section Ffi.
Context `{TextCodec}.

(** A C pointer argument: [None] is a null pointer, otherwise the bytes
    it points to ([len] bytes, or up to the NUL for C strings). *)
Definition cstr_to_string (ptr : option (list Byte.byte))
  : result string CcQuicStatus.t :=
  match ptr with
  | None => Err CcQuicStatus.NullPointer
  | Some raw =>
      match from_utf8 raw with
      | Some s => Ok s
      | None => Err CcQuicStatus.Internal
      end
  end.

(** [cc_quic_conn_send] (lib.rs 393-440). *)
Definition cc_quic_conn_send (g : Globals) (handle : N)
    (conn_id_arg : option (list Byte.byte)) (data : option (list Byte.byte))
  : N * Globals :=
  match data with
  | None | Some [] => (CcQuicStatus.code CcQuicStatus.NullPointer, g)
  | Some payload =>
  match conn_id_arg with
  | None | Some [] => (CcQuicStatus.code CcQuicStatus.NullPointer, g)
  | Some conn_id_raw =>
  match from_utf8 conn_id_raw with
  | None => (CcQuicStatus.code CcQuicStatus.Internal, g)
  | Some conn_id_str =>
  match hex_decode (trim conn_id_str) with
  | None => (CcQuicStatus.code CcQuicStatus.Internal, g)
  | Some conn_id =>
  match g_connections g with
  | None => (CcQuicStatus.code CcQuicStatus.Internal, g)
  | Some map =>
  match map !! handle with
  | None => (CcQuicStatus.code CcQuicStatus.Internal, g)
  | Some entry =>
  match channel_send entry (Send conn_id payload) with
  | None => (CcQuicStatus.code CcQuicStatus.Internal, g)
  | Some entry' =>
      (CcQuicStatus.code CcQuicStatus.Ok, set_connections g (<[handle := entry']> map))
  end end end end end end end.

(** [cc_quic_conn_close] (lib.rs 442-452): the send result is ignored. *)
Definition cc_quic_conn_close (g : Globals) (handle : N) : N * Globals :=
  match g_connections g with
  | None => (CcQuicStatus.code CcQuicStatus.Internal, g)
  | Some map =>
      let g' :=
        match map !! handle with
        | Some entry =>
            match channel_send entry (Close None) with
            | Some entry' => set_connections g (<[handle := entry']> map)
            | None => g
            end
        | None => g
        end in
      (CcQuicStatus.code CcQuicStatus.Ok, g')
  end.

End Ffi.

(** ** Session creation *)

(** What the operating system and quiche answer during set-up:
    [load_cert_chain_from_pem_file], [load_priv_key_from_pem_file], the
    parse of [format!("{host}:{port}")] as a [SocketAddr], [UdpSocket::bind]
    ([None]: the client's ["0.0.0.0:0"]), [connect] and [set_nonblocking]. *)
Record SetupEnv := {
  os_load_cert_chain : string -> result unit string;
  os_load_priv_key : string -> result unit string;
  os_parse_addr : string -> N -> option sockaddr;
  os_bind : option sockaddr -> result unit string;
  os_connect : sockaddr -> result unit string;
  os_set_nonblocking : result unit string
}.

(** Allocation of a handle, registration of its sender and spawn of the
    worker thread (lib.rs 263-284, 365-384).  [fetch_add] on a [u64]
    wraps. *)
Definition register_session (g : Globals) : N * Globals :=
  let handle_id := g_next_handle g in
  let map := match g_connections g with Some m => m | None => ∅ end in
  (handle_id,
   {| g_next_handle := (handle_id + 1) mod 2 ^ 64;
      g_connections :=
        Some (<[handle_id := {| ch_queue := []; ch_open := true |}]> map);
      g_spawned := g_spawned g ++ [handle_id] |}).

Section Setup.
Context `{TextCodec}.
Variable env : SetupEnv.

Definition is_null (p : option (list Byte.byte)) : bool :=
  match p with None => true | Some _ => false end.

(** [cc_quic_client_connect] (lib.rs 182-291).  Result: the status code,
    the globals afterwards, and the value written to [out_handle]. *)
Definition cc_quic_client_connect (g : Globals) (config_nonnull : bool)
    (host : option (list Byte.byte)) (port : N)
    (server_name expected_server_fingerprint_hex cert_pem_path key_pem_path
       : option (list Byte.byte))
    (out_handle_nonnull : bool) : N * Globals * option N :=
  let fail s := (CcQuicStatus.code s, g, None) in
  if negb config_nonnull || is_null host || is_null server_name
     || is_null expected_server_fingerprint_hex || is_null cert_pem_path
     || is_null key_pem_path || negb out_handle_nonnull
  then fail CcQuicStatus.NullPointer else
  match cstr_to_string host with Err c => fail c | Ok host =>
  match cstr_to_string server_name with Err c => fail c | Ok _ =>
  match cstr_to_string expected_server_fingerprint_hex with Err c => fail c | Ok fp =>
  let _expected_fp := to_lowercase fp in
  match cstr_to_string cert_pem_path with Err c => fail c | Ok cert_path =>
  match cstr_to_string key_pem_path with Err c => fail c | Ok key_path =>
  (* lib.rs 224-227: [info!] formats [short_hex(&expected_fp)], which
     panics (see [short_hex] below) only with info logging enabled and a
     multi-byte character across one of its cut points; the status model
     describes the calls that return. *)
  match os_load_cert_chain env cert_path with Err _ => fail CcQuicStatus.CertLoadError | Ok _ =>
  match os_load_priv_key env key_path with Err _ => fail CcQuicStatus.CertLoadError | Ok _ =>
  match os_parse_addr env host port with None => fail CcQuicStatus.SocketError | Some peer =>
  match os_bind env None with Err _ => fail CcQuicStatus.SocketError | Ok _ =>
  (* [socket.connect(peer).map_err(..).ok()]: the error is only logged *)
  match os_connect env peer with Ok _ | Err _ =>
  (* [set_nonblocking] failure is only warned about *)
  match os_set_nonblocking env with Ok _ | Err _ =>
  let '(handle_id, g') := register_session g in
  (CcQuicStatus.code CcQuicStatus.Ok, g', Some handle_id)
  end end end end end end end end end end end.

(** [cc_quic_server_start] (lib.rs 293-391). *)
Definition cc_quic_server_start (g : Globals) (config_nonnull : bool)
    (bind_addr : option (list Byte.byte)) (port : N)
    (cert_pem_path key_pem_path trusted_fingerprints_csv : option (list Byte.byte))
    (out_handle_nonnull : bool) : N * Globals * option N :=
  let fail s := (CcQuicStatus.code s, g, None) in
  if negb config_nonnull || is_null bind_addr || is_null cert_pem_path
     || is_null key_pem_path || is_null trusted_fingerprints_csv
     || negb out_handle_nonnull
  then fail CcQuicStatus.NullPointer else
  match cstr_to_string bind_addr with Err c => fail c | Ok bind_host =>
  match cstr_to_string cert_pem_path with Err c => fail c | Ok cert_path =>
  match cstr_to_string key_pem_path with Err c => fail c | Ok key_path =>
  match cstr_to_string trusted_fingerprints_csv with Err c => fail c | Ok csv =>
  let _trusted_allowlist := parse_allowlist csv in
  match os_parse_addr env bind_host port with None => fail CcQuicStatus.SocketError | Some local =>
  match os_load_cert_chain env cert_path with Err _ => fail CcQuicStatus.CertLoadError | Ok _ =>
  match os_load_priv_key env key_path with Err _ => fail CcQuicStatus.CertLoadError | Ok _ =>
  match os_bind env (Some local) with Err _ => fail CcQuicStatus.SocketError | Ok _ =>
  match os_set_nonblocking env with Ok _ | Err _ =>
  let '(handle_id, g') := register_session g in
  (CcQuicStatus.code CcQuicStatus.Ok, g', Some handle_id)
  end end end end end end end end end.

End Setup.

(** ** Event traces *)

(** The connection id an event carries. *)
Definition ev_conn_id (e : QuicEvent) : option string :=
  match e with
  | Connected _ id _ | Message _ id _ | Closed _ id _ => Some id
  | Error _ oid _ => oid
  end.

Definition mentions (id : string) (e : QuicEvent) : bool :=
  match ev_conn_id e with Some id' => String.eqb id' id | None => false end.

Definition is_connected_for (id : string) (e : QuicEvent) : bool :=
  match e with Connected _ id' _ => String.eqb id' id | _ => false end.

Definition is_msg_or_closed_for (id : string) (e : QuicEvent) : bool :=
  match e with
  | Message _ id' _ | Closed _ id' _ => String.eqb id' id
  | _ => false
  end.

Definition is_closed_for (id : string) (e : QuicEvent) : bool :=
  match e with Closed _ id' _ => String.eqb id' id | _ => false end.

(** At most one [Connected] for [id], and none after a [Message] or
    [Closed] for [id]. *)
Definition connected_once_and_first (id : string) (tr : list QuicEvent) : Prop :=
  (List.length (filter (fun e => is_connected_for id e) tr) <= 1)%nat /\
  forall pre e post, tr = pre ++ e :: post -> is_connected_for id e = true ->
    Forall (fun e' => is_msg_or_closed_for id e' = false) pre.

(** Nothing carrying [id] after a [Closed] for [id]. *)
Definition silent_after_closed (id : string) (tr : list QuicEvent) : Prop :=
  forall pre e post, tr = pre ++ e :: post -> is_closed_for id e = true ->
    Forall (fun e' => mentions id e' = false) post.

(** A monitor of the events of one connection id: before announcement,
    announced, closed.  In [strict] mode a [Message] before [Connected] is
    refused. *)
Inductive Mon := MPre | MConn | MDone.

Definition mon_step (strict : bool) (id : string) (m : Mon) (e : QuicEvent)
  : option Mon :=
  if mentions id e then
    match m, e with
    | MPre, Connected _ _ _ => Some MConn
    | MPre, Message _ _ _ => if strict then None else Some MPre
    | MPre, Closed _ _ _ => Some MDone
    | MPre, Error _ _ _ => Some MPre
    | MConn, Connected _ _ _ => None
    | MConn, Closed _ _ _ => Some MDone
    | MConn, _ => Some MConn
    | MDone, _ => None
    end
  else Some m.

Fixpoint mon_run (strict : bool) (id : string) (m : Mon) (tr : list QuicEvent)
  : option Mon :=
  match tr with
  | [] => Some m
  | e :: tr' =>
      match mon_step strict id m e with
      | Some m' => mon_run strict id m' tr'
      | None => None
      end
  end.

(** ** A small concrete engine, for evaluating the model on inputs *)

Record ToyConn := {
  toy_established : bool;
  toy_closed : bool;
  toy_inbox : list (list Byte.byte)
}.

Definition toy_new : ToyConn :=
  {| toy_established := false; toy_closed := false; toy_inbox := [] |}.

(** The first datagram completes the handshake; later ones are
    application data on stream 0; [close] closes at once; the peer
    certificate is the single byte 0. *)
#[global] Instance toy_engine : QuicEngine ToyConn := {|
  quic_connect _ _ _ _ := Ok toy_new;
  quic_accept _ _ _ _ := Ok toy_new;
  header_from_slice d :=
    match d with
    | a :: b :: _ => Some {| hdr_dcid := [a]; hdr_scid := [b] |}
    | _ => None
    end;
  conn_recv c d _ _ :=
    if toy_established c
    then {| toy_established := true; toy_closed := toy_closed c;
            toy_inbox := toy_inbox c ++ [d] |}
    else {| toy_established := true; toy_closed := toy_closed c;
            toy_inbox := toy_inbox c |};
  conn_send c := (SendDone, c);
  conn_stream_send c _ _ _ := c;
  conn_close c _ _ _ :=
    {| toy_established := toy_established c; toy_closed := true;
       toy_inbox := toy_inbox c |};
  conn_is_established := toy_established;
  conn_is_closed := toy_closed;
  conn_peer_cert _ := Some [Byte.x00];
  conn_peer_error _ := None;
  conn_readable c :=
    match toy_established c, toy_inbox c with
    | true, _ :: _ => [0]
    | _, _ => []
    end;
  conn_stream_reads c _ :=
    (toy_inbox c,
     {| toy_established := toy_established c; toy_closed := toy_closed c;
        toy_inbox := [] |});
  conn_timeout _ := None;
  conn_on_timeout c := c
|}.

(** Identity digest and byte-for-byte text conversions. *)
#[global] Instance toy_sha256 : Sha256 := fun d => d.
#[global] Instance toy_codec : TextCodec := {|
  from_utf8 raw := Some (string_of_list_byte raw);
  hex_decode s := Some (list_byte_of_string s)
|}.

Definition toy_env (connect_ok : bool) : SetupEnv := {|
  os_load_cert_chain _ := Ok tt;
  os_load_priv_key _ := Ok tt;
  os_parse_addr _ port := Some port;
  os_bind _ := Ok tt;
  os_connect _ := if connect_ok then Ok tt else Err "Connection refused";
  os_set_nonblocking := Ok tt
|}.

(** What a session-creation call guarantees: on a non-[Ok] status the
    globals are untouched and no handle is written; on [Ok] the handle is
    the next one, registered with a fresh channel and a spawned worker,
    and [succeeded] holds. *)
Definition setup_outcome (g : Globals) (r : N * Globals * option N)
  (succeeded : Prop) : Prop :=
  (fst (fst r) <> CcQuicStatus.code CcQuicStatus.Ok -> snd (fst r) = g /\ snd r = None) /\
  (fst (fst r) = CcQuicStatus.code CcQuicStatus.Ok ->
     snd r = Some (g_next_handle g) /\ snd (fst r) = snd (register_session g) /\ succeeded).

(** One piece of the allowlist CSV, trimmed and lowercased. *)
Definition allow_piece (piece : list ascii) : option string :=
  let trimmed := trim (string_of_list_ascii piece) in
  if String.eqb trimmed EmptyString then None else Some (to_lowercase trimmed).

(** The number of [Connected] events the monitor still admits. *)
Definition mon_bound (m : Mon) : nat := match m with MPre => 1 | _ => 0 end.

(** What the client worker has announced, against the monitor of its
    connection id. *)
Definition client_inv (announced : bool) (m : Mon) : Prop :=
  (m = MPre /\ announced = false) \/ (m = MConn /\ announced = true).

(** The server worker's state against the monitor of the connection [y]:
    a live connection is not among the ids still to be drawn and is
    announced exactly when the monitor has seen its [Connected]; a removed
    one is not in [announced], and once it has posted events it is not
    drawn again. *)
Definition y_inv {Conn : Type} (y : cid) (conns : gmap cid Conn) (ann : gset cid) (m : Mon)
    (fut : list cid) : Prop :=
  match conns !! y with
  | Some _ => (y ∉ fut) /\ ((m = MPre /\ y ∉ ann) \/ (m = MConn /\ y ∈ ann))
  | None => (y ∉ ann) /\ (m = MPre \/ y ∉ fut)
  end.

(** The event carries the hex form of some connection id. *)
Definition has_hex_id (e : QuicEvent) : Prop :=
  exists z, ev_conn_id e = Some (hex_string z).

(** A server session on the toy engine: accept, handshake, one message,
    then [Close None]. *)
Definition toy_server_demo : list ServerInput := [
  {| si_cmds := []; si_recv := RecvData [Byte.x09; Byte.x02] 5; si_fresh := [Byte.x07] |};
  {| si_cmds := []; si_recv := RecvData [Byte.x07; Byte.x02] 5; si_fresh := [Byte.x08] |};
  {| si_cmds := []; si_recv := RecvData [Byte.x07; Byte.x02; Byte.x41] 5;
     si_fresh := [Byte.x0a] |};
  {| si_cmds := [Close None]; si_recv := RecvWouldBlock; si_fresh := [Byte.x0b] |};
  {| si_cmds := []; si_recv := RecvWouldBlock; si_fresh := [Byte.x0c] |}
].

(** The same environment with [connect] and [set_nonblocking] always
    succeeding. *)
Definition env_reliable (env : SetupEnv) : SetupEnv := {|
  os_load_cert_chain := os_load_cert_chain env;
  os_load_priv_key := os_load_priv_key env;
  os_parse_addr := os_parse_addr env;
  os_bind := os_bind env;
  os_connect _ := Ok tt;
  os_set_nonblocking := Ok tt
|}.

(** ** Further helpers and entry points *)

(** [str::is_char_boundary]: index 0, the length, or an index whose byte
    is not a UTF-8 continuation byte. *)
Definition is_char_boundary (bytes : list ascii) (index : nat) : bool :=
  if Nat.eqb index 0 then true
  else match nth_error bytes index with
       | None => Nat.eqb index (List.length bytes)
       | Some b => negb (cont_byte (N_of_ascii b))
       end.

(** [short_hex] (lib.rs 981-994).  [len] and the slice offsets count
    bytes; [saturating_sub] is [nat] subtraction.  [&trimmed[..prefix_len]]
    and [&trimmed[suffix_start..]] panic unless the offset is a char
    boundary: [None]. *)
Definition short_hex (hex : string) : option string :=
  let trimmed := trim hex in
  if (String.length trimmed <=? 12)%nat then Some trimmed else
  let prefix_len := Nat.min 6 (String.length trimmed) in
  let suffix_len := Nat.min 4 (String.length trimmed - prefix_len)%nat in
  let suffix_start := (String.length trimmed - suffix_len)%nat in
  if is_char_boundary (list_ascii_of_string trimmed) prefix_len
     && is_char_boundary (list_ascii_of_string trimmed) suffix_start
  then Some (String.append (substring 0 prefix_len trimmed)
               (String.append "..."
                  (substring suffix_start (String.length trimmed - suffix_start)%nat trimmed)))
  else None.

(** The value of one hex digit for [hex::decode] of the [hex] crate:
    [0-9], [a-f] and [A-F]. *)
Definition hex_val (c : ascii) : option N :=
  let n := N_of_ascii c in
  if (48 <=? n) && (n <=? 57) then Some (n - 48)
  else if (97 <=? n) && (n <=? 102) then Some (n - 87)
  else if (65 <=? n) && (n <=? 70) then Some (n - 55)
  else None.

(** [hex::decode]: two digits per byte, high digit first; an odd length or
    a character that is not a hex digit is an error. *)
Fixpoint hex_decode_digits (l : list ascii) : option (list Byte.byte) :=
  match l with
  | [] => Some []
  | [_] => None
  | hi :: lo :: rest =>
      match hex_val hi, hex_val lo with
      | Some a, Some b =>
          match Byte.of_N (a * 16 + b), hex_decode_digits rest with
          | Some x, Some bs => Some (x :: bs)
          | _, _ => None
          end
      | _, _ => None
      end
  end.

Definition hex_crate_decode (s : string) : option (list Byte.byte) :=
  hex_decode_digits (list_ascii_of_string s).

(** The conversions with the [hex] crate's decoder; [CStr::to_str] stays a
    parameter. *)
Definition crate_codec (utf8 : list Byte.byte -> option string) : TextCodec := {|
  from_utf8 := utf8;
  hex_decode := hex_crate_decode
|}.

(** The handle an event carries. *)
Definition ev_handle (e : QuicEvent) : N :=
  match e with
  | Connected h _ _ | Message h _ _ | Closed h _ _ | Error h _ _ => h
  end.

(** The settings [cc_quic_config_new] writes into a [quiche::Config]. *)
Record QuicConfig := {
  qc_verify_peer : bool;
  qc_application_protos : list (list Byte.byte);
  qc_max_idle_timeout : N;
  qc_max_recv_udp_payload_size : N;
  qc_max_send_udp_payload_size : N;
  qc_initial_max_data : N;
  qc_initial_max_stream_data_bidi_local : N;
  qc_initial_max_stream_data_bidi_remote : N;
  qc_initial_max_stream_data_uni : N;
  qc_initial_max_streams_bidi : N;
  qc_initial_max_streams_uni : N;
  qc_dgram : bool * N * N;
  qc_pacing : bool
}.

Definition CONTROL_ALPN : list Byte.byte := list_byte_of_string "cribcall-ctrl".
Definition DEFAULT_IDLE_TIMEOUT_MS : N := 30000.
Definition DEFAULT_MAX_UDP_PAYLOAD : N := 1350.
Definition DEFAULT_STREAM_WINDOW : N := 1048576.

(** [cc_quic_config_new] (lib.rs 135-170).  [quiche::Config::new] and
    [set_application_protos] are quiche's and may fail; the other setters
    only store their argument.  Result: the status code and what is
    written through [out_config] ([None]: nothing). *)
Definition cc_quic_config_new (out_config_nonnull : bool)
    (quiche_config_new : result QuicConfig string)
    (set_application_protos : QuicConfig -> list (list Byte.byte) -> result QuicConfig string)
  : N * option QuicConfig :=
  if negb out_config_nonnull then (CcQuicStatus.code CcQuicStatus.NullPointer, None) else
  match quiche_config_new with
  | Err _ => (CcQuicStatus.code CcQuicStatus.ConfigError, None)
  | Ok cfg =>
  match set_application_protos cfg [CONTROL_ALPN] with
  | Err _ => (CcQuicStatus.code CcQuicStatus.InvalidAlpn, None)
  | Ok cfg =>
      let config := {|
        qc_verify_peer := true;
        qc_application_protos := qc_application_protos cfg;
        qc_max_idle_timeout := DEFAULT_IDLE_TIMEOUT_MS;
        qc_max_recv_udp_payload_size := DEFAULT_MAX_UDP_PAYLOAD;
        qc_max_send_udp_payload_size := DEFAULT_MAX_UDP_PAYLOAD;
        qc_initial_max_data := DEFAULT_STREAM_WINDOW;
        qc_initial_max_stream_data_bidi_local := DEFAULT_STREAM_WINDOW;
        qc_initial_max_stream_data_bidi_remote := DEFAULT_STREAM_WINDOW;
        qc_initial_max_stream_data_uni := DEFAULT_STREAM_WINDOW;
        qc_initial_max_streams_bidi := 8;
        qc_initial_max_streams_uni := 4;
        qc_dgram := (true, 1024, 1024);
        qc_pacing := true |} in
      (CcQuicStatus.code CcQuicStatus.Ok, Some config)
  end end.

(** [n] successive session creations, each registering as
    [register_session] does: the handles issued, in order, and the globals
    afterwards. *)
Fixpoint register_sessions (g : Globals) (n : nat) : list N * Globals :=
  match n with
  | O => ([], g)
  | S n' =>
      let '(h, g1) := register_session g in
      let '(hs, g2) := register_sessions g1 n' in
      (h :: hs, g2)
  end.

(** A one-state engine whose [send] always fails, for evaluating the
    error path of the server pass. *)
Definition failing_engine : QuicEngine unit := {|
  quic_connect _ _ _ _ := Ok tt;
  quic_accept _ _ _ _ := Ok tt;
  header_from_slice _ := None;
  conn_recv c _ _ _ := c;
  conn_send c := (SendError "invalid state", c);
  conn_stream_send c _ _ _ := c;
  conn_close c _ _ _ := c;
  conn_is_established _ := true;
  conn_is_closed _ := false;
  conn_peer_cert _ := None;
  conn_peer_error _ := None;
  conn_readable _ := [];
  conn_stream_reads c _ := ([], c);
  conn_timeout _ := None;
  conn_on_timeout c := c
|}.

(** * Proofs *)

(** ** Trust policy *)

(** *** UTF-8 decoding *)

Ltac nb := repeat (rewrite ?andb_true_iff, ?orb_true_iff, ?negb_true_iff, ?andb_false_iff,
  ?orb_false_iff, ?negb_false_iff, ?N.leb_le, ?N.ltb_lt, ?N.leb_gt, ?N.ltb_ge, ?N.eqb_eq,
  ?N.eqb_neq in *).

Lemma list_len_ind {A : Type} (P : list A -> Prop) :
  (forall l, (forall l', (List.length l' < List.length l)%nat -> P l') -> P l) ->
  forall l, P l.
Proof.
  intros H l. assert (Hn : forall n l, (List.length l <= n)%nat -> P l).
  { induction n as [|n IH]; intros l' Hl; apply H; intros l'' Hl''; [lia|].
    apply IH. lia. }
  exact (Hn _ l (le_n _)).
Qed.

Lemma valid_char_spec (c : N) :
  valid_char c = true <-> c < 55296 \/ 57343 < c < 1114112.
Proof. unfold valid_char. nb. lia. Qed.

Lemma cont_byte_ascii (n : N) : n < 128 -> cont_byte n = false.
Proof. intros Hn. unfold cont_byte. nb. lia. Qed.

Lemma utf8_2_nc (n0 n1 : N) : cont_byte n1 = false -> utf8_2 n0 n1 = None.
Proof. intros H. unfold utf8_2. rewrite H, andb_false_r. reflexivity. Qed.

Lemma utf8_3_nc1 (n0 n1 n2 : N) : cont_byte n1 = false -> utf8_3 n0 n1 n2 = None.
Proof. intros H. unfold utf8_3. rewrite H, andb_false_r. reflexivity. Qed.

Lemma utf8_3_nc2 (n0 n1 n2 : N) : cont_byte n2 = false -> utf8_3 n0 n1 n2 = None.
Proof. intros H. unfold utf8_3. rewrite H, andb_false_r. reflexivity. Qed.

Lemma utf8_4_nc1 (n0 n1 n2 n3 : N) : cont_byte n1 = false -> utf8_4 n0 n1 n2 n3 = None.
Proof. intros H. unfold utf8_4. rewrite H, andb_false_r. reflexivity. Qed.

Lemma utf8_4_nc2 (n0 n1 n2 n3 : N) : cont_byte n2 = false -> utf8_4 n0 n1 n2 n3 = None.
Proof. intros H. unfold utf8_4. rewrite H, andb_false_r. reflexivity. Qed.

Lemma utf8_4_nc3 (n0 n1 n2 n3 : N) : cont_byte n3 = false -> utf8_4 n0 n1 n2 n3 = None.
Proof. intros H. unfold utf8_4. rewrite H, andb_false_r. reflexivity. Qed.

Lemma utf8_2_some (n0 n1 c : N) :
  utf8_2 n0 n1 = Some c -> 128 <= c < 2048.
Proof.
  unfold utf8_2, cont_byte. destruct (_ && _ && _) eqn:E; [|discriminate].
  intros [= <-]. nb. lia.
Qed.

Lemma utf8_3_some (n0 n1 n2 c : N) :
  utf8_3 n0 n1 n2 = Some c -> 2048 <= c < 65536 /\ ~ (55296 <= c < 57344).
Proof.
  unfold utf8_3, cont_byte. cbv zeta. destruct (_ && _ && _ && _ && _ && _) eqn:E; [|discriminate].
  intros [= <-]. nb. lia.
Qed.

Lemma utf8_4_some (n0 n1 n2 n3 c : N) :
  utf8_4 n0 n1 n2 n3 = Some c -> 65536 <= c < 1114112.
Proof.
  unfold utf8_4, cont_byte. cbv zeta. destruct (_ && _ && _ && _ && _ && _ && _) eqn:E; [|discriminate].
  intros [= <-]. nb. lia.
Qed.

Lemma utf8_decode_ascii (b : ascii) (l : list ascii) :
  N_of_ascii b < 128 -> utf8_decode (b :: l) = N_of_ascii b :: utf8_decode l.
Proof. intros Hb. cbn [utf8_decode]. rewrite (proj2 (N.ltb_lt _ _) Hb). reflexivity. Qed.

Lemma utf8_decode_app_ascii (l1 l2 : list ascii) (b : ascii) :
  N_of_ascii b < 128 ->
  utf8_decode (l1 ++ b :: l2) = utf8_decode l1 ++ utf8_decode (b :: l2).
Proof.
  intros Hb. pose proof (cont_byte_ascii _ Hb) as Hc.
  induction l1 as [l1 IH] using list_len_ind.
  destruct l1 as [|b0 l1]; [reflexivity|].
  cbn [app utf8_decode].
  destruct (N_of_ascii b0 <? 128) eqn:E0.
  { rewrite IH by (simpl; lia). reflexivity. }
  destruct l1 as [|b1 l1].
  { cbn [app]. rewrite utf8_2_nc by exact Hc.
    destruct l2 as [|b2 l3]; [reflexivity|].
    rewrite utf8_3_nc1 by exact Hc.
    destruct l3 as [|b3 l4]; [reflexivity|].
    rewrite utf8_4_nc1 by exact Hc. reflexivity. }
  cbn [app].
  destruct (utf8_2 _ _) eqn:E2.
  { rewrite IH by (simpl; lia). reflexivity. }
  destruct l1 as [|b2 l1].
  { cbn [app]. rewrite utf8_3_nc2 by exact Hc.
    destruct l2 as [|b3 l4].
    - exact (f_equal (cons _) (IH [b1] ltac:(simpl; lia))).
    - rewrite utf8_4_nc2 by exact Hc. exact (f_equal (cons _) (IH [b1] ltac:(simpl; lia))). }
  cbn [app].
  destruct (utf8_3 _ _ _) eqn:E3.
  { rewrite IH by (simpl; lia). reflexivity. }
  destruct l1 as [|b3 l1].
  { cbn [app]. rewrite utf8_4_nc3 by exact Hc.
    exact (f_equal (cons _) (IH [b1; b2] ltac:(simpl; lia))). }
  cbn [app].
  destruct (utf8_4 _ _ _ _) eqn:E4.
  - rewrite IH by (simpl; lia). reflexivity.
  - exact (f_equal (cons _) (IH (b1 :: b2 :: b3 :: l1) ltac:(simpl; lia))).
Qed.

Lemma utf8_decode_valid (l : list ascii) : Forall (fun c => valid_char c = true) (utf8_decode l).
Proof.
  induction l as [l IH] using list_len_ind.
  destruct l as [|b0 l1]; [constructor|].
  cbn [utf8_decode].
  destruct (N_of_ascii b0 <? 128) eqn:E0.
  { constructor; [apply valid_char_spec; nb; lia|apply IH; simpl; lia]. }
  assert (Hr : valid_char REPLACEMENT_CHARACTER = true) by reflexivity.
  destruct l1 as [|b1 l2]; [repeat constructor; exact Hr|].
  destruct (utf8_2 _ _) eqn:E2.
  { apply utf8_2_some in E2. constructor; [apply valid_char_spec; lia|apply IH; simpl; lia]. }
  destruct l2 as [|b2 l3]; [constructor; [exact Hr|apply IH; simpl; lia]|].
  destruct (utf8_3 _ _ _) eqn:E3.
  { apply utf8_3_some in E3. constructor; [apply valid_char_spec; lia|apply IH; simpl; lia]. }
  destruct l3 as [|b3 l4]; [constructor; [exact Hr|apply IH; simpl; lia]|].
  destruct (utf8_4 _ _ _ _) eqn:E4.
  { apply utf8_4_some in E4. constructor; [apply valid_char_spec; lia|apply IH; simpl; lia]. }
  constructor; [exact Hr|apply IH; simpl; lia].
Qed.

(** A character below U+0080 comes from a byte of that value. *)
Lemma utf8_decode_small (l : list ascii) (x : N) :
  In x (utf8_decode l) -> x < 128 -> In (ascii_of_N x) l.
Proof.
  induction l as [l IH] using list_len_ind.
  destruct l as [|b0 l1]; [intros []|].
  cbn [utf8_decode]. intros Hin Hx.
  assert (Hr : ~ REPLACEMENT_CHARACTER < 128) by (unfold REPLACEMENT_CHARACTER; lia).
  destruct (N_of_ascii b0 <? 128) eqn:E0.
  { destruct Hin as [<-|Hin]; [left; symmetry; apply ascii_N_embedding|right; apply (IH l1); auto; simpl; lia]. }
  destruct l1 as [|b1 l2]; [destruct Hin as [<-|[]]; contradiction|].
  destruct (utf8_2 _ _) eqn:E2.
  { apply utf8_2_some in E2. destruct Hin as [<-|Hin]; [lia|].
    right; right. apply (IH l2); auto; simpl; lia. }
  destruct l2 as [|b2 l3].
  { destruct Hin as [<-|Hin]; [contradiction|right; apply (IH [b1]); auto]. }
  destruct (utf8_3 _ _ _) eqn:E3.
  { apply utf8_3_some in E3. destruct Hin as [<-|Hin]; [lia|].
    right; right; right. apply (IH l3); auto; simpl; lia. }
  destruct l3 as [|b3 l4].
  { destruct Hin as [<-|Hin]; [contradiction|right; apply (IH (b1 :: b2 :: [])); auto]. }
  destruct (utf8_4 _ _ _ _) eqn:E4.
  { apply utf8_4_some in E4. destruct Hin as [<-|Hin]; [lia|].
    right; right; right; right. apply (IH l4); auto; simpl; lia. }
  destruct Hin as [<-|Hin]; [contradiction|right; apply (IH (b1 :: b2 :: b3 :: l4)); auto].
Qed.

Lemma utf8_decode_nil (l : list ascii) : utf8_decode l = [] -> l = [].
Proof.
  destruct l as [|b0 l1]; [reflexivity|]. cbn [utf8_decode].
  destruct (_ <? 128); [discriminate|].
  destruct l1 as [|b1 l2]; [discriminate|]. destruct (utf8_2 _ _); [discriminate|].
  destruct l2 as [|b2 l3]; [discriminate|]. destruct (utf8_3 _ _ _); [discriminate|].
  destruct l3 as [|b3 l4]; [discriminate|]. destruct (utf8_4 _ _ _ _); discriminate.
Qed.

Lemma utf8_2_lead (n0 n1 : N) : 224 <= n0 -> utf8_2 n0 n1 = None.
Proof.
  intros H. unfold utf8_2. replace (n0 <? 224) with false by (symmetry; nb; lia).
  rewrite andb_false_r. reflexivity.
Qed.

Lemma utf8_3_lead (n0 n1 n2 : N) : 240 <= n0 -> utf8_3 n0 n1 n2 = None.
Proof.
  intros H. unfold utf8_3. replace (n0 <? 240) with false by (symmetry; nb; lia).
  rewrite andb_false_r. reflexivity.
Qed.

Lemma ascii_byte (n : N) : n < 256 -> N_of_ascii (ascii_of_N n) = n.
Proof. apply N_ascii_embedding. Qed.

Lemma utf8_decode_encode (c : N) (l : list ascii) :
  valid_char c = true -> utf8_decode (utf8_encode c ++ l) = c :: utf8_decode l.
Proof.
  intros Hv. apply valid_char_spec in Hv.
  pose proof (N.div_mod c 64 ltac:(lia)) as Hq.
  pose proof (N.mod_lt c 64 ltac:(lia)) as Hr.
  assert (H4096 : c / 4096 = c / 64 / 64) by (rewrite N.Div0.div_div; reflexivity).
  assert (H262144 : c / 262144 = c / 64 / 64 / 64) by (rewrite !N.Div0.div_div; reflexivity).
  pose proof (N.div_mod (c / 64) 64 ltac:(lia)) as Hq1.
  pose proof (N.mod_lt (c / 64) 64 ltac:(lia)) as Hr1.
  pose proof (N.div_mod (c / 64 / 64) 64 ltac:(lia)) as Hq2.
  pose proof (N.mod_lt (c / 64 / 64) 64 ltac:(lia)) as Hr2.
  unfold utf8_encode. rewrite H4096, H262144.
  set (r := c mod 64) in *. set (q := c / 64) in *.
  set (r1 := q mod 64) in *. set (q1 := q / 64) in *.
  set (r2 := q1 mod 64) in *. set (q2 := q1 / 64) in *.
  destruct (c <? 128) eqn:E1; nb.
  { cbn [app]. rewrite utf8_decode_ascii; rewrite ascii_byte; auto; lia. }
  destruct (c <? 2048) eqn:E2; nb.
  { cbn [app utf8_decode]. rewrite !ascii_byte by lia.
    replace (192 + q <? 128) with false by (symmetry; nb; lia).
    unfold utf8_2, cont_byte.
    replace ((194 <=? 192 + q) && (192 + q <? 224) && ((128 <=? 128 + r) && (128 + r <? 192)))
      with true by (symmetry; nb; lia).
    f_equal. f_equal. lia. }
  destruct (c <? 65536) eqn:E3; nb.
  { cbn [app utf8_decode]. rewrite !ascii_byte by lia.
    replace (224 + q1 <? 128) with false by (symmetry; nb; lia).
    rewrite utf8_2_lead by lia.
    unfold utf8_3, cont_byte. cbv zeta.
    replace ((224 <=? 224 + q1) && (224 + q1 <? 240) && ((128 <=? 128 + r1) && (128 + r1 <? 192))
      && ((128 <=? 128 + r) && (128 + r <? 192))
      && (2048 <=? (224 + q1 - 224) * 4096 + (128 + r1 - 128) * 64 + (128 + r - 128))
      && negb ((55296 <=? (224 + q1 - 224) * 4096 + (128 + r1 - 128) * 64 + (128 + r - 128))
           && ((224 + q1 - 224) * 4096 + (128 + r1 - 128) * 64 + (128 + r - 128) <? 57344)))
      with true by (symmetry; nb; lia).
    f_equal. f_equal. lia. }
  cbn [app utf8_decode]. rewrite !ascii_byte by lia.
  replace (240 + q2 <? 128) with false by (symmetry; nb; lia).
  rewrite utf8_2_lead by lia. rewrite utf8_3_lead by lia.
  unfold utf8_4, cont_byte. cbv zeta.
  replace ((240 <=? 240 + q2) && (240 + q2 <? 245) && ((128 <=? 128 + r2) && (128 + r2 <? 192))
      && ((128 <=? 128 + r1) && (128 + r1 <? 192)) && ((128 <=? 128 + r) && (128 + r <? 192))
      && (65536 <=? (240 + q2 - 240) * 262144 + (128 + r2 - 128) * 4096 + (128 + r1 - 128) * 64 + (128 + r - 128))
      && ((240 + q2 - 240) * 262144 + (128 + r2 - 128) * 4096 + (128 + r1 - 128) * 64 + (128 + r - 128) <? 1114112))
    with true by (symmetry; nb; lia).
  f_equal. f_equal. lia.
Qed.

Lemma utf8_decode_encode_all (cs : list N) (l : list ascii) :
  Forall (fun c => valid_char c = true) cs ->
  utf8_decode (flat_map utf8_encode cs ++ l) = cs ++ utf8_decode l.
Proof.
  induction 1 as [|c cs Hc Hcs IH]; [reflexivity|].
  cbn [flat_map]. rewrite <- app_assoc, utf8_decode_encode by exact Hc.
  rewrite IH. reflexivity.
Qed.

Lemma chars_string_of_chars (cs : list N) :
  Forall (fun c => valid_char c = true) cs -> chars (string_of_chars cs) = cs.
Proof.
  intros H. unfold chars, string_of_chars. rewrite list_ascii_of_string_of_list_ascii.
  rewrite <- (app_nil_r (flat_map utf8_encode cs)), utf8_decode_encode_all by exact H.
  apply app_nil_r.
Qed.

Lemma chars_valid (s : string) : Forall (fun c => valid_char c = true) (chars s).
Proof. apply utf8_decode_valid. Qed.

Lemma utf8_decode_ascii_all (l : list ascii) :
  Forall (fun b => N_of_ascii b < 128) l -> utf8_decode l = map N_of_ascii l.
Proof.
  induction 1 as [|b l Hb Hl IH]; [reflexivity|].
  rewrite utf8_decode_ascii by exact Hb. rewrite IH. reflexivity.
Qed.

Lemma utf8_encode_ascii (b : ascii) : N_of_ascii b < 128 -> utf8_encode (N_of_ascii b) = [b].
Proof.
  intros Hb. unfold utf8_encode. rewrite (proj2 (N.ltb_lt _ _) Hb), ascii_N_embedding.
  reflexivity.
Qed.

Lemma string_of_chars_ascii (l : list ascii) :
  Forall (fun b => N_of_ascii b < 128) l ->
  string_of_chars (map N_of_ascii l) = string_of_list_ascii l.
Proof.
  intros H. unfold string_of_chars. f_equal.
  induction H as [|b l Hb Hl IH]; [reflexivity|].
  cbn [map flat_map]. rewrite utf8_encode_ascii by exact Hb. rewrite IH. reflexivity.
Qed.

Lemma utf8_encode_nonempty (c : N) : utf8_encode c <> [].
Proof. unfold utf8_encode. repeat destruct (_ <? _); discriminate. Qed.

(** A byte below 0x80 in the encoding of a scalar value is that value. *)
Lemma utf8_encode_small_byte (c : N) (b : ascii) :
  c < 1114112 -> In b (utf8_encode c) -> N_of_ascii b < 128 -> c = N_of_ascii b.
Proof.
  intros Hc Hin Hb. unfold utf8_encode in Hin.
  pose proof (N.mod_lt c 64 ltac:(lia)) as B0.
  pose proof (N.mod_lt (c / 64) 64 ltac:(lia)) as B1.
  pose proof (N.mod_lt (c / 4096) 64 ltac:(lia)) as B2.
  assert (B3 : c < 2048 -> c / 64 < 32) by (intros; apply N.Div0.div_lt_upper_bound; lia).
  assert (B4 : c < 65536 -> c / 4096 < 16) by (intros; apply N.Div0.div_lt_upper_bound; lia).
  assert (B5 : c / 262144 < 5) by (apply N.Div0.div_lt_upper_bound; lia).
  destruct (c <? 128) eqn:E1.
  { destruct Hin as [<-|[]]. nb. rewrite ascii_byte; lia. }
  revert Hin B0 B1 B2 B3 B4 B5. generalize (c / 64 mod 64) (c / 4096 mod 64) (c mod 64). generalize (c / 64) (c / 4096) (c / 262144). intros.
  destruct (c <? 2048) eqn:E2; nb.
  { destruct Hin as [<-|[<-|[]]]; rewrite ascii_byte in Hb; lia. }
  destruct (c <? 65536) eqn:E3; nb.
  { destruct Hin as [<-|[<-|[<-|[]]]]; rewrite ascii_byte in Hb; lia. }
  destruct Hin as [<-|[<-|[<-|[<-|[]]]]]; rewrite ascii_byte in Hb; lia.
Qed.

Lemma string_of_chars_nil (cs : list N) : string_of_chars cs = EmptyString -> cs = [].
Proof.
  unfold string_of_chars. destruct cs as [|c cs]; [reflexivity|]. cbn [flat_map].
  pose proof (utf8_encode_nonempty c). destruct (utf8_encode c); [congruence|].
  discriminate.
Qed.

Lemma chars_nil (s : string) : chars s = [] -> s = EmptyString.
Proof.
  unfold chars. intros H. apply utf8_decode_nil in H.
  rewrite <- (string_of_list_ascii_of_string s), H. reflexivity.
Qed.

(** *** The lowercase mapping *)

Lemma lowercase_table_ok :
  forallb (fun '(_, outs) => match outs with [] => false | _ => forallb lower_image_ok outs end) lowercase_table = true.
Proof. vm_compute. reflexivity. Qed.

Lemma lower_fixed_spec (x : N) : lower_fixed x = true -> to_lower x = [x].
Proof.
  unfold lower_fixed. destruct (to_lower x) as [|y [|z l]]; try discriminate.
  intros H. nb. subst. reflexivity.
Qed.

Lemma table_lookup_in (c : N) (t : list (N * list N)) (v : list N) :
  table_lookup c t = Some v -> In (c, v) t.
Proof.
  induction t as [|[k w] t IH]; [discriminate|]. cbn [table_lookup].
  destruct (k =? c) eqn:E; [intros [= <-]; nb; subst; left; reflexivity|].
  intros H; right; auto.
Qed.

Lemma table_image (c : N) (v : list N) :
  table_lookup c lowercase_table = Some v -> v <> [] /\ Forall (fun x => lower_image_ok x = true) v.
Proof.
  intros H. apply table_lookup_in in H.
  pose proof lowercase_table_ok as T. rewrite forallb_forall in T.
  specialize (T _ H). cbn beta iota in T. destruct v as [|y v]; [discriminate|]. split.
  - congruence.
  - apply List.Forall_forall. intros x Hx. exact (proj1 (forallb_forall _ _) T x Hx).
Qed.

Lemma to_lower_nonempty (c : N) : to_lower c <> [].
Proof.
  unfold to_lower. destruct (c <? 128); [discriminate|].
  destruct (table_lookup c lowercase_table) eqn:E; [apply (table_image _ _ E)|discriminate].
Qed.

(** The characters of [to_lower c]. *)
Lemma to_lower_image (c x : N) :
  In x (to_lower c) ->
  to_lower x = [x] /\ (x = 931 -> c = 931) /\ (valid_char c = true -> valid_char x = true)
  /\ (is_whitespace x = true -> x = c) /\ (x = 44 -> c = 44).
Proof.
  unfold to_lower at 1. destruct (c <? 128) eqn:E1.
  { intros [<-|[]]. nb.
    destruct ((65 <=? c) && (c <=? 90)) eqn:E2; nb.
    - assert (Hx : c + 32 < 128) by lia. unfold to_lower.
      rewrite (proj2 (N.ltb_lt _ _) Hx).
      replace ((65 <=? c + 32) && (c + 32 <=? 90)) with false by (symmetry; nb; lia).
      repeat split; intros; try lia.
      + apply valid_char_spec; lia.
      + revert H. unfold is_whitespace. nb. lia.
    - unfold to_lower. rewrite (proj2 (N.ltb_lt _ _) E1).
      replace ((65 <=? c) && (c <=? 90)) with false by (symmetry; nb; lia).
      repeat split; auto. }
  destruct (table_lookup c lowercase_table) eqn:E2.
  - intros Hx. apply table_image in E2 as [_ E2]. rewrite List.Forall_forall in E2.
    specialize (E2 x Hx). unfold lower_image_ok in E2. nb.
    destruct E2 as [[[[F1 F2] F3] F4] F5].
    repeat split; intros; subst; auto using lower_fixed_spec; try lia; congruence.
  - intros [<-|[]]. repeat split; auto. unfold to_lower. rewrite E1, E2. reflexivity.
Qed.

Lemma whitespace_cases (c : N) : is_whitespace c = true ->
  c = 32 \/ c = 9 \/ c = 10 \/ c = 11 \/ c = 12 \/ c = 13 \/ c = 133 \/ c = 160 \/ c = 5760
  \/ c = 8192 \/ c = 8193 \/ c = 8194 \/ c = 8195 \/ c = 8196 \/ c = 8197 \/ c = 8198
  \/ c = 8199 \/ c = 8200 \/ c = 8201 \/ c = 8202 \/ c = 8232 \/ c = 8233 \/ c = 8239
  \/ c = 8287 \/ c = 12288.
Proof. unfold is_whitespace, in_ranges, white_space_table. cbn [existsb]. nb. lia. Qed.

Lemma whitespace_breaker (c : N) : is_whitespace c = true -> breaker c.
Proof.
  intros H. apply whitespace_cases in H.
  repeat destruct H as [->|H]; [..|subst]; unfold breaker; vm_compute;
    (split; [reflexivity|split; [reflexivity|split; [discriminate|reflexivity]]]).
Qed.

Lemma comma_breaker : breaker 44.
Proof. unfold breaker; vm_compute. split; [reflexivity|split; [reflexivity|split; [discriminate|reflexivity]]]. Qed.

Lemma citc_breaker (m k : list N) (x : N) :
  case_ignorable x = false -> cased x = false ->
  case_ignorable_then_cased (m ++ x :: k) = case_ignorable_then_cased m.
Proof.
  intros H1 H2. induction m as [|a m IH]; cbn [app case_ignorable_then_cased].
  - rewrite H1, H2. reflexivity.
  - destruct (case_ignorable a); [exact IH|reflexivity].
Qed.

Lemma lower_from_before_breaker (k b ys : list N) (x : N) :
  case_ignorable x = false -> cased x = false ->
  lower_from (k ++ x :: b) ys = lower_from k ys.
Proof.
  intros H1 H2. revert k. induction ys as [|a ys IH]; intros k; [reflexivity|].
  cbn [lower_from]. unfold lower_one. rewrite citc_breaker by assumption.
  f_equal. apply (IH (a :: k)).
Qed.

Lemma lower_one_after_breaker (b xs ys : list N) (a x : N) :
  case_ignorable x = false -> cased x = false ->
  lower_one b a (xs ++ x :: ys) = lower_one b a xs.
Proof. intros H1 H2. unfold lower_one. rewrite citc_breaker by assumption. reflexivity. Qed.

Lemma lower_from_breaker (b xs ys : list N) (x : N) :
  breaker x -> lower_from b (xs ++ x :: ys) = lower_from b xs ++ x :: lower_from [] ys.
Proof.
  intros (H1 & H2 & H3 & H4). revert b. induction xs as [|a xs IH]; intros b.
  - cbn [app lower_from]. unfold lower_one. rewrite (proj2 (N.eqb_neq _ _) H3), H4.
    change (x :: b) with ([] ++ x :: b). rewrite lower_from_before_breaker by assumption.
    reflexivity.
  - cbn [app lower_from]. rewrite lower_one_after_breaker by assumption.
    rewrite IH, app_assoc. reflexivity.
Qed.

Lemma lower_from_breaker_nil (ys : list N) (x : N) :
  breaker x -> lower_from [] (x :: ys) = x :: lower_from [] ys.
Proof. intros H. exact (lower_from_breaker [] [] ys x H). Qed.

Lemma lower_from_ws_prefix (w ys : list N) :
  Forall (fun c => is_whitespace c = true) w -> lower_from [] (w ++ ys) = w ++ lower_from [] ys.
Proof.
  induction 1 as [|c w Hc Hw IH]; [reflexivity|]. cbn [app].
  rewrite lower_from_breaker_nil by (apply whitespace_breaker, Hc). rewrite IH. reflexivity.
Qed.

Lemma lower_from_ws (w : list N) :
  Forall (fun c => is_whitespace c = true) w -> lower_from [] w = w.
Proof.
  intros H. rewrite <- (app_nil_r w) at 1. rewrite lower_from_ws_prefix by exact H.
  apply app_nil_r.
Qed.

Lemma lower_from_ws_suffix (b xs w : list N) :
  Forall (fun c => is_whitespace c = true) w -> lower_from b (xs ++ w) = lower_from b xs ++ w.
Proof.
  intros H. destruct H as [|c w Hc Hw]; [rewrite !app_nil_r; reflexivity|].
  rewrite lower_from_breaker by (apply whitespace_breaker, Hc).
  rewrite lower_from_ws by exact Hw. reflexivity.
Qed.

Lemma lower_from_last (b xs : list N) (e : N) :
  exists pre, lower_from b (xs ++ [e]) = pre ++ lower_one (rev xs ++ b) e [].
Proof.
  revert b. induction xs as [|a xs IH]; intros b.
  - exists []. cbn [app lower_from rev]. apply app_nil_r.
  - destruct (IH (a :: b)) as [pre Hpre]. exists (lower_one b a (xs ++ [e]) ++ pre).
    cbn [app lower_from rev]. rewrite Hpre, <- app_assoc, <- app_assoc. reflexivity.
Qed.

Lemma sigma_image (c x : N) : x = 962 \/ x = 963 -> lower_image c x.
Proof.
  intros Hx. assert (Hl : to_lower x = [x]) by (destruct Hx as [->| ->]; reflexivity).
  assert (Hw : is_whitespace x = false) by (destruct Hx as [->| ->]; reflexivity).
  assert (Hv : valid_char x = true) by (destruct Hx as [->| ->]; reflexivity).
  unfold lower_image. rewrite Hw, Hv. repeat split; auto; try discriminate; lia.
Qed.

Lemma lower_one_image (b a : list N) (c x : N) : In x (lower_one b c a) -> lower_image c x.
Proof.
  unfold lower_one. destruct (c =? 931) eqn:E.
  - intros [<-|[]]. apply sigma_image. destruct (_ && _); auto.
  - intros Hx. nb. destruct (to_lower_image c x Hx) as (H1 & H2 & H3 & H4 & H5).
    unfold lower_image. repeat split; auto.
Qed.

Lemma lower_one_nonempty (b a : list N) (c : N) : lower_one b c a <> [].
Proof. unfold lower_one. destruct (c =? 931); [discriminate|apply to_lower_nonempty]. Qed.

Lemma lower_from_in (b cs : list N) (x : N) :
  In x (lower_from b cs) -> exists c, In c cs /\ lower_image c x.
Proof.
  revert b. induction cs as [|c cs IH]; intros b; [intros []|].
  cbn [lower_from]. intros Hx. apply in_app_or in Hx as [Hx|Hx].
  - exists c. split; [left; reflexivity|]. exact (lower_one_image _ _ _ _ Hx).
  - destruct (IH _ Hx) as (d & Hd & Hi). exists d. split; [right|]; assumption.
Qed.

Lemma lower_from_valid (b cs : list N) :
  Forall (fun c => valid_char c = true) cs -> Forall (fun c => valid_char c = true) (lower_from b cs).
Proof.
  intros H. apply List.Forall_forall. intros x Hx.
  destruct (lower_from_in _ _ _ Hx) as (c & Hc & _ & _ & Hv & _).
  apply Hv. rewrite List.Forall_forall in H. auto.
Qed.

Lemma lower_from_fixed (b ys : list N) :
  Forall (fun x => to_lower x = [x] /\ x <> 931) ys -> lower_from b ys = ys.
Proof.
  intros H. revert b. induction H as [|x ys [Hx1 Hx2] _ IH]; intros b; [reflexivity|].
  cbn [lower_from]. unfold lower_one at 1. rewrite (proj2 (N.eqb_neq _ _) Hx2), Hx1, IH.
  reflexivity.
Qed.

Lemma lower_from_lowered (b cs : list N) :
  Forall (fun x => to_lower x = [x] /\ x <> 931) (lower_from b cs).
Proof.
  apply List.Forall_forall. intros x Hx.
  destruct (lower_from_in _ _ _ Hx) as (c & _ & H1 & H2 & _). auto.
Qed.

Lemma lower_from_nil (b cs : list N) : lower_from b cs = [] -> cs = [].
Proof.
  destruct cs as [|c cs]; [reflexivity|]. cbn [lower_from].
  pose proof (lower_one_nonempty b cs c). destruct (lower_one b c cs); [contradiction|].
  discriminate.
Qed.

Lemma chars_to_lowercase (s : string) : chars (to_lowercase s) = lower_from [] (chars s).
Proof. apply chars_string_of_chars, lower_from_valid, chars_valid. Qed.

Lemma to_lowercase_idem (s : string) : to_lowercase (to_lowercase s) = to_lowercase s.
Proof.
  unfold to_lowercase at 1. rewrite chars_to_lowercase, lower_from_fixed
    by apply lower_from_lowered.
  reflexivity.
Qed.

Lemma to_lowercase_empty (s : string) : to_lowercase s = EmptyString <-> s = EmptyString.
Proof.
  split; [|intros ->; reflexivity].
  unfold to_lowercase. intros H. apply string_of_chars_nil, lower_from_nil, chars_nil in H.
  exact H.
Qed.

(** *** Trimming *)

Lemma trim_chars (s : string) : trim s = string_of_chars (trim_core (chars s)).
Proof. reflexivity. Qed.

Lemma drop_ws_split (cs : list N) :
  exists w, Forall (fun c => is_whitespace c = true) w /\ cs = w ++ drop_ws cs.
Proof.
  induction cs as [|c cs IH]; [exists []; split; [constructor|reflexivity]|]. cbn [drop_ws].
  destruct (is_whitespace c) eqn:Hc; [|exists []; split; [constructor|reflexivity]].
  destruct IH as (w & Hw & Heq). exists (c :: w). split; [constructor; assumption|].
  cbn [app]. rewrite <- Heq. reflexivity.
Qed.

Lemma drop_ws_head (cs : list N) (c : N) (r : list N) :
  drop_ws cs = c :: r -> is_whitespace c = false.
Proof.
  induction cs as [|d cs IH]; [discriminate|]. cbn [drop_ws].
  destruct (is_whitespace d) eqn:Hd; [exact IH|]. intros [= <- _]. exact Hd.
Qed.

Lemma drop_ws_app_ws (w ys : list N) :
  Forall (fun c => is_whitespace c = true) w -> drop_ws (w ++ ys) = drop_ws ys.
Proof. induction 1 as [|c w Hc _ IH]; [reflexivity|]. cbn [app drop_ws]. rewrite Hc. exact IH. Qed.

Lemma drop_ws_keeps (c : N) (r : list N) :
  is_whitespace c = false -> drop_ws (c :: r) = c :: r.
Proof. intros Hc. cbn [drop_ws]. rewrite Hc. reflexivity. Qed.

Lemma trim_core_decomp (cs : list N) :
  exists w1 w2, Forall (fun c => is_whitespace c = true) w1 /\
    Forall (fun c => is_whitespace c = true) w2 /\
    cs = w1 ++ trim_core cs ++ w2 /\ ws_edges (trim_core cs).
Proof.
  unfold trim_core.
  destruct (drop_ws_split cs) as (w1 & Hw1 & E1).
  set (m := drop_ws cs) in *.
  destruct (drop_ws_split (rev m)) as (w2r & Hw2 & E2).
  exists w1, (rev w2r). split; [exact Hw1|]. split; [apply Forall_rev, Hw2|].
  assert (Hm : m = rev (drop_ws (rev m)) ++ rev w2r).
  { rewrite <- rev_app_distr, <- E2, rev_involutive. reflexivity. }
  split; [rewrite E1 at 1; rewrite Hm at 1; reflexivity|].
  split.
  - intros c r Hc. apply (drop_ws_head cs c (r ++ rev w2r)). fold m. rewrite Hm, Hc. reflexivity.
  - intros i d Hd. apply (drop_ws_head (rev m) d (rev i)).
    rewrite <- (rev_involutive (drop_ws (rev m))), Hd, rev_app_distr. reflexivity.
Qed.

Lemma drop_ws_all (w : list N) :
  Forall (fun c => is_whitespace c = true) w -> drop_ws w = [].
Proof. intros H. rewrite <- (app_nil_r w), drop_ws_app_ws by exact H. reflexivity. Qed.

Lemma trim_core_edges (w1 xs w2 : list N) :
  Forall (fun c => is_whitespace c = true) w1 -> Forall (fun c => is_whitespace c = true) w2 ->
  ws_edges xs -> trim_core (w1 ++ xs ++ w2) = xs.
Proof.
  intros Hw1 Hw2 [Hf Hl]. unfold trim_core. rewrite drop_ws_app_ws by exact Hw1.
  destruct xs as [|c r].
  - cbn [app]. rewrite (drop_ws_all w2 Hw2). reflexivity.
  - cbn [app]. rewrite drop_ws_keeps by exact (Hf c r eq_refl).
    rewrite app_comm_cons, rev_app_distr, drop_ws_app_ws by (apply Forall_rev, Hw2).
    destruct (exists_last (l := c :: r) ltac:(discriminate)) as (i & d & Hid).
    pose proof (Hl i d Hid) as Hd. rewrite Hid, rev_app_distr. cbn [rev app].
    rewrite drop_ws_keeps by exact Hd.
    change (d :: rev i) with (rev [d] ++ rev i). rewrite <- rev_app_distr, rev_involutive.
    reflexivity.
Qed.

Lemma drop_ws_sub (cs : list N) (x : N) : In x (drop_ws cs) -> In x cs.
Proof.
  destruct (drop_ws_split cs) as (w & _ & E). intros H. rewrite E. apply in_or_app. auto.
Qed.

Lemma trim_core_sub (cs : list N) (x : N) : In x (trim_core cs) -> In x cs.
Proof.
  unfold trim_core. intros H. apply in_rev, drop_ws_sub, in_rev, drop_ws_sub in H. exact H.
Qed.

Lemma chars_trim (s : string) : chars (trim s) = trim_core (chars s).
Proof.
  apply chars_string_of_chars. apply List.Forall_forall. intros x Hx.
  apply trim_core_sub in Hx. pose proof (chars_valid s) as H.
  rewrite List.Forall_forall in H. auto.
Qed.

Lemma trim_idem (s : string) : trim (trim s) = trim s.
Proof.
  rewrite (trim_chars (trim s)), chars_trim.
  destruct (trim_core_decomp (chars s)) as (w1 & w2 & _ & _ & _ & He).
  rewrite <- (app_nil_r (trim_core (chars s))) at 1.
  change (trim_core (trim_core (chars s) ++ [])) with (trim_core ([] ++ trim_core (chars s) ++ [])).
  rewrite trim_core_edges by (exact He || exact (List.Forall_nil _)). reflexivity.
Qed.

Lemma lower_from_ws_edges (cs : list N) : ws_edges cs -> ws_edges (lower_from [] cs).
Proof.
  intros [Hf Hl]. split.
  - intros x r Hx. destruct cs as [|c cs]; [discriminate|].
    cbn [lower_from] in Hx. pose proof (lower_one_nonempty [] cs c) as Hne.
    destruct (lower_one [] c cs) as [|y ys] eqn:Ey; [contradiction|].
    injection Hx as Hyx _. subst y. destruct (is_whitespace x) eqn:Hw; [|reflexivity].
    assert (Hi : In x (lower_one [] c cs)) by (rewrite Ey; left; reflexivity).
    destruct (lower_one_image _ _ _ _ Hi) as (_ & _ & _ & H4 & _).
    specialize (H4 Hw). rewrite H4, (Hf c cs eq_refl) in Hw. discriminate.
  - intros i x Hx. induction cs as [|c cs _] using rev_ind;
      [exfalso; exact (app_cons_not_nil _ _ _ Hx)|].
    destruct (lower_from_last [] cs c) as [pre Hpre]. rewrite Hpre in Hx.
    pose proof (lower_one_nonempty (rev cs ++ []) [] c) as Hne.
    destruct (exists_last Hne) as (j & y & Hy). rewrite Hy, app_assoc in Hx.
    apply app_inj_tail in Hx as [_ ->].
    assert (Hi : In x (lower_one (rev cs ++ []) c [])) by (rewrite Hy; apply in_or_app; right; left; reflexivity).
    destruct (lower_one_image _ _ _ _ Hi) as (_ & _ & _ & H4 & _).
    destruct (is_whitespace x) eqn:Hw; [|reflexivity].
    specialize (H4 eq_refl). rewrite H4, (Hl cs c eq_refl) in Hw. discriminate.
Qed.

Lemma trim_to_lowercase (s : string) : trim (to_lowercase s) = to_lowercase (trim s).
Proof.
  rewrite trim_chars, chars_to_lowercase. unfold to_lowercase. rewrite chars_trim.
  destruct (trim_core_decomp (chars s)) as (w1 & w2 & Hw1 & Hw2 & Hs & He).
  rewrite Hs at 1. rewrite lower_from_ws_prefix, lower_from_ws_suffix by assumption.
  rewrite trim_core_edges by (assumption || apply lower_from_ws_edges, He).
  reflexivity.
Qed.

Lemma split_on_nonempty (sep : ascii) (l : list ascii) : split_on sep l <> [].
Proof.
  destruct l as [|c l]; simpl; [discriminate|].
  destruct (ascii_dec c sep); [discriminate|]. destruct (split_on sep l); discriminate.
Qed.

Lemma split_on_app (sep : ascii) (a b : list ascii) :
  split_on sep (a ++ sep :: b) = split_on sep a ++ split_on sep b.
Proof.
  induction a as [|c a IH]; simpl.
  - destruct (ascii_dec sep sep); [reflexivity|contradiction].
  - rewrite IH. destruct (ascii_dec c sep); [reflexivity|].
    pose proof (split_on_nonempty sep a) as Hne.
    destruct (split_on sep a) as [|p ps]; [contradiction|reflexivity].
Qed.

Lemma split_on_no_sep (sep : ascii) (l : list ascii) :
  ~ In sep l -> split_on sep l = [l].
Proof.
  induction l as [|c l IH]; intros Hn; [reflexivity|]. simpl.
  destruct (ascii_dec c sep) as [->|Hc]; [destruct Hn; left; reflexivity|].
  rewrite IH by (intros Hin; apply Hn; right; exact Hin). reflexivity.
Qed.

Lemma split_first (a : ascii) (l : list ascii) :
  In a l -> exists p r, l = p ++ a :: r /\ ~ In a p.
Proof.
  induction l as [|c l IH]; [intros []|]. intros Hin.
  destruct (ascii_dec c a) as [->|Hne].
  - exists [], l. split; [reflexivity|intros []].
  - destruct Hin as [->|Hin]; [contradiction|].
    destruct (IH Hin) as (p & r & -> & Hp). exists (c :: p), r. split; [reflexivity|].
    intros [->|H]; [contradiction|exact (Hp H)].
Qed.

Lemma lower_bytes_spec (p : list ascii) :
  lower_bytes p = flat_map utf8_encode (lower_from [] (utf8_decode p)).
Proof.
  unfold lower_bytes, to_lowercase, chars, string_of_chars.
  rewrite !list_ascii_of_string_of_list_ascii. reflexivity.
Qed.

Lemma lower_bytes_comma (p r : list ascii) :
  lower_bytes (p ++ ","%char :: r) = lower_bytes p ++ ","%char :: lower_bytes r.
Proof.
  rewrite !lower_bytes_spec, utf8_decode_app_ascii by (vm_compute; reflexivity).
  rewrite utf8_decode_ascii by (vm_compute; reflexivity).
  change (N_of_ascii ","%char) with 44.
  rewrite lower_from_breaker by exact comma_breaker.
  rewrite flat_map_app. reflexivity.
Qed.

Lemma lower_bytes_no_comma (p : list ascii) :
  ~ In ","%char p -> ~ In ","%char (lower_bytes p).
Proof.
  intros Hp Hin. rewrite lower_bytes_spec in Hin.
  apply in_flat_map in Hin as (x & Hx & Hb).
  pose proof (lower_from_valid [] _ (utf8_decode_valid p)) as Hv.
  rewrite List.Forall_forall in Hv. specialize (Hv x Hx). apply valid_char_spec in Hv.
  apply utf8_encode_small_byte in Hb; [|lia|vm_compute; reflexivity].
  change (N_of_ascii ","%char) with 44 in Hb. subst x.
  destruct (lower_from_in _ _ _ Hx) as (c & Hc & _ & _ & _ & _ & H5).
  specialize (H5 eq_refl). subst c.
  apply utf8_decode_small in Hc; [|lia]. exact (Hp Hc).
Qed.

Lemma split_on_lower (l : list ascii) :
  split_on "," (lower_bytes l) = map lower_bytes (split_on "," l).
Proof.
  induction l as [l IH] using list_len_ind.
  destruct (in_dec ascii_dec ","%char l) as [Hin|Hn].
  - destruct (split_first _ _ Hin) as (p & r & -> & Hp).
    rewrite lower_bytes_comma, !split_on_app.
    rewrite (split_on_no_sep _ p Hp), (split_on_no_sep _ _ (lower_bytes_no_comma p Hp)).
    rewrite IH by (rewrite length_app; simpl; lia). reflexivity.
  - rewrite (split_on_no_sep _ l Hn), (split_on_no_sep _ _ (lower_bytes_no_comma l Hn)).
    reflexivity.
Qed.


Lemma allow_piece_lower (p : list ascii) : allow_piece (lower_bytes p) = allow_piece p.
Proof.
  unfold allow_piece, lower_bytes. cbv zeta. rewrite string_of_list_ascii_of_string.
  rewrite trim_to_lowercase.
  destruct (String.eqb (trim (string_of_list_ascii p)) EmptyString) eqn:E.
  - apply String.eqb_eq in E. rewrite E. reflexivity.
  - destruct (String.eqb (to_lowercase (trim (string_of_list_ascii p))) EmptyString) eqn:E'.
    + apply String.eqb_eq in E'. rewrite to_lowercase_empty in E'. rewrite E' in E. discriminate.
    + rewrite to_lowercase_idem. reflexivity.
Qed.

Lemma parse_allowlist_pieces (csv : string) :
  parse_allowlist csv
  = list_to_set (omap allow_piece (split_on "," (list_ascii_of_string csv))).
Proof. reflexivity. Qed.

Lemma parse_allowlist_lower (csv : string) :
  parse_allowlist (to_lowercase csv) = parse_allowlist csv.
Proof.
  rewrite !parse_allowlist_pieces.
  rewrite <- (string_of_list_ascii_of_string csv) at 1.
  fold (lower_bytes (list_ascii_of_string csv)). rewrite split_on_lower.
  f_equal. induction (split_on "," (list_ascii_of_string csv)) as [|p ps IH]; [reflexivity|].
  simpl. rewrite allow_piece_lower. destruct (allow_piece p); [f_equal|]; exact IH.
Qed.

Lemma split_on_pieces (sep : ascii) (l : list ascii) (p : list ascii) (c : ascii) :
  In p (split_on sep l) -> In c p -> In c l /\ c <> sep.
Proof.
  revert p. induction l as [|d l IH]; intros p Hp Hc.
  - simpl in Hp. destruct Hp as [<-|[]]. destruct Hc.
  - simpl in Hp. destruct (ascii_dec d sep) as [Heq|Hne].
    + destruct Hp as [<-|Hp]; [destruct Hc|].
      destruct (IH p Hp Hc). split; [right|]; assumption.
    + destruct (split_on sep l) as [|q qs] eqn:Hs.
      * destruct Hp as [<-|[]]. destruct Hc as [<-|[]]. split; [left|]; auto.
      * destruct Hp as [<-|Hp].
        -- destruct Hc as [<-|Hc]; [split; [left|]; auto|].
           destruct (IH q (or_introl eq_refl) Hc). split; [right|]; assumption.
        -- destruct (IH p (or_intror Hp) Hc). split; [right|]; assumption.
Qed.

Lemma comma_ascii : N_of_ascii ","%char < 128.
Proof. vm_compute. reflexivity. Qed.

(** A comma byte decodes to U+002C and U+002C comes only from a comma byte. *)
Lemma comma_iff (l : list ascii) : In ","%char l <-> In 44 (utf8_decode l).
Proof.
  split.
  - intros Hin. destruct (split_first _ _ Hin) as (p & r & -> & _).
    rewrite utf8_decode_app_ascii, utf8_decode_ascii by exact comma_ascii.
    apply in_or_app. right. left. reflexivity.
  - intros Hin. apply (utf8_decode_small _ _ Hin). lia.
Qed.

Lemma split_on_chars (l p : list ascii) (x : N) :
  In p (split_on "," l) -> In x (utf8_decode p) -> In x (utf8_decode l).
Proof.
  revert p. induction l as [l IH] using list_len_ind. intros p Hp Hx.
  destruct (in_dec ascii_dec ","%char l) as [Hin|Hn].
  - destruct (split_first _ _ Hin) as (q & r & -> & Hq).
    rewrite split_on_app, (split_on_no_sep _ q Hq) in Hp.
    rewrite utf8_decode_app_ascii, utf8_decode_ascii by exact comma_ascii.
    apply in_or_app. destruct Hp as [<-|Hp]; [left; exact Hx|right; right].
    apply (IH r) with p; auto. rewrite length_app. simpl. lia.
  - rewrite (split_on_no_sep _ l Hn) in Hp. destruct Hp as [<-|[]]. exact Hx.
Qed.

Lemma parse_allowlist_blank (csv : string) :
  Forall (fun c => c = 44 \/ is_whitespace c = true) (chars csv) -> parse_allowlist csv = ∅.
Proof.
  intros Hall. rewrite parse_allowlist_pieces.
  assert (Hpieces : forall p, In p (split_on "," (list_ascii_of_string csv)) ->
                    allow_piece p = None).
  { intros p Hp. unfold allow_piece, trim, chars. cbv zeta.
    rewrite list_ascii_of_string_of_list_ascii, (drop_ws_all (utf8_decode p)); [reflexivity|].
    apply List.Forall_forall. intros x Hx.
    rewrite List.Forall_forall in Hall.
    destruct (Hall x (split_on_chars _ _ _ Hp Hx)) as [->|Hw]; [|exact Hw].
    exfalso. apply comma_iff in Hx. exact (proj2 (split_on_pieces _ _ _ _ Hp Hx) eq_refl). }
  induction (split_on "," (list_ascii_of_string csv)) as [|p ps IH]; [reflexivity|].
  simpl. rewrite (Hpieces p (or_introl eq_refl)). apply IH.
  intros q Hq. apply Hpieces. right. exact Hq.
Qed.

Lemma to_lowercase_ascii (l : list ascii) :
  Forall (fun b => N_of_ascii b < 128 /\ to_lower (N_of_ascii b) = [N_of_ascii b]) l ->
  to_lowercase (string_of_list_ascii l) = string_of_list_ascii l.
Proof.
  intros H. assert (Ha : Forall (fun b => N_of_ascii b < 128) l)
    by (eapply List.Forall_impl; [|exact H]; intros b [Hb _]; exact Hb).
  unfold to_lowercase, chars. rewrite list_ascii_of_string_of_list_ascii.
  rewrite utf8_decode_ascii_all by exact Ha.
  rewrite lower_from_fixed by (apply List.Forall_map; eapply List.Forall_impl; [|exact H];
    intros b [Hb1 Hb2]; split; [exact Hb2|lia]).
  apply string_of_chars_ascii, Ha.
Qed.

Lemma trim_ascii (l : list ascii) :
  Forall (fun b => N_of_ascii b < 128 /\ is_whitespace (N_of_ascii b) = false) l ->
  trim (string_of_list_ascii l) = string_of_list_ascii l.
Proof.
  intros H. assert (Ha : Forall (fun b => N_of_ascii b < 128) l)
    by (eapply List.Forall_impl; [|exact H]; intros b [Hb _]; exact Hb).
  assert (Hw : Forall (fun x => is_whitespace x = false) (map N_of_ascii l))
    by (apply List.Forall_map; eapply List.Forall_impl; [|exact H]; intros b [_ Hb]; exact Hb).
  rewrite trim_chars. unfold chars. rewrite list_ascii_of_string_of_list_ascii.
  rewrite utf8_decode_ascii_all by exact Ha.
  rewrite <- (app_nil_r (map N_of_ascii l)) at 1.
  change (trim_core (map N_of_ascii l ++ [])) with (trim_core ([] ++ map N_of_ascii l ++ [])).
  rewrite List.Forall_forall in Hw.
  rewrite trim_core_edges; [apply string_of_chars_ascii, Ha|constructor|constructor|].
  split.
  - intros c r Hc. apply Hw. rewrite Hc. left. reflexivity.
  - intros i d Hd. apply Hw. rewrite Hd. apply in_or_app. right. left. reflexivity.
Qed.

(** The bytes of a trimmed ASCII string are ASCII. *)
Lemma trim_ascii_bytes (s : string) :
  Forall (fun b => N_of_ascii b < 128) (list_ascii_of_string s) ->
  Forall (fun b => N_of_ascii b < 128) (list_ascii_of_string (trim s)).
Proof.
  intros H. rewrite trim_chars. unfold chars, string_of_chars.
  rewrite list_ascii_of_string_of_list_ascii, utf8_decode_ascii_all by exact H.
  apply List.Forall_forall. intros b Hb. apply in_flat_map in Hb as (x & Hx & Hb).
  apply trim_core_sub, in_map_iff in Hx as (b' & <- & Hb').
  rewrite List.Forall_forall in H. specialize (H b' Hb').
  rewrite utf8_encode_ascii in Hb by exact H. destruct Hb as [<-|[]]. exact H.
Qed.

(** *** Hex fingerprints *)

Lemma byte_div16_lt (b : Byte.byte) : Byte.to_N b / 16 < 16.
Proof. pose proof (Byte.to_N_bounded b). apply N.Div0.div_lt_upper_bound; lia. Qed.

Lemma byte_mod16_lt (b : Byte.byte) : Byte.to_N b mod 16 < 16.
Proof. apply N.mod_lt. lia. Qed.

Lemma hex_digit_facts (n : N) : n < 16 ->
  N_of_ascii (hex_digit n) < 128 /\
  to_lower (N_of_ascii (hex_digit n)) = [N_of_ascii (hex_digit n)] /\
  is_whitespace (N_of_ascii (hex_digit n)) = false.
Proof.
  intros Hn. rewrite <- (N2Nat.id n) in *. remember (N.to_nat n) as k eqn:Hk. clear Hk.
  do 16 (destruct k as [|k]; [vm_compute; repeat split; reflexivity|]). lia.
Qed.

Lemma hex_string_chars (data : list Byte.byte) (c : ascii) :
  In c (list_ascii_of_string (hex_string data)) -> exists n, n < 16 /\ c = hex_digit n.
Proof.
  induction data as [|b bs IH]; simpl; [intros []|].
  intros [<-|[<-|Hin]]; [eexists; split; [apply byte_div16_lt|reflexivity]
                        |eexists; split; [apply byte_mod16_lt|reflexivity]|auto].
Qed.

Lemma hex_string_bytes (data : list Byte.byte) :
  Forall (fun b => N_of_ascii b < 128 /\ to_lower (N_of_ascii b) = [N_of_ascii b] /\
                   is_whitespace (N_of_ascii b) = false)
    (list_ascii_of_string (hex_string data)).
Proof.
  apply List.Forall_forall. intros c Hc.
  destruct (hex_string_chars data c Hc) as (n & Hn & ->). apply hex_digit_facts, Hn.
Qed.

Lemma hex_string_lower (data : list Byte.byte) :
  to_lowercase (hex_string data) = hex_string data.
Proof.
  rewrite <- (string_of_list_ascii_of_string (hex_string data)).
  apply to_lowercase_ascii. eapply List.Forall_impl; [|apply hex_string_bytes].
  intros b (H1 & H2 & _). split; assumption.
Qed.

Lemma trim_hex_string (data : list Byte.byte) : trim (hex_string data) = hex_string data.
Proof.
  rewrite <- (string_of_list_ascii_of_string (hex_string data)).
  apply trim_ascii. eapply List.Forall_impl; [|apply hex_string_bytes].
  intros b (H1 & _ & H3). split; assumption.
Qed.

(** *** Pinning *)

Lemma parse_allowlist_entries_lower (csv s : string) :
  s ∈ parse_allowlist csv -> to_lowercase s = s.
Proof.
  rewrite parse_allowlist_pieces, elem_of_list_to_set, list_elem_of_omap.
  intros (p & _ & Hp). unfold allow_piece in Hp. cbv zeta in Hp.
  destruct (String.eqb _ _); [discriminate|]. injection Hp as <-.
  apply to_lowercase_idem.
Qed.

Lemma peer_fingerprint_lower `{Sha256} (cert : option (list Byte.byte)) :
  to_lowercase (peer_fingerprint cert) = peer_fingerprint cert.
Proof. destruct cert; [apply hex_string_lower|reflexivity]. Qed.

(** A concrete CSV of commas and whitespace. *)
Ltac blank_chars :=
  apply List.Forall_forall; intros x Hx; vm_compute in Hx;
  repeat destruct Hx as [<-|Hx]; try contradiction;
  vm_compute; first [left; reflexivity|right; reflexivity].

(** C9: pinning is off exactly for an empty expectation (client: empty
    expected string; server: empty parsed allowlist, which a CSV whose
    characters are commas and [char::is_whitespace] characters gives), and
    every comparison ignores case in the sense of [str::to_lowercase]: the
    client and the allowlist lowercase what they store, the client
    lowercases the peer fingerprint, and the computed fingerprint is
    lowercase hex. *)
Theorem C9_pinning_disabled_iff_empty_case_insensitive `{Sha256} :
  (forall peer_fp, client_mismatch (to_lowercase EmptyString) peer_fp = false) /\
  (forall expected peer_fp, expected <> EmptyString ->
     to_lowercase peer_fp <> to_lowercase expected ->
     client_mismatch (to_lowercase expected) peer_fp = true) /\
  (forall csv peer_fp, parse_allowlist csv = ∅ ->
     server_rejects (parse_allowlist csv) peer_fp = false) /\
  (forall csv, Forall (fun c => c = 44 \/ is_whitespace c = true) (chars csv) ->
     parse_allowlist csv = ∅) /\
  (forall allow peer_fp, allow <> ∅ -> peer_fp ∉ allow ->
     server_rejects allow peer_fp = true) /\
  (forall e1 e2 peer_fp, to_lowercase e1 = to_lowercase e2 ->
     client_mismatch (to_lowercase e1) peer_fp
     = client_mismatch (to_lowercase e2) peer_fp) /\
  (forall expected peer_fp,
     client_mismatch expected (to_lowercase peer_fp) = client_mismatch expected peer_fp) /\
  (forall csv1 csv2 peer_fp, to_lowercase csv1 = to_lowercase csv2 ->
     server_rejects (parse_allowlist csv1) peer_fp
     = server_rejects (parse_allowlist csv2) peer_fp) /\
  (forall csv s, s ∈ parse_allowlist csv -> to_lowercase s = s) /\
  (forall cert, to_lowercase (peer_fingerprint cert) = peer_fingerprint cert).
Proof.
  split; [intros; reflexivity|].
  split.
  { intros e fp He Hne. unfold client_mismatch.
    destruct (String.eqb (to_lowercase e) EmptyString) eqn:E1.
    - apply String.eqb_eq in E1. rewrite to_lowercase_empty in E1.
      exfalso. exact (He E1).
    - destruct (String.eqb (to_lowercase fp) (to_lowercase e)) eqn:E2.
      + apply String.eqb_eq in E2. contradiction.
      + reflexivity. }
  split.
  { intros csv fp Hempty. unfold server_rejects. rewrite Hempty.
    rewrite bool_decide_eq_true_2 by reflexivity. reflexivity. }
  split; [exact parse_allowlist_blank|].
  split.
  { intros allow fp Hne Hnin. unfold server_rejects.
    rewrite bool_decide_eq_false_2 by exact Hne.
    rewrite bool_decide_eq_false_2 by exact Hnin. reflexivity. }
  split; [intros e1 e2 fp ->; reflexivity|].
  split; [intros e fp; unfold client_mismatch; rewrite to_lowercase_idem; reflexivity|].
  split.
  { intros c1 c2 fp Hl. rewrite <- (parse_allowlist_lower c1), <- (parse_allowlist_lower c2), Hl.
    reflexivity. }
  split; [exact parse_allowlist_entries_lower|].
  exact peer_fingerprint_lower.
Qed.

Lemma C9_witness :
  client_mismatch (to_lowercase "AB") "00" = true /\
  server_rejects (parse_allowlist " , ,") "00" = false /\
  server_rejects (parse_allowlist "AA") "00" = true /\
  parse_allowlist ", ,," = ∅ /\
  parse_allowlist (string_of_chars [160; 44; 12288; 8239]) = ∅.
Proof.
  destruct (@C9_pinning_disabled_iff_empty_case_insensitive toy_sha256)
    as (_ & Hc & Hs & Hb & Hr & _).
  split; [apply Hc; discriminate|].
  split; [apply Hs, Hb; blank_chars|].
  split; [apply Hr; [vm_compute; discriminate|vm_compute; set_solver]|].
  split; apply Hb; blank_chars.
Defined.

(** ** Server loop exits *)

Lemma finish_iteration_continues {Conn : Type} `{QuicEngine Conn} `{Sha256}
    (handle_id : N) (allow : gset string) (conns : gmap cid Conn) (ann : gset cid) :
  snd (finish_iteration handle_id allow conns ann) <> None.
Proof.
  unfold finish_iteration.
  destruct (server_pass _ _ _ _ _) as [[[evs conns'] ann'] tc]. discriminate.
Qed.

(** C10 (as amended): an iteration of the server loop breaks out of the
    loop exactly when [recv_from] fails with an error other than
    [WouldBlock]; nothing else, in particular no state of the connection
    map, ends the loop. *)
Theorem C10_server_loop_breaks_only_on_recv_error
    {Conn : Type} `{QuicEngine Conn} `{Sha256}
    (handle_id : N) (local_addr : sockaddr) (allow : gset string)
    (st : ServerState Conn) (i : ServerInput) :
  snd (server_step handle_id local_addr allow st i) = None
  <-> exists err, si_recv i = RecvError err.
Proof.
  unfold server_step. destruct (si_recv i) as [data from| |err].
  - split; [|intros [? ?]; discriminate].
    destruct (header_from_slice data) as [hdr|]; [|discriminate].
    destruct (_ !! hdr_dcid hdr) as [c|].
    + intros Hn. exfalso. revert Hn. apply finish_iteration_continues.
    + destruct (quic_accept _ _ _ _) as [c|e]; [|discriminate].
      intros Hn. exfalso. revert Hn. apply finish_iteration_continues.
  - split; [|intros [? ?]; discriminate].
    intros Hn. exfalso. revert Hn. apply finish_iteration_continues.
  - split; [intros _; exists err; reflexivity|reflexivity].
Qed.

(** C10 as stated fails: a receive error ends the server loop. *)
Lemma C10_counterexample :
  snd (server_step (Conn := ToyConn) 1 0 ∅ server_init
         {| si_cmds := []; si_recv := RecvError "Connection reset by peer";
            si_fresh := [Byte.x07] |}) = None.
Proof. reflexivity. Qed.

(** ** The accept path *)

(** C5: when the destination id of a datagram is unknown and the accept
    succeeds, the new connection is inserted under the fresh random id
    only, the following lookup by the datagram's destination id finds
    nothing, and the iteration goes on with the new connection as accepted,
    the datagram never fed to it. *)
Theorem C5_accept_keys_by_fresh_id_only
    {Conn : Type} `{QuicEngine Conn} `{Sha256}
    (handle_id : N) (local_addr : sockaddr) (allow : gset string)
    (st : ServerState Conn) (i : ServerInput) (data : list Byte.byte)
    (from : sockaddr) (hdr : Header) (c : Conn) :
  si_recv i = RecvData data from ->
  header_from_slice data = Some hdr ->
  fold_left server_command (si_cmds i) (sv_conns st) !! hdr_dcid hdr = None ->
  quic_accept (si_fresh i) (hdr_scid hdr) local_addr from = Ok c ->
  si_fresh i <> hdr_dcid hdr ->
  (<[si_fresh i := c]> (fold_left server_command (si_cmds i) (sv_conns st)))
    !! hdr_dcid hdr = None /\
  server_step handle_id local_addr allow st i
  = finish_iteration handle_id allow
      (<[si_fresh i := c]> (fold_left server_command (si_cmds i) (sv_conns st)))
      (sv_announced st).
Proof.
  intros Hrecv Hhdr Hunknown Hacc Hne.
  assert (Hlook : (<[si_fresh i := c]> (fold_left server_command (si_cmds i) (sv_conns st)))
                    !! hdr_dcid hdr = None).
  { rewrite lookup_insert_ne by exact Hne. exact Hunknown. }
  split; [exact Hlook|].
  unfold server_step. rewrite Hrecv, Hhdr, Hunknown, Hacc. cbv zeta.
  rewrite Hlook. reflexivity.
Qed.

Lemma C5_witness :
  let i := {| si_cmds := []; si_recv := RecvData [Byte.x09; Byte.x02] 5;
              si_fresh := [Byte.x07] |} in
  (<[si_fresh i := toy_new]> (fold_left server_command (si_cmds i)
                                 (sv_conns (server_init (Conn := ToyConn)))))
    !! [Byte.x09] = None /\
  server_step 1 0 ∅ server_init i
  = finish_iteration 1 ∅ (<[[Byte.x07] := toy_new]> ∅) ∅.
Proof.
  intros i.
  exact (C5_accept_keys_by_fresh_id_only 1 0 ∅ server_init i [Byte.x09; Byte.x02] 5
           {| hdr_dcid := [Byte.x09]; hdr_scid := [Byte.x02] |} toy_new
           eq_refl eq_refl eq_refl eq_refl ltac:(discriminate)).
Defined.

(** ** Commands for unknown connections *)







(** ** Handle registry *)

(** C6 (as amended): [cc_quic_conn_send] on a handle that is not in the
    registry (removed, never allocated, or registry not yet created)
    returns a non-[Ok] status and changes nothing; [cc_quic_conn_close] on
    such a handle changes nothing and returns [Ok] once the registry
    exists ([Internal] before); removal of an entry is idempotent and
    leaves the handle absent. *)
Theorem C6_unknown_handle_dispatch_and_idempotent_removal `{TextCodec} :
  (forall g handle conn_id data,
     match g_connections g with None => True | Some m => m !! handle = None end ->
     fst (cc_quic_conn_send g handle conn_id data) <> CcQuicStatus.code CcQuicStatus.Ok /\
     snd (cc_quic_conn_send g handle conn_id data) = g) /\
  (forall g handle,
     match g_connections g with None => True | Some m => m !! handle = None end ->
     cc_quic_conn_close g handle =
       (match g_connections g with
        | None => CcQuicStatus.code CcQuicStatus.Internal
        | Some _ => CcQuicStatus.code CcQuicStatus.Ok
        end, g)) /\
  (forall g handle, remove_handle (remove_handle g handle) handle = remove_handle g handle) /\
  (forall g handle,
     match g_connections (remove_handle g handle) with
     | None => True | Some m => m !! handle = None end).
Proof.
  split.
  { intros g handle conn_id data Habs. unfold cc_quic_conn_send.
    destruct data as [[|b bs]|]; [split; [discriminate|reflexivity]| |split; [discriminate|reflexivity]].
    destruct conn_id as [[|c cs]|]; [split; [discriminate|reflexivity]| |split; [discriminate|reflexivity]].
    destruct (from_utf8 _) as [s|]; [|split; [discriminate|reflexivity]].
    destruct (hex_decode _) as [cid0|]; [|split; [discriminate|reflexivity]].
    destruct (g_connections g) as [m|]; [|split; [discriminate|reflexivity]].
    rewrite Habs. split; [discriminate|reflexivity]. }
  split.
  { intros g handle Habs. unfold cc_quic_conn_close.
    destruct (g_connections g) as [m|]; [|reflexivity].
    rewrite Habs. reflexivity. }
  split.
  { intros [next [m|] spawned] handle; unfold remove_handle; simpl; [|reflexivity].
    rewrite delete_delete_eq. reflexivity. }
  intros [next [m|] spawned] handle; simpl; [|exact I].
  apply lookup_delete_eq.
Qed.

Lemma C6_witness :
  fst (cc_quic_conn_send {| g_next_handle := 2; g_connections := Some ∅; g_spawned := [1] |}
         1 (Some [Byte.x30; Byte.x31]) (Some [Byte.x41]))
    <> CcQuicStatus.code CcQuicStatus.Ok /\
  cc_quic_conn_close {| g_next_handle := 2; g_connections := Some ∅; g_spawned := [1] |} 1
  = (CcQuicStatus.code CcQuicStatus.Ok,
     {| g_next_handle := 2; g_connections := Some ∅; g_spawned := [1] |}).
Proof.
  destruct C6_unknown_handle_dispatch_and_idempotent_removal as (Hsend & Hclose & _).
  split.
  - apply Hsend. reflexivity.
  - apply (Hclose {| g_next_handle := 2; g_connections := Some ∅; g_spawned := [1] |} 1).
    reflexivity.
Defined.

(** C6 as stated fails: closing a handle whose entry was removed (its
    worker has exited) reports success. *)
Lemma C6_counterexample :
  let g := {| g_next_handle := 1; g_connections := None; g_spawned := [] |} in
  let '(st1, g1, out) :=
    cc_quic_client_connect (toy_env true) g true (Some []) 443 (Some []) (Some [])
      (Some []) (Some []) true in
  out = Some 1 /\
  fst (cc_quic_conn_close (remove_handle g1 1) 1) = CcQuicStatus.code CcQuicStatus.Ok.
Proof. vm_compute. split; reflexivity. Qed.

(** ** Session creation *)

Ltac split_setup :=
  repeat (match goal with
          | |- context [if ?b then _ else _] => destruct b eqn:?
          | |- context [match ?x with Ok _ => _ | Err _ => _ end] => destruct x eqn:?
          | |- context [match ?x with Some _ => _ | None => _ end] => destruct x eqn:?
          | |- context [match ?x with (_, _) => _ end] => destruct x eqn:?
          end; cbn -[CcQuicStatus.code register_session]);
  repeat match goal with u : unit |- _ => destruct u end.


Lemma register_session_handle (g : Globals) (h : N) (g' : Globals) :
  register_session g = (h, g') -> h = g_next_handle g /\ g' = snd (register_session g).
Proof. intros Hr. rewrite Hr. unfold register_session in Hr. injection Hr as <- _. auto. Qed.

Lemma cstr_err `{TextCodec} (p : option (list Byte.byte)) (e : CcQuicStatus.t) :
  cstr_to_string p = Err e -> CcQuicStatus.code e <> CcQuicStatus.code CcQuicStatus.Ok.
Proof.
  unfold cstr_to_string. destruct p as [raw|]; [destruct (from_utf8 raw)|];
    intros Heq; inversion Heq; subst; discriminate.
Qed.

Ltac close_setup :=
  split; intros Hst;
  [ first [ exfalso; apply Hst; reflexivity | split; reflexivity ]
  | first [ discriminate Hst
          | exfalso; match goal with
                     | Hc : cstr_to_string _ = Err _ |- _ => exact (cstr_err _ _ Hc Hst)
                     end
          | match goal with
            | Hr : register_session _ = (_, _) |- _ =>
                destruct (register_session_handle _ _ _ Hr) as [-> ->];
                split; [reflexivity|split; [reflexivity|]]
            end ] ].

Ltac split_null_checks :=
  repeat match goal with
         | Hb : (_ || _) = false |- _ => apply orb_false_iff in Hb as [? ?]
         | Hb : negb _ = false |- _ => apply negb_false_iff in Hb
         end.

Lemma client_connect_outcome `{TextCodec} (env : SetupEnv) (g : Globals)
    (config_nonnull : bool) (host : option (list Byte.byte)) (port : N)
    (server_name expected cert key : option (list Byte.byte)) (out_nonnull : bool) :
  setup_outcome g
    (cc_quic_client_connect env g config_nonnull host port server_name expected
       cert key out_nonnull)
    (config_nonnull = true /\ out_nonnull = true /\
     (exists sn, cstr_to_string server_name = Ok sn) /\
     (exists fp, cstr_to_string expected = Ok fp) /\
     (exists cert_path, cstr_to_string cert = Ok cert_path /\
                        os_load_cert_chain env cert_path = Ok tt) /\
     (exists key_path, cstr_to_string key = Ok key_path /\
                       os_load_priv_key env key_path = Ok tt) /\
     (exists h peer, cstr_to_string host = Ok h /\ os_parse_addr env h port = Some peer) /\
     os_bind env None = Ok tt).
Proof.
  unfold setup_outcome, cc_quic_client_connect. split_setup; close_setup.
  all: split_null_checks; repeat split; eauto 6.
Qed.

Lemma server_start_outcome `{TextCodec} (env : SetupEnv) (g : Globals)
    (config_nonnull : bool) (bind_addr : option (list Byte.byte)) (port : N)
    (cert key csv : option (list Byte.byte)) (out_nonnull : bool) :
  setup_outcome g
    (cc_quic_server_start env g config_nonnull bind_addr port cert key csv out_nonnull)
    (config_nonnull = true /\ out_nonnull = true /\
     (exists c, cstr_to_string csv = Ok c) /\
     (exists cert_path, cstr_to_string cert = Ok cert_path /\
                        os_load_cert_chain env cert_path = Ok tt) /\
     (exists key_path, cstr_to_string key = Ok key_path /\
                       os_load_priv_key env key_path = Ok tt) /\
     (exists h local, cstr_to_string bind_addr = Ok h /\
                      os_parse_addr env h port = Some local /\
                      os_bind env (Some local) = Ok tt)).
Proof.
  unfold setup_outcome, cc_quic_server_start. split_setup; close_setup.
  all: split_null_checks; repeat split; eauto 6.
Qed.

Lemma client_connect_reliable `{TextCodec} (env : SetupEnv) (g : Globals)
    (config_nonnull : bool) (host : option (list Byte.byte)) (port : N)
    (server_name expected cert key : option (list Byte.byte)) (out_nonnull : bool) :
  cc_quic_client_connect env g config_nonnull host port server_name expected
    cert key out_nonnull =
  cc_quic_client_connect (env_reliable env) g config_nonnull host port server_name
    expected cert key out_nonnull.
Proof.
  unfold cc_quic_client_connect; cbn [env_reliable os_load_cert_chain os_load_priv_key
    os_parse_addr os_bind os_connect os_set_nonblocking].
  repeat match goal with
         | |- context [if ?b then _ else _] => destruct b
         | |- context [match ?x with Ok _ => _ | Err _ => _ end] => destruct x
         | |- context [match ?x with Some _ => _ | None => _ end] => destruct x
         end; reflexivity.
Qed.

Lemma server_start_reliable `{TextCodec} (env : SetupEnv) (g : Globals)
    (config_nonnull : bool) (bind_addr : option (list Byte.byte)) (port : N)
    (cert key csv : option (list Byte.byte)) (out_nonnull : bool) :
  cc_quic_server_start env g config_nonnull bind_addr port cert key csv out_nonnull =
  cc_quic_server_start (env_reliable env) g config_nonnull bind_addr port cert key csv
    out_nonnull.
Proof.
  unfold cc_quic_server_start; cbn [env_reliable os_load_cert_chain os_load_priv_key
    os_parse_addr os_bind os_connect os_set_nonblocking].
  repeat match goal with
         | |- context [if ?b then _ else _] => destruct b
         | |- context [match ?x with Ok _ => _ | Err _ => _ end] => destruct x
         | |- context [match ?x with Some _ => _ | None => _ end] => destruct x
         end; reflexivity.
Qed.

(** C7 (corrected).  For [cc_quic_client_connect] and [cc_quic_server_start]:
    a non-[Ok] status leaves the globals (handle counter, registry and
    spawned workers) unchanged and writes no handle; an [Ok] status implies
    that [config] and [out_handle] are non-null, that every configuration
    string ([host] or [bind_addr], [server_name],
    [expected_server_fingerprint_hex] or [trusted_fingerprints_csv], and the
    two PEM paths) is non-null and valid UTF-8, that the certificate chain
    and the private key loaded, the address parsed and the bind succeeded.
    So a null pointer, an invalid string or any of these failures gives a
    non-[Ok] status with nothing allocated.  A failing
    [connect] (client) or [set_nonblocking] (both) is not a setup failure:
    the result is the same as with an environment where both succeed. *)
Theorem C7_setup_failures_abort_except_connect_and_nonblocking `{TextCodec} :
  (forall env g config_nonnull host port server_name expected cert key out_nonnull,
     setup_outcome g
       (cc_quic_client_connect env g config_nonnull host port server_name expected
          cert key out_nonnull)
       (config_nonnull = true /\ out_nonnull = true /\
        (exists sn, cstr_to_string server_name = Ok sn) /\
        (exists fp, cstr_to_string expected = Ok fp) /\
        (exists cert_path, cstr_to_string cert = Ok cert_path /\
                           os_load_cert_chain env cert_path = Ok tt) /\
        (exists key_path, cstr_to_string key = Ok key_path /\
                          os_load_priv_key env key_path = Ok tt) /\
        (exists h peer, cstr_to_string host = Ok h /\ os_parse_addr env h port = Some peer) /\
        os_bind env None = Ok tt) /\
     cc_quic_client_connect env g config_nonnull host port server_name expected
       cert key out_nonnull =
     cc_quic_client_connect (env_reliable env) g config_nonnull host port server_name
       expected cert key out_nonnull) /\
  (forall env g config_nonnull bind_addr port cert key csv out_nonnull,
     setup_outcome g
       (cc_quic_server_start env g config_nonnull bind_addr port cert key csv out_nonnull)
       (config_nonnull = true /\ out_nonnull = true /\
        (exists c, cstr_to_string csv = Ok c) /\
        (exists cert_path, cstr_to_string cert = Ok cert_path /\
                           os_load_cert_chain env cert_path = Ok tt) /\
        (exists key_path, cstr_to_string key = Ok key_path /\
                          os_load_priv_key env key_path = Ok tt) /\
        (exists h local, cstr_to_string bind_addr = Ok h /\
                         os_parse_addr env h port = Some local /\
                         os_bind env (Some local) = Ok tt)) /\
     cc_quic_server_start env g config_nonnull bind_addr port cert key csv out_nonnull =
     cc_quic_server_start (env_reliable env) g config_nonnull bind_addr port cert key csv
       out_nonnull).
Proof.
  split; intros; split.
  - apply client_connect_outcome.
  - apply client_connect_reliable.
  - apply server_start_outcome.
  - apply server_start_reliable.
Qed.

Lemma C7_witness :
  cc_quic_client_connect (toy_env false)
    {| g_next_handle := 1; g_connections := None; g_spawned := [] |}
    true (Some []) 443 (Some []) (Some []) (Some []) (Some []) true =
  cc_quic_client_connect (env_reliable (toy_env false))
    {| g_next_handle := 1; g_connections := None; g_spawned := [] |}
    true (Some []) 443 (Some []) (Some []) (Some []) (Some []) true /\
  fst (fst (cc_quic_server_start (toy_env true)
    {| g_next_handle := 1; g_connections := None; g_spawned := [] |}
    true (Some []) 443 (Some []) (Some []) None true))
  <> CcQuicStatus.code CcQuicStatus.Ok.
Proof.
  destruct (C7_setup_failures_abort_except_connect_and_nonblocking)
    as [Hc Hs].
  split; [apply Hc|].
  intros Hok.
  destruct (Hs (toy_env true)
              {| g_next_handle := 1; g_connections := None; g_spawned := [] |}
              true (Some []) 443 (Some []) (Some []) None true) as [[_ Hsucc] _].
  destruct (Hsucc Hok) as (_ & _ & _ & _ & [c Hc'] & _).
  discriminate Hc'.
Defined.

(** C7 counterexample: the client's [connect] fails (and the server's
    [set_nonblocking] fails), yet both calls return [Ok], allocate handle 1
    and spawn a worker. *)
Lemma C7_counterexample :
  os_connect (toy_env false) 443 = Err "Connection refused" /\
  cc_quic_client_connect (toy_env false)
    {| g_next_handle := 1; g_connections := None; g_spawned := [] |}
    true (Some []) 443 (Some []) (Some []) (Some []) (Some []) true =
  (CcQuicStatus.code CcQuicStatus.Ok,
   {| g_next_handle := 2;
      g_connections := Some {[1 := {| ch_queue := []; ch_open := true |}]};
      g_spawned := [1] |}, Some 1) /\
  fst (fst (cc_quic_server_start
    {| os_load_cert_chain _ := Ok tt; os_load_priv_key _ := Ok tt;
       os_parse_addr _ port := Some port; os_bind _ := Ok tt;
       os_connect _ := Ok tt; os_set_nonblocking := Err "EINVAL" |}
    {| g_next_handle := 1; g_connections := None; g_spawned := [] |}
    true (Some []) 443 (Some []) (Some []) (Some []) true))
  = CcQuicStatus.code CcQuicStatus.Ok.
Proof. vm_compute. repeat split; reflexivity. Qed.

(** ** Per-connection event order *)

(** *** The monitor *)

Lemma mon_run_app (strict : bool) (id : string) (m : Mon) (a b : list QuicEvent) :
  mon_run strict id m (a ++ b) =
  match mon_run strict id m a with
  | Some m' => mon_run strict id m' b
  | None => None
  end.
Proof.
  revert m; induction a as [|e a IH]; intros m; [reflexivity|].
  simpl. destruct (mon_step strict id m e); [apply IH|reflexivity].
Qed.

Lemma mon_run_silent (strict : bool) (id : string) (m : Mon) (tr : list QuicEvent) :
  Forall (fun e => mentions id e = false) tr -> mon_run strict id m tr = Some m.
Proof.
  induction 1 as [|e tr He _ IH]; [reflexivity|].
  simpl. unfold mon_step. rewrite He. exact IH.
Qed.

Lemma mentions_of_connected (id : string) (e : QuicEvent) :
  is_connected_for id e = true -> mentions id e = true.
Proof. destruct e; simpl; unfold mentions; simpl; congruence. Qed.

Lemma mentions_of_msg_or_closed (id : string) (e : QuicEvent) :
  is_msg_or_closed_for id e = true -> mentions id e = true.
Proof. destruct e; simpl; unfold mentions; simpl; congruence. Qed.

Lemma mentions_of_closed (id : string) (e : QuicEvent) :
  is_closed_for id e = true -> mentions id e = true.
Proof. destruct e; simpl; unfold mentions; simpl; congruence. Qed.

Lemma mon_step_bound (strict : bool) (id : string) (m m' : Mon) (e : QuicEvent) :
  mon_step strict id m e = Some m' ->
  ((if is_connected_for id e then S (mon_bound m') else mon_bound m') <= mon_bound m)%nat.
Proof.
  unfold mon_step. destruct (mentions id e) eqn:Hm.
  - destruct m, e; simpl; try destruct strict; intros Heq; inversion Heq; subst;
      unfold mentions in Hm; simpl in Hm; try rewrite Hm; simpl; lia.
  - intros Heq; inversion Heq; subst.
    destruct (is_connected_for id e) eqn:Hc; [|lia].
    rewrite (mentions_of_connected _ _ Hc) in Hm. discriminate.
Qed.

Lemma mon_run_connected_count (strict : bool) (id : string) (m m' : Mon)
    (tr : list QuicEvent) :
  mon_run strict id m tr = Some m' ->
  (List.length (filter (fun e => is_connected_for id e) tr) <= mon_bound m)%nat.
Proof.
  revert m; induction tr as [|e tr IH]; intros m Hrun; [simpl; lia|].
  simpl in Hrun. destruct (mon_step strict id m e) as [m1|] eqn:Hs; [|discriminate].
  pose proof (mon_step_bound _ _ _ _ _ Hs) as Hb. specialize (IH _ Hrun).
  rewrite filter_cons. destruct (is_connected_for id e); simpl in *; lia.
Qed.

Lemma mon_step_connected (id : string) (m m' : Mon) (e : QuicEvent) :
  is_connected_for id e = true -> mon_step true id m e = Some m' -> m = MPre.
Proof.
  intros Hc. unfold mon_step. rewrite (mentions_of_connected _ _ Hc).
  destruct m, e; simpl in Hc; try discriminate; auto.
Qed.

Lemma mon_step_stays_pre (id : string) (m : Mon) (e : QuicEvent) :
  mon_step true id m e = Some MPre -> m = MPre /\ is_msg_or_closed_for id e = false.
Proof.
  unfold mon_step. destruct (mentions id e) eqn:Hm.
  - destruct m, e; simpl; intros Heq; inversion Heq; auto.
  - intros Heq; inversion Heq; subst. split; [reflexivity|].
    destruct (is_msg_or_closed_for id e) eqn:Hc; [|reflexivity].
    rewrite (mentions_of_msg_or_closed _ _ Hc) in Hm. discriminate.
Qed.

Lemma mon_run_before_connected (id : string) (m : Mon) (pre : list QuicEvent)
    (e : QuicEvent) (post : list QuicEvent) (m' : Mon) :
  mon_run true id m (pre ++ e :: post) = Some m' -> is_connected_for id e = true ->
  m = MPre /\ Forall (fun e' => is_msg_or_closed_for id e' = false) pre.
Proof.
  intros Hrun Hc. revert m Hrun; induction pre as [|e0 pre IH]; intros m Hrun.
  - simpl in Hrun. destruct (mon_step true id m e) eqn:Hs; [|discriminate].
    split; [exact (mon_step_connected _ _ _ _ Hc Hs) | constructor].
  - simpl in Hrun. destruct (mon_step true id m e0) as [m1|] eqn:Hs; [|discriminate].
    destruct (IH _ Hrun) as [-> Hpre].
    destruct (mon_step_stays_pre _ _ _ Hs) as [-> Hmc].
    split; [reflexivity | constructor; assumption].
Qed.

Lemma mon_run_accepts_order (id : string) (tr : list QuicEvent) (m' : Mon) :
  mon_run true id MPre tr = Some m' -> connected_once_and_first id tr.
Proof.
  intros Hrun. split.
  - exact (mon_run_connected_count _ _ _ _ _ Hrun).
  - intros pre e post -> Hc. exact (proj2 (mon_run_before_connected _ _ _ _ _ _ Hrun Hc)).
Qed.

Lemma mon_run_done (strict : bool) (id : string) (tr : list QuicEvent) (m' : Mon) :
  mon_run strict id MDone tr = Some m' -> Forall (fun e => mentions id e = false) tr.
Proof.
  induction tr as [|e tr IH]; intros Hrun; [constructor|].
  simpl in Hrun. unfold mon_step at 1 in Hrun.
  destruct (mentions id e) eqn:Hm; [discriminate|]. constructor; auto.
Qed.

Lemma mon_run_accepts_silence (strict : bool) (id : string) (m : Mon)
    (tr : list QuicEvent) (m' : Mon) :
  mon_run strict id m tr = Some m' -> silent_after_closed id tr.
Proof.
  intros Hrun pre e post -> Hc. revert m Hrun; induction pre as [|e0 pre IH]; intros m Hrun.
  - simpl in Hrun. unfold mon_step at 1 in Hrun.
    rewrite (mentions_of_closed _ _ Hc) in Hrun.
    destruct m, e; simpl in Hc; try discriminate; eapply mon_run_done; exact Hrun.
  - simpl in Hrun. destruct (mon_step strict id m e0) as [m1|]; [|discriminate].
    exact (IH _ Hrun).
Qed.

(** *** Connection ids in hex *)

Lemma hex_digit_code (n : N) : n < 16 ->
  N_of_ascii (hex_digit n) = if n <? 10 then 48 + n else 87 + n.
Proof.
  intros Hn. unfold hex_digit. apply N_ascii_embedding.
  destruct (n <? 10); lia.
Qed.

Lemma hex_digit_inj (n m : N) : n < 16 -> m < 16 -> hex_digit n = hex_digit m -> n = m.
Proof.
  intros Hn Hm Heq. apply (f_equal N_of_ascii) in Heq.
  rewrite (hex_digit_code _ Hn), (hex_digit_code _ Hm) in Heq.
  destruct (n <? 10) eqn:E1, (m <? 10) eqn:E2;
    rewrite ?N.ltb_lt, ?N.ltb_ge in E1, E2; lia.
Qed.

Lemma byte_to_N_inj (a b : Byte.byte) : Byte.to_N a = Byte.to_N b -> a = b.
Proof.
  intros Heq. pose proof (Byte.of_to_N a) as Ha. pose proof (Byte.of_to_N b) as Hb.
  rewrite Heq in Ha. congruence.
Qed.

Lemma hex_string_inj (x y : list Byte.byte) : hex_string x = hex_string y -> x = y.
Proof.
  revert y; induction x as [|a x IH]; intros [|b y]; simpl; try discriminate; [auto|].
  intros Heq. injection Heq as Hhi Hlo Hrest.
  apply hex_digit_inj in Hhi; [|apply byte_div16_lt..].
  apply hex_digit_inj in Hlo; [|apply byte_mod16_lt..].
  f_equal; [|exact (IH _ Hrest)].
  apply byte_to_N_inj.
  rewrite (N.div_mod (Byte.to_N a) 16), (N.div_mod (Byte.to_N b) 16) by lia.
  congruence.
Qed.

(** *** The drain of readable streams *)

Section Drain.
Context {Conn : Type} `{QuicEngine Conn}.

Lemma drain_readable_nil (mk : list Byte.byte -> QuicEvent) (c : Conn) :
  conn_readable c = [] -> drain_readable mk c = ([], c).
Proof. intros Hr. unfold drain_readable. rewrite Hr. reflexivity. Qed.

Lemma drain_fold_msgs (mk : list Byte.byte -> QuicEvent) (l : list N)
    (evs : list QuicEvent) (c : Conn) :
  Forall (fun e => exists d, e = mk d) evs ->
  Forall (fun e => exists d, e = mk d)
    (fst (fold_left
       (fun acc stream_id =>
          let '(evs, c0) := acc in
          let '(reads, c1) := conn_stream_reads c0 stream_id in
          (evs ++ map mk reads, c1)) l (evs, c))).
Proof.
  revert evs c; induction l as [|s l IH]; intros evs c Hevs; [exact Hevs|].
  simpl. destruct (conn_stream_reads c s) as [reads c1]. apply IH.
  apply Forall_app; split; [exact Hevs|].
  apply Forall_forall. intros e He. apply list_elem_of_fmap in He as (d & -> & _).
  eauto.
Qed.

Lemma drain_readable_msgs (mk : list Byte.byte -> QuicEvent) (c : Conn) :
  Forall (fun e => exists d, e = mk d) (fst (drain_readable mk c)).
Proof. apply drain_fold_msgs. constructor. Qed.

End Drain.

Lemma mon_run_messages (strict : bool) (id : string) (m : Mon) (h : N) (x : string)
    (tr : list QuicEvent) :
  Forall (fun e => exists d, e = Message h x d) tr ->
  m = MConn \/ (m = MPre /\ strict = false) \/ tr = [] ->
  mon_run strict id m tr = Some m.
Proof.
  intros Hall Hm. destruct tr as [|e0 tr0]; [reflexivity|].
  assert (Hm' : m = MConn \/ (m = MPre /\ strict = false)) by (destruct Hm as [|[|]]; auto; discriminate).
  clear Hm. induction Hall as [|e tr [d ->] _ IH]; [reflexivity|].
  simpl. unfold mon_step at 1. destruct (mentions id (Message h x d)); [|exact IH].
  destruct Hm' as [-> | [-> ->]]; exact IH.
Qed.

Lemma mon_step_mention (strict : bool) (id : string) (m : Mon) (e : QuicEvent) :
  mentions id e = true ->
  mon_step strict id m e =
  match m, e with
  | MPre, Connected _ _ _ => Some MConn
  | MPre, Message _ _ _ => if strict then None else Some MPre
  | MPre, Closed _ _ _ => Some MDone
  | MPre, Error _ _ _ => Some MPre
  | MConn, Connected _ _ _ => None
  | MConn, Closed _ _ _ => Some MDone
  | MConn, _ => Some MConn
  | MDone, _ => None
  end.
Proof. intros Hm. unfold mon_step. rewrite Hm. reflexivity. Qed.

Lemma mentions_self_connected (h : N) (x p : string) : mentions x (Connected h x p) = true.
Proof. unfold mentions; simpl. apply String.eqb_refl. Qed.

Lemma mentions_self_closed (h : N) (x : string) (r : option string) :
  mentions x (Closed h x r) = true.
Proof. unfold mentions; simpl. apply String.eqb_refl. Qed.

Lemma mentions_self_error (h : N) (x : string) (msg : string) :
  mentions x (Error h (Some x) msg) = true.
Proof. unfold mentions; simpl. apply String.eqb_refl. Qed.

(** An [Error] for the id leaves the monitor where it was, unless closed. *)
Lemma mon_run_error (strict : bool) (x : string) (m : Mon) (h : N) (msg : string) :
  m <> MDone -> mon_run strict x m [Error h (Some x) msg] = Some m.
Proof.
  intros Hm. simpl. rewrite mon_step_mention by apply mentions_self_error.
  destruct m; [reflexivity|reflexivity|congruence].
Qed.

(** The monitor through messages then a [Closed], from a state where the
    messages are allowed. *)
Lemma mon_run_tail (strict : bool) (x : string) (m : Mon) (h : N)
    (msgs : list QuicEvent) (r : option string) :
  Forall (fun e => exists d, e = Message h x d) msgs ->
  m = MConn \/ (m = MPre /\ (strict = false \/ msgs = [])) ->
  mon_run strict x m (msgs ++ [Closed h x r]) = Some MDone /\
  mon_run strict x m msgs = Some m.
Proof.
  intros Hmsgs Hm.
  assert (Hrun : mon_run strict x m msgs = Some m).
  { apply (mon_run_messages strict x m h x msgs Hmsgs).
    destruct Hm as [-> | [-> [-> | ->]]]; auto. }
  rewrite mon_run_app, Hrun. split; [|reflexivity].
  simpl. rewrite mon_step_mention by apply mentions_self_closed.
  destruct Hm as [-> | [-> _]]; reflexivity.
Qed.

(** *** The workers *)

Ltac split_worker :=
  repeat match goal with
    | |- context [drain_readable ?mk ?c] =>
        let Hm := fresh "Hmsgs" in
        let Hd := fresh "Hdrain" in
        pose proof (drain_readable_msgs mk c) as Hm;
        destruct (drain_readable mk c) as [? ?] eqn:Hd; cbn [fst] in Hm
    | |- context [if ?b then _ else _] => destruct b eqn:?
    end.

Section ClientTrace.
Context {Conn : Type} `{QuicEngine Conn} `{Sha256}.
Variable handle_id : N.
Variable scid : cid.
Variable expected_fp : string.
Variable local_addr : sockaddr.

Lemma client_step_ids (st : ClientState Conn) (i : ClientInput) :
  Forall (fun e => ev_conn_id e = Some (client_conn_id_hex scid))
    (fst (client_step handle_id scid expected_fp local_addr st i)).
Proof.
  unfold client_step.
  destruct (conn_send _) as [sr c1]. destruct sr as [out to| |err];
    [| |repeat constructor].
  all: destruct (ci_recv i) as [data from| |err]; cbn [fst]; try constructor.
  all: split_worker; cbn [fst];
       repeat (apply Forall_app; split);
       try (eapply Forall_impl; [eassumption|]; intros ? [? ->]; reflexivity);
       repeat constructor.
Qed.

Variable strict : bool.
Hypothesis quiet_before_handshake :
  strict = true -> forall c : Conn, conn_is_established c = false -> conn_readable c = [].


Lemma client_msgs_allowed (ann : bool) (m : Mon) (c c4 : Conn)
    (mk : list Byte.byte -> QuicEvent) (msgs : list QuicEvent) :
  client_inv ann m -> conn_is_established c && negb ann = false ->
  drain_readable mk c = (msgs, c4) ->
  m = MConn \/ (m = MPre /\ (strict = false \/ msgs = [])).
Proof.
  intros [[-> ->] | [-> ->]] Hest Hd; [|auto].
  rewrite andb_true_r in Hest. right; split; [reflexivity|].
  destruct strict eqn:Hs; [|auto]. right.
  rewrite (drain_readable_nil mk c (quiet_before_handshake eq_refl c Hest)) in Hd.
  congruence.
Qed.

Lemma client_step_mon (st : ClientState Conn) (i : ClientInput) (m : Mon) :
  client_inv (cl_announced st) m ->
  exists m', mon_run strict (client_conn_id_hex scid) m
               (fst (client_step handle_id scid expected_fp local_addr st i)) = Some m' /\
    forall st', snd (client_step handle_id scid expected_fp local_addr st i) = Some st' ->
      client_inv (cl_announced st') m'.
Proof.
  intros Hinv. unfold client_step.
  assert (Hnd : m <> MDone) by (destruct Hinv as [[-> _]|[-> _]]; discriminate).
  destruct (conn_send _) as [sr c1]. destruct sr as [out to| |err];
    [| | exists m; split; [apply mon_run_error; exact Hnd | discriminate]].
  all: destruct (ci_recv i) as [data from| |err]; cbn [fst snd];
    [| | exists m; split; [reflexivity | discriminate]].
  all: split_worker; cbn [fst snd].
  all: try (eassert (Hm2 : Forall (fun e => exists d, e = Message _ _ d) _)
              by (eapply Forall_impl; [exact Hmsgs|]; intros ? [? ->]; eauto);
            clear Hmsgs; rename Hm2 into Hmsgs).
  all: first
    [ exists m; split; [apply mon_run_error; exact Hnd | discriminate]
    | match goal with
      | Hb : _ && negb (cl_announced _) = true |- _ =>
          apply andb_prop in Hb as [_ Hb]; apply negb_true_iff in Hb;
          destruct Hinv as [[-> _] | [_ Hc]]; [| congruence];
          rewrite mon_run_app; cbn [mon_run];
          rewrite mon_step_mention by apply mentions_self_connected;
          first
            [ exists MDone; split; [|discriminate];
              apply (proj1 (mon_run_tail _ _ _ _ _ _ Hmsgs (or_introl eq_refl)))
            | exists MConn; split;
              [ apply (proj2 (mon_run_tail _ _ _ _ _ None Hmsgs (or_introl eq_refl)))
              | intros st' Hs; injection Hs as <-; right; auto ] ]
      | Hb : _ && negb (cl_announced _) = false, Hd : drain_readable _ _ = _ |- _ =>
          pose proof (client_msgs_allowed _ _ _ _ _ _ Hinv Hb Hd) as Hok;
          rewrite app_nil_l;
          first
            [ exists MDone; split; [|discriminate];
              apply (proj1 (mon_run_tail _ _ _ _ _ _ Hmsgs Hok))
            | exists m; split;
              [ apply (proj2 (mon_run_tail _ _ _ _ _ None Hmsgs Hok))
              | intros st' Hs; injection Hs as <-; exact Hinv ] ]
      end ].
Qed.

Lemma client_loop_mon (st : ClientState Conn) (ins : list ClientInput) (m : Mon) :
  client_inv (cl_announced st) m ->
  exists m', mon_run strict (client_conn_id_hex scid) m
               (client_loop handle_id scid expected_fp local_addr st ins) = Some m'.
Proof.
  revert st m; induction ins as [|i ins IH]; intros st m Hinv; [exists m; reflexivity|].
  destruct (client_step_mon st i m Hinv) as (m1 & Hrun & Hnext).
  simpl. destruct (client_step handle_id scid expected_fp local_addr st i) as [evs next].
  cbn [fst snd] in *. rewrite mon_run_app, Hrun.
  destruct next as [st'|]; [exact (IH st' m1 (Hnext st' eq_refl))|exists m1; reflexivity].
Qed.

Lemma client_loop_ids (st : ClientState Conn) (ins : list ClientInput) :
  Forall (fun e => ev_conn_id e = Some (client_conn_id_hex scid))
    (client_loop handle_id scid expected_fp local_addr st ins).
Proof.
  revert st; induction ins as [|i ins IH]; intros st; [constructor|].
  pose proof (client_step_ids st i) as Hids.
  simpl. destruct (client_step handle_id scid expected_fp local_addr st i) as [evs next].
  apply Forall_app; split; [exact Hids|]. destruct next; [apply IH|constructor].
Qed.

End ClientTrace.

Section ServerTrace.
Context {Conn : Type} `{QuicEngine Conn} `{Sha256}.
Variable strict : bool.
Hypothesis quiet_before_handshake :
  strict = true -> forall c : Conn, conn_is_established c = false -> conn_readable c = [].
Variable handle_id : N.
Variable local_addr : sockaddr.
Variable trusted_allowlist : gset string.

Lemma process_conn_ids (id : cid) (c : Conn) (b : bool) :
  Forall (fun e => ev_conn_id e = Some (hex_string id))
    (co_events (process_conn handle_id trusted_allowlist id c b)).
Proof.
  unfold process_conn.
  destruct (conn_send c) as [sr c1]. destruct sr as [out to| |err];
    [| |repeat constructor].
  all: split_worker; cbn [co_events];
       repeat (apply Forall_app; split);
       try (eapply Forall_impl; [eassumption|]; intros ? [? ->]; reflexivity);
       repeat constructor.
Qed.

Lemma process_conn_mon (y : cid) (c : Conn) (b : bool) (m : Mon) :
  (m = MPre /\ b = false) \/ (m = MConn /\ b = true) ->
  exists m',
    mon_run strict (hex_string y) m
      (co_events (process_conn handle_id trusted_allowlist y c b)) = Some m' /\
    (co_close (process_conn handle_id trusted_allowlist y c b) = false ->
     (m' = MPre /\ b = false /\
      co_announce (process_conn handle_id trusted_allowlist y c b) = false) \/
     (m' = MConn /\
      (b = true \/ co_announce (process_conn handle_id trusted_allowlist y c b) = true))).
Proof.
  intros Hm.
  assert (Hnd : m <> MDone) by (destruct Hm as [[-> _]|[-> _]]; discriminate).
  unfold process_conn.
  destruct (conn_send c) as [sr c1]. destruct sr as [out to| |err];
    [| | exists m; split; [apply mon_run_error; exact Hnd | discriminate]].
  all: split_worker; cbn [co_events co_close co_announce].
  all: try (eassert (Hm2 : Forall (fun e => exists d, e = Message _ _ d) _)
              by (eapply Forall_impl; [exact Hmsgs|]; intros ? [? ->]; eauto);
            clear Hmsgs; rename Hm2 into Hmsgs).
  all: first
    [ exists m; split; [reflexivity | discriminate]
    | match goal with
      | Hb : _ && negb ?bb = true |- _ =>
          apply andb_prop in Hb as [_ Hb]; apply negb_true_iff in Hb; subst bb;
          destruct Hm as [[-> _] | [_ Hc]]; [| discriminate];
          rewrite mon_run_app; cbn [mon_run];
          rewrite mon_step_mention by apply mentions_self_connected;
          first
            [ exists MDone; split; [|discriminate];
              apply (proj1 (mon_run_tail _ _ _ _ _ _ Hmsgs (or_introl eq_refl)))
            | exists MConn; split;
              [ apply (proj2 (mon_run_tail _ _ _ _ _ None Hmsgs (or_introl eq_refl)))
              | intros _; right; auto ] ]
      | Hb : _ && negb ?bb = false, Hd : drain_readable _ _ = _ |- _ =>
          assert (Hok : m = MConn \/ (m = MPre /\ (strict = false \/ l = [])));
          [ destruct Hm as [[-> ->] | [-> ->]]; [|auto];
            rewrite andb_true_r in Hb; right; split; [reflexivity|];
            destruct strict eqn:Hs; [|auto]; right;
            rewrite (drain_readable_nil _ _ (quiet_before_handshake eq_refl _ Hb)) in Hd;
            congruence
          | ];
          rewrite app_nil_l;
          first
            [ exists MDone; split; [|discriminate];
              apply (proj1 (mon_run_tail _ _ _ _ _ _ Hmsgs Hok))
            | exists m; split;
              [ apply (proj2 (mon_run_tail _ _ _ _ _ None Hmsgs Hok))
              | intros _; destruct Hm as [[-> ->] | [-> ->]]; auto ] ]
      end ].
Qed.

Lemma process_conn_silent_for (y z : cid) (c : Conn) (b : bool) :
  z <> y ->
  Forall (fun e => mentions (hex_string y) e = false)
    (co_events (process_conn handle_id trusted_allowlist z c b)).
Proof.
  intros Hzy. eapply Forall_impl; [apply process_conn_ids|].
  intros e He. unfold mentions. rewrite He. apply String.eqb_neq.
  intros Heq. apply Hzy, hex_string_inj, Heq.
Qed.

Lemma server_pass_other (y : cid) (conns : gmap cid Conn) (ann : gset cid)
    (l : list (cid * Conn)) :
  y ∉ l.*1 ->
  let '(evs, conns', ann', to_close) :=
    server_pass handle_id trusted_allowlist conns ann l in
  Forall (fun e => mentions (hex_string y) e = false) evs /\
  conns' !! y = conns !! y /\ (y ∈ ann' <-> y ∈ ann) /\ y ∉ to_close.
Proof.
  revert conns ann; induction l as [|[z c] l IH]; intros conns ann Hy.
  - simpl. split_and!; [constructor|reflexivity|reflexivity|apply not_elem_of_nil].
  - cbn [fmap list_fmap fst] in Hy. apply not_elem_of_cons in Hy as [Hzy Hy].
    simpl.
    set (o := process_conn handle_id trusted_allowlist z c (bool_decide (z ∈ ann))).
    specialize (IH (<[z:=co_conn o]> conns)
                   (if co_announce o then {[z]} ∪ ann else ann) Hy).
    destruct (server_pass _ _ _ _ l) as [[[evs conns'] ann'] tc].
    destruct IH as (Hevs & Hc & Ha & Htc). split_and!.
    + apply Forall_app; split; [apply process_conn_silent_for; congruence|exact Hevs].
    + rewrite Hc. apply lookup_insert_ne. congruence.
    + rewrite Ha. destruct (co_announce o); [|reflexivity]. set_solver.
    + destruct (co_close o); [|exact Htc]. apply not_elem_of_cons; auto.
Qed.

Lemma server_pass_self (y : cid) (c : Conn) (conns : gmap cid Conn) (ann : gset cid)
    (l : list (cid * Conn)) :
  NoDup l.*1 -> (y, c) ∈ l ->
  let o := process_conn handle_id trusted_allowlist y c (bool_decide (y ∈ ann)) in
  let '(evs, conns', ann', to_close) :=
    server_pass handle_id trusted_allowlist conns ann l in
  (forall m, mon_run strict (hex_string y) m evs =
             mon_run strict (hex_string y) m (co_events o)) /\
  conns' !! y = Some (co_conn o) /\
  (y ∈ ann' <-> y ∈ ann \/ co_announce o = true) /\
  (y ∈ to_close <-> co_close o = true).
Proof.
  revert conns ann; induction l as [|[z c'] l IH]; intros conns ann Hnd Hin;
    [apply not_elem_of_nil in Hin; contradiction|].
  cbn [fmap list_fmap fst] in Hnd. apply NoDup_cons in Hnd as [Hz Hnd].
  cbv zeta. simpl.
  remember (process_conn handle_id trusted_allowlist z c' (bool_decide (z ∈ ann)))
    as o eqn:Ho.
  destruct (decide (z = y)) as [<- | Hzy].
  - assert (c' = c) as <-.
    { apply elem_of_cons in Hin as [Heq | Hin]; [congruence|].
      exfalso. apply Hz. apply list_elem_of_fmap. exists (z, c). auto. }
    rewrite <- Ho.
    pose proof (server_pass_other z (<[z:=co_conn o]> conns)
                  (if co_announce o then {[z]} ∪ ann else ann) l Hz) as Hother.
    destruct (server_pass _ _ _ _ l) as [[[evs conns'] ann'] tc].
    destruct Hother as (Hevs & Hc & Ha & Htc). split_and!.
    + intros m. rewrite mon_run_app.
      destruct (mon_run strict (hex_string z) m (co_events o)); [|reflexivity].
      apply mon_run_silent, Hevs.
    + rewrite Hc. apply lookup_insert_eq.
    + rewrite Ha. destruct (co_announce o); set_solver.
    + destruct (co_close o); split; try reflexivity; intros Hx.
      * apply elem_of_cons; auto.
      * contradiction.
      * discriminate.
  - assert (Hin' : (y, c) ∈ l) by (apply elem_of_cons in Hin as [Heq | Hin]; [congruence | exact Hin]).
    specialize (IH (<[z:=co_conn o]> conns)
                   (if co_announce o then {[z]} ∪ ann else ann) Hnd Hin').
    assert (Hsame : bool_decide (y ∈ (if co_announce o then {[z]} ∪ ann else ann))
                    = bool_decide (y ∈ ann)).
    { apply bool_decide_ext. destruct (co_announce o); set_solver. }
    cbv zeta in IH. rewrite Hsame in IH.
    destruct (server_pass _ _ _ _ l) as [[[evs conns'] ann'] tc].
    destruct IH as (Hevs & Hc & Ha & Htc). split_and!.
    + intros m. rewrite mon_run_app, mon_run_silent
        by (rewrite Ho; apply process_conn_silent_for; exact Hzy).
      apply Hevs.
    + exact Hc.
    + rewrite Ha. destruct (co_announce o); set_solver.
    + destruct (co_close o); [|exact Htc].
      rewrite elem_of_cons, Htc. split; [intros [?|?]; [congruence|auto] | auto].
Qed.


Lemma lookup_foldr_delete_in (conns : gmap cid Conn) (l : list cid) (y : cid) :
  y ∈ l -> foldr delete conns l !! y = None.
Proof.
  induction l as [|z l IH]; intros Hy; [apply not_elem_of_nil in Hy; contradiction|].
  simpl. destruct (decide (z = y)) as [-> | Hzy]; [apply lookup_delete_eq|].
  rewrite lookup_delete_ne by exact Hzy. apply IH.
  apply elem_of_cons in Hy as [|]; [congruence|assumption].
Qed.

Lemma lookup_foldr_delete_notin (conns : gmap cid Conn) (l : list cid) (y : cid) :
  y ∉ l -> foldr delete conns l !! y = conns !! y.
Proof.
  induction l as [|z l IH]; intros Hy; [reflexivity|].
  apply not_elem_of_cons in Hy as [Hzy Hy].
  simpl. rewrite lookup_delete_ne by congruence. apply IH, Hy.
Qed.

Lemma finish_iteration_mon (y : cid) (conns : gmap cid Conn) (ann : gset cid) (m : Mon)
    (fut : list cid) :
  y_inv y conns ann m fut ->
  exists m',
    mon_run strict (hex_string y) m
      (fst (finish_iteration handle_id trusted_allowlist conns ann)) = Some m' /\
    forall st', snd (finish_iteration handle_id trusted_allowlist conns ann) = Some st' ->
      y_inv y (sv_conns st') (sv_announced st') m' fut.
Proof.
  unfold y_inv, finish_iteration. intros Hinv.
  destruct (conns !! y) as [c|] eqn:Hy.
  - destruct Hinv as [Hfut Hm].
    pose proof (server_pass_self y c conns ann (map_to_list conns)
                  (NoDup_fst_map_to_list conns)
                  (proj2 (elem_of_map_to_list conns y c) Hy)) as Hself.
    cbv zeta in Hself.
    destruct (server_pass _ _ _ _ _) as [[[evs conns'] ann'] tc].
    destruct Hself as (Hevs & Hc & Ha & Htc).
    set (b := bool_decide (y ∈ ann)) in *.
    assert (Hmb : (m = MPre /\ b = false) \/ (m = MConn /\ b = true)).
    { unfold b. destruct Hm as [[-> Hn] | [-> Hn]];
        [left; split; [reflexivity|apply bool_decide_eq_false_2, Hn]
        |right; split; [reflexivity|apply bool_decide_eq_true_2, Hn]]. }
    destruct (process_conn_mon y c b m Hmb) as (m' & Hrun & Hkeep).
    exists m'. split; [cbn [fst]; rewrite Hevs; exact Hrun|].
    intros st' Hst. injection Hst as <-. cbn [sv_conns sv_announced].
    destruct (co_close (process_conn handle_id trusted_allowlist y c b)) eqn:Hcl.
    + rewrite lookup_foldr_delete_in by (apply Htc; reflexivity).
      split; [|right; exact Hfut].
      rewrite elem_of_difference, elem_of_list_to_set. intros [_ Hn]. apply Hn, Htc.
      reflexivity.
    + assert (Hnot : y ∉ tc) by (rewrite Htc; discriminate).
      rewrite lookup_foldr_delete_notin, Hc by exact Hnot.
      split; [exact Hfut|].
      rewrite elem_of_difference, elem_of_list_to_set.
      destruct (Hkeep eq_refl) as [(-> & Hb & Hna) | (-> & Hbn)].
      * left. split; [reflexivity|]. intros [Hin _]. apply Ha in Hin as [Hin|Hin].
        -- unfold b in Hb. apply bool_decide_eq_false_1 in Hb. contradiction.
        -- congruence.
      * right. split; [reflexivity|split; [|exact Hnot]]. apply Ha.
        destruct Hbn as [Hbn|Hbn]; [left; unfold b in Hbn; apply bool_decide_eq_true_1 in Hbn; exact Hbn|right; exact Hbn].
  - destruct Hinv as [Hna Hm].
    assert (Hnot : y ∉ (map_to_list conns).*1).
    { intros Hin. apply list_elem_of_fmap in Hin as ([y' c] & Heq & Hin).
      simpl in Heq. subst y'. apply elem_of_map_to_list in Hin. congruence. }
    pose proof (server_pass_other y conns ann (map_to_list conns) Hnot) as Hother.
    destruct (server_pass _ _ _ _ _) as [[[evs conns'] ann'] tc].
    destruct Hother as (Hevs & Hc & Ha & Htc).
    exists m. split; [apply mon_run_silent, Hevs|].
    intros st' Hst. injection Hst as <-. cbn [sv_conns sv_announced].
    rewrite lookup_foldr_delete_notin, Hc, Hy by exact Htc.
    split; [|exact Hm].
    rewrite elem_of_difference. intros [Hin _]. apply Ha in Hin. contradiction.
Qed.

Lemma server_command_dom (conns : gmap cid Conn) (cmd : WorkerCommand) (y : cid) :
  is_Some (server_command conns cmd !! y) <-> is_Some (conns !! y).
Proof.
  destruct cmd as [k payload | [k|]]; simpl.
  - destruct (conns !! k) as [c|] eqn:Ek; [|reflexivity].
    destruct (conn_is_established c); [|reflexivity].
    destruct (decide (k = y)) as [-> | Hky].
    + rewrite lookup_insert_eq, Ek. split; eauto.
    + rewrite lookup_insert_ne by exact Hky. reflexivity.
  - destruct (conns !! k) as [c|] eqn:Ek; [|reflexivity].
    destruct (decide (k = y)) as [-> | Hky].
    + rewrite lookup_insert_eq, Ek. split; eauto.
    + rewrite lookup_insert_ne by exact Hky. reflexivity.
  - rewrite lookup_fmap. apply fmap_is_Some.
Qed.

Lemma server_commands_dom (cmds : list WorkerCommand) (conns : gmap cid Conn) (y : cid) :
  is_Some (fold_left server_command cmds conns !! y) <-> is_Some (conns !! y).
Proof.
  revert conns; induction cmds as [|cmd cmds IH]; intros conns; [reflexivity|].
  simpl. rewrite IH. apply server_command_dom.
Qed.

Lemma y_inv_dom (y : cid) (c1 c2 : gmap cid Conn) (ann : gset cid) (m : Mon)
    (fut : list cid) :
  (is_Some (c2 !! y) <-> is_Some (c1 !! y)) -> y_inv y c1 ann m fut -> y_inv y c2 ann m fut.
Proof.
  unfold y_inv. intros Hdom.
  destruct (c1 !! y) eqn:E1, (c2 !! y) eqn:E2; auto.
  - exfalso. destruct (proj2 Hdom (ltac:(eauto))) as [? ?]. discriminate.
  - exfalso. destruct (proj1 Hdom (ltac:(eauto))) as [? ?]. discriminate.
Qed.

Lemma y_inv_tail (y f : cid) (conns : gmap cid Conn) (ann : gset cid) (m : Mon)
    (fut : list cid) :
  y_inv y conns ann m (f :: fut) -> y_inv y conns ann m fut.
Proof.
  unfold y_inv. destruct (conns !! y).
  - intros [Hf Hm]. split; [|exact Hm]. intros Hin. apply Hf. apply elem_of_cons; auto.
  - intros [Ha [Hm|Hf]]; split; [exact Ha|left; exact Hm|exact Ha|].
    right. intros Hin. apply Hf. apply elem_of_cons; auto.
Qed.

Lemma y_inv_accept (y f : cid) (c : Conn) (conns : gmap cid Conn) (ann : gset cid)
    (m : Mon) (fut : list cid) :
  NoDup (f :: fut) -> y_inv y conns ann m (f :: fut) ->
  y_inv y (<[f:=c]> conns) ann m fut.
Proof.
  intros Hnd Hinv. apply NoDup_cons in Hnd as [Hf _].
  destruct (decide (f = y)) as [<- | Hfy].
  - unfold y_inv in *. rewrite lookup_insert_eq.
    destruct (conns !! f).
    + exfalso. apply (proj1 Hinv). apply elem_of_cons; auto.
    + destruct Hinv as [Ha [Hm|Hf']]; [split; [exact Hf|left; auto]|].
      exfalso. apply Hf'. apply elem_of_cons; auto.
  - apply y_inv_tail with f. unfold y_inv in *. rewrite lookup_insert_ne by exact Hfy.
    exact Hinv.
Qed.

Lemma recv_insert_dom (conns : gmap cid Conn) (k y : cid) (g : Conn -> Conn) :
  is_Some ((match conns !! k with
            | Some connection => <[k := g connection]> conns
            | None => conns
            end) !! y) <-> is_Some (conns !! y).
Proof.
  destruct (conns !! k) as [c|] eqn:Ek; [|reflexivity].
  destruct (decide (k = y)) as [-> | Hky].
  - rewrite lookup_insert_eq, Ek. split; eauto.
  - rewrite lookup_insert_ne by exact Hky. reflexivity.
Qed.

Lemma server_step_mon (y : cid) (st : ServerState Conn) (i : ServerInput) (m : Mon)
    (fut : list cid) :
  NoDup (si_fresh i :: fut) ->
  y_inv y (sv_conns st) (sv_announced st) m (si_fresh i :: fut) ->
  exists m',
    mon_run strict (hex_string y) m
      (fst (server_step handle_id local_addr trusted_allowlist st i)) = Some m' /\
    forall st', snd (server_step handle_id local_addr trusted_allowlist st i) = Some st' ->
      y_inv y (sv_conns st') (sv_announced st') m' fut.
Proof.
  intros Hnd Hinv. unfold server_step.
  set (conns0 := fold_left server_command (si_cmds i) (sv_conns st)).
  assert (Hinv0 : y_inv y conns0 (sv_announced st) m (si_fresh i :: fut))
    by (eapply y_inv_dom; [apply server_commands_dom | exact Hinv]).
  clearbody conns0. clear Hinv.
  pose proof (y_inv_tail _ _ _ _ _ _ Hinv0) as Hinv1.
  destruct (si_recv i) as [data from| |err].
  - destruct (header_from_slice data) as [hdr|];
      [|exists m; split; [reflexivity|intros st' Hst; injection Hst as <-; exact Hinv1]].
    destruct (conns0 !! hdr_dcid hdr) as [c0|] eqn:Ed.
    + apply finish_iteration_mon. eapply y_inv_dom; [apply recv_insert_dom|exact Hinv1].
    + destruct (quic_accept (si_fresh i) (hdr_scid hdr) local_addr from) as [c|err];
        [|exists m; split; [reflexivity|intros st' Hst; injection Hst as <-; exact Hinv1]].
      apply finish_iteration_mon. eapply y_inv_dom; [apply recv_insert_dom|].
      apply y_inv_accept; assumption.
  - apply finish_iteration_mon. exact Hinv1.
  - exists m. split; [reflexivity|discriminate].
Qed.

Lemma server_loop_mon (y : cid) (st : ServerState Conn) (ins : list ServerInput) (m : Mon) :
  NoDup (map si_fresh ins) ->
  y_inv y (sv_conns st) (sv_announced st) m (map si_fresh ins) ->
  exists m', mon_run strict (hex_string y) m
               (server_loop handle_id local_addr trusted_allowlist st ins) = Some m'.
Proof.
  revert st m; induction ins as [|i ins IH]; intros st m Hnd Hinv; [exists m; reflexivity|].
  destruct (server_step_mon y st i m (map si_fresh ins) Hnd Hinv) as (m1 & Hrun & Hnext).
  simpl. destruct (server_step handle_id local_addr trusted_allowlist st i) as [evs next].
  cbn [fst snd] in *. rewrite mon_run_app, Hrun.
  destruct next as [st'|]; [|exists m1; reflexivity].
  apply IH; [inversion Hnd; assumption | exact (Hnext st' eq_refl)].
Qed.


Lemma server_pass_ids (conns : gmap cid Conn) (ann : gset cid) (l : list (cid * Conn)) :
  Forall has_hex_id (server_pass handle_id trusted_allowlist conns ann l).1.1.1.
Proof.
  revert conns ann; induction l as [|[z c] l IH]; intros conns ann; [constructor|].
  simpl. specialize (IH (<[z:=co_conn (process_conn handle_id trusted_allowlist z c
                                          (bool_decide (z ∈ ann)))]> conns)
          (if co_announce (process_conn handle_id trusted_allowlist z c
                             (bool_decide (z ∈ ann))) then {[z]} ∪ ann else ann)).
  destruct (server_pass _ _ _ _ l) as [[[evs conns'] ann'] tc].
  apply Forall_app; split; [|exact IH].
  eapply Forall_impl; [apply process_conn_ids|]. intros e He. exists z. exact He.
Qed.

Lemma server_step_ids (st : ServerState Conn) (i : ServerInput) :
  Forall has_hex_id (fst (server_step handle_id local_addr trusted_allowlist st i)).
Proof.
  assert (Hfin : forall conns ann,
             Forall has_hex_id (fst (finish_iteration handle_id trusted_allowlist conns ann))).
  { intros conns ann. unfold finish_iteration.
    pose proof (server_pass_ids conns ann (map_to_list conns)) as Hp.
    destruct (server_pass _ _ _ _ _) as [[[evs conns'] ann'] tc]. exact Hp. }
  unfold server_step.
  destruct (si_recv i) as [data from| |err]; [|apply Hfin|constructor].
  destruct (header_from_slice data) as [hdr|]; [|constructor].
  destruct (_ !! hdr_dcid hdr); [apply Hfin|].
  destruct (quic_accept _ _ _ _); [apply Hfin|constructor].
Qed.

Lemma server_loop_ids (st : ServerState Conn) (ins : list ServerInput) :
  Forall has_hex_id (server_loop handle_id local_addr trusted_allowlist st ins).
Proof.
  revert st; induction ins as [|i ins IH]; intros st; [constructor|].
  pose proof (server_step_ids st i) as Hids.
  simpl. destruct (server_step handle_id local_addr trusted_allowlist st i) as [evs next].
  apply Forall_app; split; [exact Hids|]. destruct next; [apply IH|constructor].
Qed.

End ServerTrace.

Lemma client_worker_mon {Conn : Type} `{QuicEngine Conn} `{Sha256} (strict : bool)
    (Hquiet : strict = true -> forall c : Conn,
                conn_is_established c = false -> conn_readable c = [])
    (handle_id : N) (scid : cid) (expected_fp : string) (local : result sockaddr string)
    (peer : sockaddr) (server_name : string) (ins : list ClientInput) (x : string) :
  exists m', mon_run strict x MPre
               (run_client_worker handle_id scid expected_fp local peer server_name ins)
             = Some m'.
Proof.
  unfold run_client_worker.
  destruct local as [la|err]; [|exists MPre; apply mon_run_silent; repeat constructor].
  destruct (quic_connect server_name scid la peer) as [conn|err].
  - destruct (String.eqb (client_conn_id_hex scid) x) eqn:Ex.
    + apply String.eqb_eq in Ex. subst x.
      apply (client_loop_mon handle_id scid expected_fp la strict Hquiet).
      left; auto.
    + exists MPre. apply mon_run_silent.
      eapply Forall_impl; [apply client_loop_ids|].
      intros e He. unfold mentions. rewrite He. exact Ex.
  - simpl. unfold mon_step. destruct (mentions x _); eexists; reflexivity.
Qed.

Lemma server_worker_mon {Conn : Type} `{QuicEngine Conn} `{Sha256} (strict : bool)
    (Hquiet : strict = true -> forall c : Conn,
                conn_is_established c = false -> conn_readable c = [])
    (handle_id : N) (local : result sockaddr string) (trusted_allowlist : gset string)
    (ins : list ServerInput) (x : string) :
  NoDup (map si_fresh ins) ->
  exists m', mon_run strict x MPre
               (run_server_worker handle_id local trusted_allowlist ins) = Some m'.
Proof.
  intros Hnd. unfold run_server_worker.
  destruct local as [la|err]; [|exists MPre; apply mon_run_silent; repeat constructor].
  pose proof (server_loop_ids handle_id la trusted_allowlist server_init ins) as Hids.
  destruct (existsb (mentions x) (server_loop handle_id la trusted_allowlist server_init ins))
    eqn:Ex.
  - apply existsb_exists in Ex as (e & Hin & Hm).
    rewrite List.Forall_forall in Hids. destruct (Hids e Hin) as [y Hy].
    unfold mentions in Hm. rewrite Hy in Hm. apply String.eqb_eq in Hm. subst x.
    apply (server_loop_mon strict Hquiet handle_id la trusted_allowlist y server_init ins
             MPre Hnd).
    unfold y_inv. simpl. rewrite lookup_empty. split; [apply not_elem_of_empty|left; auto].
  - exists MPre. apply mon_run_silent. apply List.Forall_forall. intros e Hin.
    destruct (mentions x e) eqn:Hm; [|reflexivity].
    assert (Htrue : existsb (mentions x)
                      (server_loop handle_id la trusted_allowlist server_init ins) = true)
      by (apply existsb_exists; eauto).
    congruence.
Qed.

(** C1.  For the client worker and for the server worker, and every
    connection id [x], the events carrying [x] contain at most one
    [Connected], and no [Message] or [Closed] for [x] comes before it.
    Assumed of the engine: a connection whose handshake is not complete has
    no readable stream (the workers enable no early data).  Assumed of the
    server's inputs: the random ids [OsRng] draws for accepted connections
    are pairwise distinct. *)
Theorem C1_connected_at_most_once_and_first {Conn : Type} `{QuicEngine Conn} `{Sha256} :
  (forall c : Conn, conn_is_established c = false -> conn_readable c = []) ->
  (forall handle_id scid expected_fp local peer server_name ins x,
     connected_once_and_first x
       (run_client_worker handle_id scid expected_fp local peer server_name ins)) /\
  (forall handle_id local trusted_allowlist ins x,
     NoDup (map si_fresh ins) ->
     connected_once_and_first x (run_server_worker handle_id local trusted_allowlist ins)).
Proof.
  intros Hquiet. split.
  - intros. destruct (client_worker_mon true (fun _ => Hquiet) handle_id scid expected_fp
                        local peer server_name ins x) as [m' Hrun].
    exact (mon_run_accepts_order _ _ _ Hrun).
  - intros handle_id local trusted_allowlist ins x Hnd.
    destruct (server_worker_mon true (fun _ => Hquiet) handle_id local trusted_allowlist
                ins x Hnd) as [m' Hrun].
    exact (mon_run_accepts_order _ _ _ Hrun).
Qed.

(** C4.  For the client worker and for the server worker (whose accepted
    connection ids are pairwise distinct), once a [Closed] event for an id
    [x] is posted, no later event carries [x]. *)
Theorem C4_silent_after_closed {Conn : Type} `{QuicEngine Conn} `{Sha256} :
  (forall handle_id scid expected_fp local peer server_name ins x,
     silent_after_closed x
       (run_client_worker handle_id scid expected_fp local peer server_name ins)) /\
  (forall handle_id local trusted_allowlist ins x,
     NoDup (map si_fresh ins) ->
     silent_after_closed x (run_server_worker handle_id local trusted_allowlist ins)).
Proof.
  split.
  - intros. destruct (client_worker_mon false (fun Hf => ltac:(discriminate Hf)) handle_id
                        scid expected_fp local peer server_name ins x) as [m' Hrun].
    exact (mon_run_accepts_silence _ _ _ _ _ Hrun).
  - intros handle_id local trusted_allowlist ins x Hnd.
    destruct (server_worker_mon false (fun Hf => ltac:(discriminate Hf)) handle_id local
                trusted_allowlist ins x Hnd) as [m' Hrun].
    exact (mon_run_accepts_silence _ _ _ _ _ Hrun).
Qed.

Lemma toy_quiet (c : ToyConn) : conn_is_established c = false -> conn_readable c = [].
Proof. destruct c as [[] closed inbox]; simpl; [discriminate|reflexivity]. Qed.


Lemma C1_witness :
  connected_once_and_first "07" (run_server_worker 1 (Ok 0) ∅ toy_server_demo) /\
  connected_once_and_first "01"
    (run_client_worker 1 [Byte.x01] "" (Ok 0) 443 "srv"
       [{| ci_cmds := []; ci_recv := RecvData [Byte.x05] 443 |};
        {| ci_cmds := []; ci_recv := RecvData [Byte.x06] 443 |}]).
Proof.
  destruct (C1_connected_at_most_once_and_first (Conn := ToyConn) toy_quiet) as [Hc Hs].
  split; [apply Hs; apply (bool_decide_unpack _); vm_compute; reflexivity | apply Hc].
Defined.

Lemma C4_witness :
  silent_after_closed "07" (run_server_worker 1 (Ok 0) ∅ toy_server_demo) /\
  silent_after_closed "01"
    (run_client_worker 1 [Byte.x01] "" (Ok 0) 443 "srv"
       [{| ci_cmds := []; ci_recv := RecvData [Byte.x05] 443 |};
        {| ci_cmds := [Close None]; ci_recv := RecvWouldBlock |}]).
Proof.
  destruct (C4_silent_after_closed (Conn := ToyConn)) as [Hc Hs].
  split; [apply Hs; apply (bool_decide_unpack _); vm_compute; reflexivity | apply Hc].
Defined.


Ltac split_membership H :=
  repeat match type of H with
    | _ ∈ _ ++ _ => apply elem_of_app in H as [H|H]
    | _ ∈ _ :: _ => apply elem_of_cons in H as [H|H]
    | _ ∈ [] => apply not_elem_of_nil in H; contradiction
    end.

Lemma client_step_mismatch {Conn : Type} `{QuicEngine Conn} `{Sha256}
    (handle_id : N) (scid : cid) (expected_fp : string) (local_addr : sockaddr)
    (st : ClientState Conn) (i : ClientInput) (h : N) (o : option string) :
  Error h o "server fingerprint mismatch" ∈
    fst (client_step handle_id scid expected_fp local_addr st i) ->
  client_step handle_id scid expected_fp local_addr st i =
  ([Error handle_id (Some (client_conn_id_hex scid)) "server fingerprint mismatch"], None).
Proof.
  unfold client_step.
  destruct (conn_send _) as [sr c1]. destruct sr as [out to| |err].
  3: { cbn [fst]. intros Hin. split_membership Hin. discriminate. }
  all: destruct (ci_recv i) as [data from| |err]; cbn [fst];
    [| | intros Hin; split_membership Hin].
  all: split_worker; cbn [fst]; intros Hin; try reflexivity; exfalso;
       split_membership Hin; try discriminate;
       rewrite Forall_forall in Hmsgs; destruct (Hmsgs _ Hin) as [? ?]; discriminate.
Qed.

(** C2 (the code breaks the loop).  When the client's announcement check
    finds that the server fingerprint does not match, the iteration posts
    only the [Error] event and the worker breaks out of its loop
    (lib.rs 579-616): whatever the later inputs, nothing follows that
    [Error], so no [Closed] event is ever posted and the close frame queued
    by [conn.close(0x102)] is never flushed. *)
Theorem C2_mismatch_breaks_without_closed {Conn : Type} `{QuicEngine Conn} `{Sha256}
    (handle_id : N) (scid : cid) (expected_fp : string) (local_addr : sockaddr)
    (st : ClientState Conn) (i : ClientInput) (ins : list ClientInput) (h : N)
    (o : option string) :
  Error h o "server fingerprint mismatch" ∈
    fst (client_step handle_id scid expected_fp local_addr st i) ->
  client_loop handle_id scid expected_fp local_addr st (i :: ins) =
  [Error handle_id (Some (client_conn_id_hex scid)) "server fingerprint mismatch"].
Proof.
  intros Hin. simpl. rewrite (client_step_mismatch _ _ _ _ _ _ _ _ Hin). reflexivity.
Qed.

Lemma C2_witness :
  client_loop (Conn := ToyConn) 7 [Byte.x01] "aa" 0 {| cl_conn := toy_new; cl_announced := false |}
    [{| ci_cmds := []; ci_recv := RecvData [Byte.x05] 443 |};
     {| ci_cmds := []; ci_recv := RecvWouldBlock |};
     {| ci_cmds := []; ci_recv := RecvWouldBlock |}]
  = [Error 7 (Some "01") "server fingerprint mismatch"].
Proof.
  apply C2_mismatch_breaks_without_closed with (h := 7) (o := Some "01").
  vm_compute. apply list_elem_of_singleton. reflexivity.
Defined.

(** C3 (the code posts no event).  When the server finds an established,
    not yet announced connection whose fingerprint its allowlist rejects,
    the iteration posts no event for that connection (no [Error], no
    [Closed], no [Connected]) and removes it from [conns] and [announced]
    in the same iteration (lib.rs 823-854, 926-930). *)
Theorem C3_untrusted_client_dropped_without_events {Conn : Type} `{QuicEngine Conn}
    `{Sha256} (handle_id : N) (trusted_allowlist : gset string)
    (conns : gmap cid Conn) (ann : gset cid) (y : cid) (c c1 : Conn) (sr : SendResult) :
  conns !! y = Some c -> y ∉ ann ->
  conn_send c = (sr, c1) -> (forall err, sr <> SendError err) ->
  conn_is_established c1 = true ->
  server_rejects trusted_allowlist (peer_fingerprint (conn_peer_cert c1)) = true ->
  Forall (fun e => mentions (hex_string y) e = false)
    (fst (finish_iteration handle_id trusted_allowlist conns ann)) /\
  forall st', snd (finish_iteration handle_id trusted_allowlist conns ann) = Some st' ->
    sv_conns st' !! y = None /\ y ∉ sv_announced st'.
Proof.
  intros Hy Hna Hsend Hsr Hest Hrej.
  assert (Ho : process_conn handle_id trusted_allowlist y c (bool_decide (y ∈ ann)) =
               {| co_events := [];
                  co_conn := conn_close c1 false UNTRUSTED_CLIENT_CLOSE
                               (list_byte_of_string "untrusted client");
                  co_announce := false; co_close := true |}).
  { rewrite bool_decide_eq_false_2 by exact Hna.
    unfold process_conn. rewrite Hsend.
    destruct sr as [out to| |err]; [| |exfalso; exact (Hsr err eq_refl)];
      rewrite Hest, Hrej; reflexivity. }
  pose proof (server_pass_self false (fun Hf => ltac:(discriminate Hf)) handle_id
                trusted_allowlist y c conns ann
                (map_to_list conns) (NoDup_fst_map_to_list conns)
                (proj2 (elem_of_map_to_list conns y c) Hy)) as Hself.
  cbv zeta in Hself. rewrite Ho in Hself. cbn [co_events co_conn co_announce co_close] in Hself.
  unfold finish_iteration.
  destruct (server_pass _ _ _ _ _) as [[[evs conns'] ann'] tc].
  destruct Hself as (Hevs & _ & _ & Htc). split.
  - cbn [fst]. apply (mon_run_done false _ _ MDone). rewrite Hevs. reflexivity.
  - intros st' Hst. injection Hst as <-. cbn [sv_conns sv_announced].
    assert (Hin : y ∈ tc) by (apply Htc; reflexivity).
    split; [apply lookup_foldr_delete_in, Hin|].
    rewrite elem_of_difference, elem_of_list_to_set. intros [_ Hn]. contradiction.
Qed.

Lemma C3_witness :
  (Forall (fun e => mentions (hex_string [Byte.x07]) e = false)
     (fst (finish_iteration (Conn := ToyConn) 1 {["aa"]}
             {[ [Byte.x07] := {| toy_established := true; toy_closed := false;
                                 toy_inbox := [] |} ]} ∅)) /\
   forall st', snd (finish_iteration (Conn := ToyConn) 1 {["aa"]}
             {[ [Byte.x07] := {| toy_established := true; toy_closed := false;
                                 toy_inbox := [] |} ]} ∅) = Some st' ->
     sv_conns st' !! [Byte.x07] = None /\ [Byte.x07] ∉ sv_announced st') /\
  run_server_worker (Conn := ToyConn) 1 (Ok 0) {["aa"]}
    [{| si_cmds := []; si_recv := RecvData [Byte.x09; Byte.x02] 5; si_fresh := [Byte.x07] |};
     {| si_cmds := []; si_recv := RecvData [Byte.x07; Byte.x02] 5; si_fresh := [Byte.x08] |};
     {| si_cmds := []; si_recv := RecvWouldBlock; si_fresh := [Byte.x0a] |}] = [].
Proof.
  split; [|vm_compute; reflexivity].
  eapply C3_untrusted_client_dropped_without_events with (sr := SendDone).
  - apply lookup_insert_eq.
  - apply not_elem_of_empty.
  - reflexivity.
  - discriminate.
  - reflexivity.
  - vm_compute. reflexivity.
Defined.

(** ** Further properties of the helpers, the entry points and the workers *)

(** [hex_string] prints exactly two characters per byte. *)
Theorem X_hex_string_length (data : list Byte.byte) :
  String.length (hex_string data) = (2 * List.length data)%nat.
Proof. induction data as [|b bs IH]; [reflexivity|]. simpl. rewrite IH. lia. Qed.

Lemma hex_val_digit (n : N) : n < 16 -> hex_val (hex_digit n) = Some n.
Proof.
  intros Hn. rewrite <- (N2Nat.id n) in *. remember (N.to_nat n) as k eqn:Hk. clear Hk.
  do 16 (destruct k as [|k]; [vm_compute; reflexivity|]). lia.
Qed.

Lemma byte_split (b : Byte.byte) :
  Byte.of_N (Byte.to_N b / 16 * 16 + Byte.to_N b mod 16) = Some b.
Proof.
  rewrite (N.mul_comm _ 16), <- N.div_mod by lia. apply Byte.of_to_N.
Qed.

Lemma hex_crate_decode_hex_string (data : list Byte.byte) :
  hex_crate_decode (hex_string data) = Some data.
Proof.
  unfold hex_crate_decode. induction data as [|b bs IH]; [reflexivity|].
  simpl. rewrite !hex_val_digit by (apply byte_div16_lt || apply byte_mod16_lt).
  rewrite byte_split, IH. reflexivity.
Qed.

Lemma list_ascii_of_string_append (a b : string) :
  list_ascii_of_string (String.append a b) = list_ascii_of_string a ++ list_ascii_of_string b.
Proof. induction a as [|c a IH]; [reflexivity|]. simpl. rewrite IH. reflexivity. Qed.

Lemma parse_allowlist_comma (a b : string) :
  parse_allowlist (String.append a (String "," b)) = parse_allowlist a ∪ parse_allowlist b.
Proof.
  rewrite !parse_allowlist_pieces, list_ascii_of_string_append. simpl.
  rewrite split_on_app, omap_app, list_to_set_app_L. reflexivity.
Qed.

(** Every entry [parse_allowlist] keeps is non-empty, has no leading or
    trailing [char::is_whitespace] character, is its own [str::to_lowercase]
    and contains no comma. *)
Theorem X_allowlist_entry_shape (csv s : string) :
  s ∈ parse_allowlist csv ->
  s <> EmptyString /\ trim s = s /\ to_lowercase s = s /\
  ~ In ","%char (list_ascii_of_string s).
Proof.
  rewrite parse_allowlist_pieces, elem_of_list_to_set, list_elem_of_omap.
  intros (p & Hp & Hs). unfold allow_piece in Hs. cbv zeta in Hs.
  destruct (String.eqb _ _) eqn:He; [discriminate|]. injection Hs as <-.
  apply String.eqb_neq in He.
  split; [rewrite to_lowercase_empty; exact He|].
  split; [rewrite trim_to_lowercase, trim_idem; reflexivity|].
  split; [apply to_lowercase_idem|].
  rewrite comma_iff. fold (chars (to_lowercase (trim (string_of_list_ascii p)))).
  rewrite chars_to_lowercase, chars_trim. intros Hin.
  destruct (lower_from_in _ _ _ Hin) as (c & Hc & _ & _ & _ & _ & H5).
  specialize (H5 eq_refl). subst c. apply trim_core_sub in Hc.
  unfold chars in Hc. rewrite list_ascii_of_string_of_list_ascii in Hc.
  apply comma_iff in Hc. apply list_elem_of_In in Hp.
  exact (proj2 (split_on_pieces _ _ _ _ Hp Hc) eq_refl).
Qed.

Lemma parse_allowlist_single (x : string) :
  x <> EmptyString -> trim x = x -> to_lowercase x = x ->
  ~ In ","%char (list_ascii_of_string x) ->
  parse_allowlist x = {[x]}.
Proof.
  intros Hne Htrim Hlow Hcomma.
  rewrite parse_allowlist_pieces, split_on_no_sep by exact Hcomma. simpl.
  unfold allow_piece. rewrite string_of_list_ascii_of_string, Htrim.
  apply String.eqb_neq in Hne. cbv zeta. rewrite Hne, Hlow. set_solver.
Qed.

Lemma parse_allowlist_join (xs : list string) :
  Forall (fun x => x <> EmptyString /\ trim x = x /\ to_lowercase x = x /\
                   ~ In ","%char (list_ascii_of_string x)) xs ->
  parse_allowlist (String.concat "," xs) = list_to_set xs.
Proof.
  induction 1 as [|x xs (Hne & Htrim & Hlow & Hcomma) Hxs IH]; [reflexivity|].
  destruct xs as [|y ys].
  - simpl. rewrite parse_allowlist_single by assumption. set_solver.
  - change (String.concat "," (x :: y :: ys))
      with (String.append x (String "," (String.concat "," (y :: ys)))).
    rewrite parse_allowlist_comma, IH, parse_allowlist_single by assumption.
    reflexivity.
Qed.

Lemma hex_digit_not_comma (n : N) : n < 16 -> hex_digit n <> ","%char.
Proof.
  intros Hn Hc. pose proof (hex_val_digit n Hn) as Hv. rewrite Hc in Hv. discriminate.
Qed.

Lemma hex_string_entry (data : list Byte.byte) :
  data <> [] ->
  hex_string data <> EmptyString /\ trim (hex_string data) = hex_string data /\
  to_lowercase (hex_string data) = hex_string data /\
  ~ In ","%char (list_ascii_of_string (hex_string data)).
Proof.
  intros Hne. split; [destruct data; [contradiction|discriminate]|].
  split; [apply trim_hex_string|]. split; [apply hex_string_lower|].
  intros Hin. destruct (hex_string_chars data _ Hin) as (n & Hn & Hc).
  exact (hex_digit_not_comma n Hn (eq_sym Hc)).
Qed.

(** An allowlist written as the comma-joined [sha256_hex] fingerprints of
    trusted certificates rejects a client certificate exactly when the list
    is non-empty and no trusted certificate has the same digest (digests
    being non-empty). *)
Theorem X_allowlist_of_fingerprints `{Sha256} (trusted : list (list Byte.byte))
    (cert : list Byte.byte) :
  (forall d, sha256 d <> []) ->
  server_rejects (parse_allowlist (String.concat "," (map sha256_hex trusted)))
    (peer_fingerprint (Some cert)) = true
  <-> trusted <> [] /\ Forall (fun t => sha256 t <> sha256 cert) trusted.
Proof.
  intros Hdig.
  rewrite parse_allowlist_join.
  2:{ apply Forall_forall. intros x Hx. apply list_elem_of_fmap in Hx as (t & -> & _).
      apply hex_string_entry, Hdig. }
  unfold server_rejects, peer_fingerprint.
  rewrite andb_true_iff, !negb_true_iff, !bool_decide_eq_false.
  rewrite elem_of_list_to_set, list_elem_of_fmap.
  split.
  - intros [Hempty Hnot]. split.
    + intros ->. apply Hempty. reflexivity.
    + apply List.Forall_forall. intros t Ht Heq. apply Hnot. exists t.
      split; [unfold sha256_hex; rewrite Heq; reflexivity|apply list_elem_of_In, Ht].
  - intros [Hne Hall]. split.
    + intros Hempty. destruct trusted as [|t ts]; [contradiction|].
      assert (Hin : sha256_hex t ∈ (list_to_set (map sha256_hex (t :: ts)) : gset string))
        by (apply elem_of_list_to_set; left).
      rewrite Hempty in Hin. apply not_elem_of_empty in Hin. exact Hin.
    + intros (t & Heq & Ht). apply list_elem_of_In in Ht.
      rewrite List.Forall_forall in Hall. apply (Hall t Ht).
      apply hex_string_inj. exact (eq_sym Heq).
Qed.

Lemma list_ascii_of_substring (m k : nat) (s : string) :
  list_ascii_of_string (substring m k s) = firstn k (skipn m (list_ascii_of_string s)).
Proof.
  revert m k; induction s as [|c s IH]; intros m k.
  - destruct m, k; reflexivity.
  - destruct m as [|m].
    + destruct k as [|k]; [reflexivity|]. simpl. rewrite IH. reflexivity.
    + simpl. apply IH.
Qed.

Lemma length_list_ascii (s : string) : List.length (list_ascii_of_string s) = String.length s.
Proof. induction s as [|c s IH]; [reflexivity|]. simpl. rewrite IH. reflexivity. Qed.

Lemma string_eq_lists (a b : string) :
  list_ascii_of_string a = list_ascii_of_string b -> a = b.
Proof.
  intros Hab. rewrite <- (string_of_list_ascii_of_string a), <- (string_of_list_ascii_of_string b).
  f_equal. exact Hab.
Qed.

Lemma is_char_boundary_ascii (l : list ascii) (i : nat) :
  Forall (fun b => N_of_ascii b < 128) l -> (i <= List.length l)%nat -> is_char_boundary l i = true.
Proof.
  intros H Hi. unfold is_char_boundary. destruct (Nat.eqb i 0); [reflexivity|].
  destruct (nth_error l i) as [b|] eqn:E.
  - apply nth_error_In in E. rewrite List.Forall_forall in H.
    rewrite cont_byte_ascii by (apply H, E). reflexivity.
  - apply nth_error_None in E. apply Nat.eqb_eq. lia.
Qed.

(** [short_hex] returns its trimmed input when that has at most 12 bytes.
    A longer one becomes its first 6 bytes, [...] and its last 4, of at
    most 13 bytes in all, unless byte 6 or the fourth byte from the end
    falls inside a multi-byte character: then the slicing panics ([None]),
    which ASCII input never does. *)
Theorem X_short_hex_shape (hex : string) :
  (forall r, short_hex hex = Some r -> (String.length r <= 13)%nat) /\
  ((String.length (trim hex) <= 12)%nat -> short_hex hex = Some (trim hex)) /\
  ((12 < String.length (trim hex))%nat ->
   (short_hex hex = None <->
    is_char_boundary (list_ascii_of_string (trim hex)) 6 = false \/
    is_char_boundary (list_ascii_of_string (trim hex)) (String.length (trim hex) - 4) = false)) /\
  ((12 < String.length (trim hex))%nat ->
   is_char_boundary (list_ascii_of_string (trim hex)) 6 = true ->
   is_char_boundary (list_ascii_of_string (trim hex)) (String.length (trim hex) - 4) = true ->
   exists p mid s,
     trim hex = String.append p (String.append mid s) /\
     String.length p = 6%nat /\ String.length s = 4%nat /\
     short_hex hex = Some (String.append p (String.append "..." s))) /\
  (Forall (fun b => N_of_ascii b < 128) (list_ascii_of_string hex) -> short_hex hex <> None).
Proof.
  assert (Hascii : Forall (fun b => N_of_ascii b < 128) (list_ascii_of_string hex) ->
                   Forall (fun b => N_of_ascii b < 128) (list_ascii_of_string (trim hex)))
    by apply trim_ascii_bytes.
  unfold short_hex. cbv zeta.
  remember (trim hex) as t eqn:Ht. clear Ht.
  destruct (Nat.leb_spec (String.length t) 12) as [Hle|Hgt].
  { split; [intros r [= <-]; lia|]. split; [reflexivity|].
    split; [lia|]. split; [lia|]. intros _. discriminate. }
  assert (Hpre : Nat.min 6 (String.length t) = 6%nat) by lia.
  rewrite Hpre.
  assert (Hsuf : Nat.min 4 (String.length t - 6) = 4%nat) by lia.
  rewrite Hsuf.
  replace (String.length t - (String.length t - 4))%nat with 4%nat by lia.
  pose proof (length_list_ascii t) as Hlen.
  remember (list_ascii_of_string t) as l eqn:Hl.
  set (p := substring 0 6 t). set (mid := substring 6 (String.length t - 10) t).
  set (s := substring (String.length t - 4) 4 t).
  assert (Hp : String.length p = 6%nat).
  { unfold p. rewrite <- length_list_ascii, list_ascii_of_substring, <- Hl.
    change (skipn 0 l) with l. rewrite length_firstn. lia. }
  assert (Hs : String.length s = 4%nat).
  { unfold s. rewrite <- length_list_ascii, list_ascii_of_substring, <- Hl.
    rewrite length_firstn, length_skipn. lia. }
  assert (Ht : t = String.append p (String.append mid s)).
  { apply string_eq_lists. unfold p, mid, s.
    rewrite !list_ascii_of_string_append, !list_ascii_of_substring.
    rewrite <- Hl. change (skipn 0 l) with l.
    rewrite <- (firstn_skipn 6 l) at 1. f_equal.
    rewrite <- (firstn_skipn (String.length t - 10) (skipn 6 l)) at 1. f_equal.
    rewrite skipn_skipn.
    replace (String.length t - 10 + 6)%nat with (String.length t - 4)%nat by lia.
    symmetry. apply firstn_all2. rewrite length_skipn. lia. }
  assert (Hr : (String.length (String.append p (String.append "..." s)) <= 13)%nat).
  { rewrite <- !length_list_ascii, !list_ascii_of_string_append.
    rewrite !length_app, !length_list_ascii, Hp, Hs. simpl. lia. }
  destruct (is_char_boundary l 6) eqn:B1, (is_char_boundary l (String.length t - 4)) eqn:B2;
    cbn [andb].
  - split; [intros r [= <-]; exact Hr|]. split; [lia|].
    split; [intros _; split; [discriminate|intros [H|H]; discriminate H]|].
    split; [intros _ _ _; exists p, mid, s; auto|]. intros _. discriminate.
  - split; [discriminate|]. split; [lia|]. split; [intros _; split; auto|].
    split; [intros _ _ H; discriminate H|].
    intros Ha. rewrite is_char_boundary_ascii in B2 by (auto; lia). discriminate.
  - split; [discriminate|]. split; [lia|]. split; [intros _; split; auto|].
    split; [intros _ H; discriminate H|].
    intros Ha. rewrite is_char_boundary_ascii in B1 by (auto; lia). discriminate.
  - split; [discriminate|]. split; [lia|]. split; [intros _; split; auto|].
    split; [intros _ H; discriminate H|].
    intros Ha. rewrite is_char_boundary_ascii in B1 by (auto; lia). discriminate.
Qed.

(** [BASE64.encode] output has [4 * ceil(n / 3)] characters for [n]
    bytes. *)
Theorem X_base64_encode_length (data : list Byte.byte) :
  String.length (base64_encode data) = (4 * ((List.length data + 2) / 3))%nat.
Proof.
  remember (List.length data) as n eqn:Hn.
  revert data Hn. induction n as [n IH] using lt_wf_ind. intros data Hn.
  destruct data as [|a [|b [|c rest]]]; subst n; try reflexivity.
  cbn [base64_encode String.length List.length].
  rewrite (IH (List.length rest)) by (simpl; lia || reflexivity).
  replace (S (S (S (List.length rest))) + 2)%nat with (List.length rest + 2 + 1 * 3)%nat by lia.
  rewrite Nat.div_add by lia. lia.
Qed.

(** Encoding splits at any multiple of three bytes: the encoding of
    [a ++ b] is that of [a] followed by that of [b] when the length of [a]
    is a multiple of 3. *)
Theorem X_base64_encode_app (a b : list Byte.byte) :
  (List.length a mod 3 = 0)%nat ->
  base64_encode (a ++ b) = String.append (base64_encode a) (base64_encode b).
Proof.
  remember (List.length a) as n eqn:Hn.
  revert a Hn. induction n as [n IH] using lt_wf_ind. intros a Hn Hmod.
  destruct a as [|x [|y [|z rest]]]; subst n; try reflexivity; try discriminate.
  cbn [app base64_encode String.append].
  assert (Hrest : (List.length rest mod 3 = 0)%nat).
  { cbn [List.length] in Hmod.
    replace (S (S (S (List.length rest)))) with (List.length rest + 1 * 3)%nat in Hmod by lia.
    rewrite Nat.Div0.mod_add in Hmod. exact Hmod. }
  rewrite (IH (List.length rest)); [reflexivity|cbn [List.length]; lia|reflexivity|exact Hrest].
Qed.

(** The timer step fires [on_timeout] exactly when the engine has a
    deadline of at most 5 ms; a longer deadline is left for a later
    iteration, and no deadline does nothing. *)
Theorem X_fire_timer_deadline {Conn : Type} `{QuicEngine Conn} (c : Conn) :
  fire_timer c =
  match conn_timeout c with
  | Some t => if t <=? 5000000 then conn_on_timeout c else c
  | None => c
  end.
Proof.
  unfold fire_timer. destruct (conn_timeout c) as [t|]; [|reflexivity].
  destruct (N.eqb_spec t 0) as [->|Ht0]; [reflexivity|].
  destruct (N.leb_spec t 5000000) as [Hle|Hgt].
  - rewrite N.min_l by exact Hle. rewrite N.leb_refl. reflexivity.
  - rewrite N.min_r by lia. destruct (N.leb_spec t 5000000); [lia|reflexivity].
Qed.

(** [cc_quic_conn_send] either fails and changes nothing, or returns [Ok]
    after appending exactly one [Send] (the decoded id, the payload) to the
    open channel of that handle, and nothing else. *)
Theorem X_conn_send_all_or_nothing `{TextCodec} (g : Globals) (handle : N)
    (conn_id data : option (list Byte.byte)) :
  let '(status, g') := cc_quic_conn_send g handle conn_id data in
  (status <> CcQuicStatus.code CcQuicStatus.Ok -> g' = g) /\
  (status = CcQuicStatus.code CcQuicStatus.Ok ->
   exists map ch raw s id payload,
     data = Some payload /\ payload <> [] /\ conn_id = Some raw /\
     from_utf8 raw = Some s /\ hex_decode (trim s) = Some id /\
     g_connections g = Some map /\ map !! handle = Some ch /\ ch_open ch = true /\
     g' = set_connections g
            (<[handle := {| ch_queue := ch_queue ch ++ [Send id payload];
                            ch_open := true |}]> map)).
Proof.
  unfold cc_quic_conn_send.
  destruct data as [[|b bs]|]; [split; [reflexivity|discriminate]| |split; [reflexivity|discriminate]].
  destruct conn_id as [[|c cs]|]; [split; [reflexivity|discriminate]| |split; [reflexivity|discriminate]].
  destruct (from_utf8 _) as [s|] eqn:Hu; [|split; [reflexivity|discriminate]].
  destruct (hex_decode _) as [id|] eqn:Hd; [|split; [reflexivity|discriminate]].
  destruct (g_connections g) as [map|] eqn:Hg; [|split; [reflexivity|discriminate]].
  destruct (map !! handle) as [ch|] eqn:Hch; [|split; [reflexivity|discriminate]].
  unfold channel_send. destruct (ch_open ch) eqn:Ho; [|split; [reflexivity|discriminate]].
  split; [intros Hne; exfalso; apply Hne; reflexivity|intros _].
  exists map, ch, (c :: cs), s, id, (b :: bs). split_and!; auto; discriminate.
Qed.

(** With the [hex] crate's decoder, the [connection_id] an event carries
    (even with surrounding whitespace) given back to [cc_quic_conn_send]
    queues a [Send] for the very connection id it was printed from. *)
Theorem X_conn_send_routes_event_id (utf8 : list Byte.byte -> option string)
    (g : Globals) (map : gmap N Channel) (handle : N) (ch : Channel)
    (raw : list Byte.byte) (s : string) (id payload : list Byte.byte) :
  g_connections g = Some map -> map !! handle = Some ch -> ch_open ch = true ->
  raw <> [] -> utf8 raw = Some s -> trim s = hex_string id -> payload <> [] ->
  cc_quic_conn_send (H := crate_codec utf8) g handle (Some raw) (Some payload)
  = (CcQuicStatus.code CcQuicStatus.Ok,
     set_connections g
       (<[handle := {| ch_queue := ch_queue ch ++ [Send id payload]; ch_open := true |}]> map)).
Proof.
  intros Hg Hch Ho Hraw Hu Ht Hp.
  unfold cc_quic_conn_send. cbn [from_utf8 hex_decode crate_codec].
  destruct payload as [|b bs]; [contradiction|]. destruct raw as [|c cs]; [contradiction|].
  rewrite Hu, Ht, hex_crate_decode_hex_string, Hg, Hch.
  unfold channel_send. rewrite Ho. reflexivity.
Qed.

Lemma X_conn_send_routes_event_id_witness :
  let g := snd (register_session {| g_next_handle := 1; g_connections := None; g_spawned := [] |}) in
  cc_quic_conn_send (H := crate_codec (fun raw => Some (string_of_list_byte raw)))
    g 1 (Some (list_byte_of_string " 07 ")) (Some [Byte.x41])
  = (CcQuicStatus.code CcQuicStatus.Ok,
     set_connections g
       (<[1 := {| ch_queue := [] ++ [Send [Byte.x07] [Byte.x41]]; ch_open := true |}]>
          (<[1 := {| ch_queue := []; ch_open := true |}]> ∅))).
Proof.
  intros g.
  apply (X_conn_send_routes_event_id _ g (<[1 := {| ch_queue := []; ch_open := true |}]> ∅) 1
           {| ch_queue := []; ch_open := true |} (list_byte_of_string " 07 ") " 07 "
           [Byte.x07] [Byte.x41]); try reflexivity; discriminate.
Defined.

Section Tagging.
Context {Conn : Type} `{QuicEngine Conn} `{Sha256}.

Lemma client_step_handle (handle_id : N) (scid : cid) (expected_fp : string)
    (local_addr : sockaddr) (st : ClientState Conn) (i : ClientInput) :
  Forall (fun e => ev_handle e = handle_id)
    (fst (client_step handle_id scid expected_fp local_addr st i)).
Proof.
  unfold client_step.
  destruct (conn_send _) as [sr c1]. destruct sr as [out to| |err];
    [| |repeat constructor].
  all: destruct (ci_recv i) as [data from| |err]; cbn [fst]; try constructor.
  all: split_worker; cbn [fst];
       repeat (apply Forall_app; split);
       try (eapply Forall_impl; [eassumption|]; intros ? [? ->]; reflexivity);
       repeat constructor.
Qed.

Lemma client_loop_handle (handle_id : N) (scid : cid) (expected_fp : string)
    (local_addr : sockaddr) (st : ClientState Conn) (ins : list ClientInput) :
  Forall (fun e => ev_handle e = handle_id)
    (client_loop handle_id scid expected_fp local_addr st ins).
Proof.
  revert st; induction ins as [|i ins IH]; intros st; [constructor|].
  pose proof (client_step_handle handle_id scid expected_fp local_addr st i) as Hh.
  simpl. destruct (client_step handle_id scid expected_fp local_addr st i) as [evs next].
  apply Forall_app; split; [exact Hh|]. destruct next; [apply IH|constructor].
Qed.

Lemma process_conn_handle (handle_id : N) (allow : gset string) (id : cid) (c : Conn)
    (b : bool) :
  Forall (fun e => ev_handle e = handle_id)
    (co_events (process_conn handle_id allow id c b)).
Proof.
  unfold process_conn.
  destruct (conn_send c) as [sr c1]. destruct sr as [out to| |err];
    [| |repeat constructor].
  all: split_worker; cbn [co_events];
       repeat (apply Forall_app; split);
       try (eapply Forall_impl; [eassumption|]; intros ? [? ->]; reflexivity);
       repeat constructor.
Qed.

Lemma server_pass_handle (handle_id : N) (allow : gset string) (conns : gmap cid Conn)
    (ann : gset cid) (l : list (cid * Conn)) :
  Forall (fun e => ev_handle e = handle_id) (server_pass handle_id allow conns ann l).1.1.1.
Proof.
  revert conns ann; induction l as [|[z c] l IH]; intros conns ann; [constructor|].
  simpl. specialize (IH (<[z:=co_conn (process_conn handle_id allow z c
                                          (bool_decide (z ∈ ann)))]> conns)
          (if co_announce (process_conn handle_id allow z c
                             (bool_decide (z ∈ ann))) then {[z]} ∪ ann else ann)).
  destruct (server_pass _ _ _ _ l) as [[[evs conns'] ann'] tc].
  apply Forall_app; split; [apply process_conn_handle|exact IH].
Qed.

Lemma server_step_handle (handle_id : N) (local_addr : sockaddr) (allow : gset string)
    (st : ServerState Conn) (i : ServerInput) :
  Forall (fun e => ev_handle e = handle_id)
    (fst (server_step handle_id local_addr allow st i)).
Proof.
  assert (Hfin : forall conns ann,
             Forall (fun e => ev_handle e = handle_id)
               (fst (finish_iteration handle_id allow conns ann))).
  { intros conns ann. unfold finish_iteration.
    pose proof (server_pass_handle handle_id allow conns ann (map_to_list conns)) as Hp.
    destruct (server_pass _ _ _ _ _) as [[[evs conns'] ann'] tc]. exact Hp. }
  unfold server_step.
  destruct (si_recv i) as [data from| |err]; [|apply Hfin|constructor].
  destruct (header_from_slice data) as [hdr|]; [|constructor].
  destruct (_ !! hdr_dcid hdr); [apply Hfin|].
  destruct (quic_accept _ _ _ _); [apply Hfin|constructor].
Qed.

Lemma server_loop_handle (handle_id : N) (local_addr : sockaddr) (allow : gset string)
    (st : ServerState Conn) (ins : list ServerInput) :
  Forall (fun e => ev_handle e = handle_id) (server_loop handle_id local_addr allow st ins).
Proof.
  revert st; induction ins as [|i ins IH]; intros st; [constructor|].
  pose proof (server_step_handle handle_id local_addr allow st i) as Hh.
  simpl. destruct (server_step handle_id local_addr allow st i) as [evs next].
  apply Forall_app; split; [exact Hh|]. destruct next; [apply IH|constructor].
Qed.

End Tagging.

(** Every event of the client worker carries its handle, and the client's
    own hex connection id, except the [socket addr error] posted when
    [local_addr] fails. *)
Theorem X_client_worker_events_tagged {Conn : Type} `{QuicEngine Conn} `{Sha256}
    (handle_id : N) (scid : cid) (expected_fp : string) (local : result sockaddr string)
    (peer : sockaddr) (server_name : string) (ins : list ClientInput) :
  Forall (fun e => ev_handle e = handle_id /\
                   (ev_conn_id e = Some (hex_string scid) \/
                    exists err, local = Err err /\
                      e = Error handle_id None (String.append "socket addr error: " err)))
    (run_client_worker handle_id scid expected_fp local peer server_name ins).
Proof.
  unfold run_client_worker.
  destruct local as [la|err]; [|constructor; [split; [reflexivity|right; eauto]|constructor]].
  destruct (quic_connect server_name scid la peer) as [conn|err];
    [|constructor; [split; [reflexivity|left; reflexivity]|constructor]].
  pose proof (client_loop_ids handle_id scid expected_fp la
                {| cl_conn := conn; cl_announced := false |} ins) as Hids.
  pose proof (client_loop_handle handle_id scid expected_fp la
                {| cl_conn := conn; cl_announced := false |} ins) as Hh.
  apply Forall_forall. intros e He.
  rewrite Forall_forall in Hids, Hh. split; [apply Hh, He|left; apply Hids, He].
Qed.

(** Every event of the server worker carries its handle and the hex form
    of some connection id, except the [socket addr error] posted when
    [local_addr] fails. *)
Theorem X_server_worker_events_tagged {Conn : Type} `{QuicEngine Conn} `{Sha256}
    (handle_id : N) (local : result sockaddr string) (trusted_allowlist : gset string)
    (ins : list ServerInput) :
  Forall (fun e => ev_handle e = handle_id /\
                   ((exists z, ev_conn_id e = Some (hex_string z)) \/
                    exists err, local = Err err /\
                      e = Error handle_id None (String.append "socket addr error: " err)))
    (run_server_worker handle_id local trusted_allowlist ins).
Proof.
  unfold run_server_worker.
  destruct local as [la|err]; [|constructor; [split; [reflexivity|right; eauto]|constructor]].
  pose proof (server_loop_ids handle_id la trusted_allowlist server_init ins) as Hids.
  pose proof (server_loop_handle handle_id la trusted_allowlist server_init ins) as Hh.
  apply Forall_forall. intros e He.
  rewrite Forall_forall in Hids, Hh. split; [apply Hh, He|left; apply Hids, He].
Qed.

Section ServerDomain.
Context {Conn : Type} `{QuicEngine Conn} `{Sha256}.
Variable handle_id : N.
Variable local_addr : sockaddr.
Variable trusted_allowlist : gset string.

Lemma server_pass_dom (conns : gmap cid Conn) (ann : gset cid) (l : list (cid * Conn)) :
  (forall z, z ∈ l.*1 -> is_Some (conns !! z)) ->
  let '(evs, conns', ann', to_close) :=
    server_pass handle_id trusted_allowlist conns ann l in
  (forall y, is_Some (conns' !! y) <-> is_Some (conns !! y)) /\
  (forall y, y ∈ ann' -> y ∈ ann \/ y ∈ l.*1).
Proof.
  revert conns ann; induction l as [|[z c] l IH]; intros conns ann Hl.
  - simpl. split; [reflexivity|auto].
  - simpl.
    set (o := process_conn handle_id trusted_allowlist z c (bool_decide (z ∈ ann))).
    assert (Hz : is_Some (conns !! z)) by (apply Hl; left).
    assert (Hdom : forall y, is_Some (<[z:=co_conn o]> conns !! y) <-> is_Some (conns !! y)).
    { intros y. rewrite lookup_insert_is_Some.
      destruct (decide (z = y)) as [<-|Hzy]; [split; auto|]. split; [intros [|[_ ?]]; [congruence|assumption]|auto]. }
    specialize (IH (<[z:=co_conn o]> conns) (if co_announce o then {[z]} ∪ ann else ann)).
    destruct (server_pass _ _ _ _ l) as [[[evs conns'] ann'] tc].
    destruct IH as [Hc Ha].
    { intros z' Hz'. apply Hdom, Hl. right. exact Hz'. }
    split.
    + intros y. rewrite Hc. apply Hdom.
    + intros y Hy. destruct (Ha y Hy) as [Hy'|Hy']; [|right; right; exact Hy'].
      destruct (co_announce o); [|left; exact Hy'].
      apply elem_of_union in Hy' as [Hy'|Hy']; [|left; exact Hy'].
      apply elem_of_singleton in Hy' as ->. right. left.
Qed.

Lemma map_to_list_keys (conns : gmap cid Conn) (z : cid) :
  z ∈ (map_to_list conns).*1 -> is_Some (conns !! z).
Proof.
  intros Hz. apply list_elem_of_fmap in Hz as ([z' c] & -> & Hin).
  apply elem_of_map_to_list in Hin. simpl. eauto.
Qed.

Lemma finish_iteration_dom (conns : gmap cid Conn) (ann : gset cid)
    (evs : list QuicEvent) (st' : ServerState Conn) :
  finish_iteration handle_id trusted_allowlist conns ann = (evs, Some st') ->
  (forall y, is_Some (sv_conns st' !! y) -> is_Some (conns !! y)) /\
  ((forall y, y ∈ ann -> is_Some (conns !! y)) ->
   forall y, y ∈ sv_announced st' -> is_Some (sv_conns st' !! y)).
Proof.
  unfold finish_iteration. intros Hfin.
  pose proof (server_pass_dom conns ann (map_to_list conns) (map_to_list_keys conns)) as Hp.
  destruct (server_pass _ _ _ _ _) as [[[evs0 conns'] ann'] tc].
  injection Hfin as _ <-. cbn [sv_conns sv_announced]. destruct Hp as [Hc Ha].
  split.
  - intros y Hy. apply Hc.
    destruct (decide (y ∈ tc)) as [Hin|Hnin].
    + rewrite lookup_foldr_delete_in in Hy by exact Hin. destruct Hy; discriminate.
    + rewrite lookup_foldr_delete_notin in Hy by exact Hnin. exact Hy.
  - intros Hann y Hy. apply elem_of_difference in Hy as [Hy Hnot].
    rewrite elem_of_list_to_set in Hnot.
    rewrite lookup_foldr_delete_notin by exact Hnot. apply Hc.
    destruct (Ha y Hy) as [Hy'|Hy']; [apply Hann, Hy'|apply map_to_list_keys, Hy'].
Qed.

Lemma server_step_dom (st : ServerState Conn) (i : ServerInput)
    (evs : list QuicEvent) (st' : ServerState Conn) :
  server_step handle_id local_addr trusted_allowlist st i = (evs, Some st') ->
  (forall y, is_Some (sv_conns st' !! y) -> is_Some (sv_conns st !! y) \/ y = si_fresh i) /\
  ((forall y, y ∈ sv_announced st -> is_Some (sv_conns st !! y)) ->
   forall y, y ∈ sv_announced st' -> is_Some (sv_conns st' !! y)).
Proof.
  unfold server_step.
  pose proof (server_commands_dom (si_cmds i) (sv_conns st)) as Hcmd.
  remember (fold_left server_command (si_cmds i) (sv_conns st)) as conns0 eqn:Hc0.
  destruct (si_recv i) as [data from| |err]; [|intros Hfin|discriminate].
  2:{ destruct (finish_iteration_dom _ _ _ _ Hfin) as [Hk Ha]. split.
      - intros y Hy. left. apply Hcmd, Hk, Hy.
      - intros Hann. apply Ha. intros y Hy. apply Hcmd, Hann, Hy. }
  destruct (header_from_slice data) as [hdr|].
  2:{ intros Hst. injection Hst as _ <-. cbn [sv_conns sv_announced]. split.
      - intros y Hy. left. apply Hcmd, Hy.
      - intros Hann y Hy. apply Hcmd, Hann, Hy. }
  assert (Hacc : forall conns1,
            (forall y, is_Some (conns1 !! y) -> is_Some (conns0 !! y) \/ y = si_fresh i) ->
            (forall y, is_Some (conns0 !! y) -> is_Some (conns1 !! y)) ->
            finish_iteration handle_id trusted_allowlist
              (match conns1 !! hdr_dcid hdr with
               | Some connection =>
                   <[hdr_dcid hdr := conn_recv connection data from local_addr]> conns1
               | None => conns1
               end) (sv_announced st) = (evs, Some st') ->
            (forall y, is_Some (sv_conns st' !! y) -> is_Some (sv_conns st !! y) \/ y = si_fresh i) /\
            ((forall y, y ∈ sv_announced st -> is_Some (sv_conns st !! y)) ->
             forall y, y ∈ sv_announced st' -> is_Some (sv_conns st' !! y))).
  { intros conns1 Hup Hdown Hfin.
    destruct (finish_iteration_dom _ _ _ _ Hfin) as [Hk Ha]. split.
    - intros y Hy. apply Hk in Hy. apply recv_insert_dom in Hy.
      destruct (Hup y Hy) as [Hy'|Hy']; [left; apply Hcmd, Hy'|right; exact Hy'].
    - intros Hann. apply Ha. intros y Hy. apply recv_insert_dom, Hdown, Hcmd, Hann, Hy. }
  destruct (conns0 !! hdr_dcid hdr) as [c0|] eqn:Hd.
  - apply Hacc; auto.
  - destruct (quic_accept _ _ _ _) as [c|err]; [|].
    + apply Hacc.
      * intros y Hy. apply lookup_insert_is_Some in Hy as [<-|[_ Hy]]; [right|left]; auto.
      * intros y Hy. apply lookup_insert_is_Some.
        destruct (decide (si_fresh i = y)); [left|right]; auto.
    + intros Hst. injection Hst as _ <-. cbn [sv_conns sv_announced]. split.
      * intros y Hy. left. apply Hcmd, Hy.
      * intros Hann y Hy. apply Hcmd, Hann, Hy.
Qed.

End ServerDomain.

Lemma register_sessions_handles (g : Globals) (n : nat) :
  g_next_handle g < 2 ^ 64 ->
  fst (register_sessions g n)
  = map (fun k => (g_next_handle g + N.of_nat k) mod 2 ^ 64) (seq 0 n).
Proof.
  revert g; induction n as [|n IH]; intros g Hg; [reflexivity|].
  simpl. destruct (register_sessions _ n) as [hs g2] eqn:Hr.
  cbn [fst]. f_equal.
  - rewrite N.add_0_r, N.mod_small by exact Hg. reflexivity.
  - pose proof (IH {| g_next_handle := (g_next_handle g + 1) mod 2 ^ 64;
                      g_connections := Some (<[g_next_handle g := {| ch_queue := [];
                                              ch_open := true |}]>
                          match g_connections g with Some m => m | None => ∅ end);
                      g_spawned := g_spawned g ++ [g_next_handle g] |}) as IH'.
    rewrite Hr in IH'. cbn [fst g_next_handle] in IH'.
    rewrite IH' by (apply N.mod_lt; lia).
    rewrite <- seq_shift, map_map. apply map_ext. intros k.
    rewrite N.Div0.add_mod_idemp_l. f_equal. lia.
Qed.

Lemma mod_add_inj (a x y : N) :
  a < 2 ^ 64 -> x < 2 ^ 64 -> y < 2 ^ 64 ->
  (a + x) mod 2 ^ 64 = (a + y) mod 2 ^ 64 -> x = y.
Proof.
  assert (Hw : forall z, z < 2 * 2 ^ 64 ->
               z mod 2 ^ 64 = if z <? 2 ^ 64 then z else z - 2 ^ 64).
  { intros z Hz. destruct (N.ltb_spec z (2 ^ 64)) as [Hlt|Hge].
    - apply N.mod_small, Hlt.
    - replace z with (z - 2 ^ 64 + 1 * 2 ^ 64) at 1 by lia.
      rewrite N.Div0.mod_add. apply N.mod_small. lia. }
  intros Ha Hx Hy Heq. rewrite !Hw in Heq by lia.
  destruct (N.ltb_spec (a + x) (2 ^ 64)), (N.ltb_spec (a + y) (2 ^ 64)); lia.
Qed.

(** While [NEXT_HANDLE] has not wrapped, up to [2^64] successive session
    creations are given pairwise distinct handles. *)
Theorem X_register_sessions_distinct_handles (g : Globals) (n : nat) :
  g_next_handle g < 2 ^ 64 -> N.of_nat n <= 2 ^ 64 ->
  NoDup (fst (register_sessions g n)).
Proof.
  intros Hg Hn. rewrite register_sessions_handles by exact Hg.
  apply NoDup_fmap_2_strong; [|apply NoDup_seq].
  intros i j Hi Hj Heq. apply list_elem_of_In, in_seq in Hi, Hj.
  assert (Hij : N.of_nat i = N.of_nat j); [|lia].
  apply (mod_add_inj (g_next_handle g)); lia.
Qed.

(** [cc_quic_config_new] writes a configuration through [out_config]
    exactly when it returns [Ok]; a null [out_config] gives [NullPointer];
    a written configuration verifies its peer. *)
Theorem X_config_new_writes_only_on_ok (out_config_nonnull : bool)
    (quiche_config_new : result QuicConfig string)
    (set_application_protos : QuicConfig -> list (list Byte.byte) -> result QuicConfig string) :
  let '(status, written) :=
    cc_quic_config_new out_config_nonnull quiche_config_new set_application_protos in
  (status = CcQuicStatus.code CcQuicStatus.Ok <-> written <> None) /\
  (out_config_nonnull = false -> status = CcQuicStatus.code CcQuicStatus.NullPointer) /\
  (forall cfg, written = Some cfg -> qc_verify_peer cfg = true).
Proof.
  unfold cc_quic_config_new.
  destruct out_config_nonnull; cbn [negb].
  2:{ split_and!; [split; [discriminate|intros Hn; contradiction]|reflexivity|discriminate]. }
  destruct quiche_config_new as [cfg|err].
  2:{ split_and!; [split; [discriminate|intros Hn; contradiction]|discriminate|discriminate]. }
  destruct (set_application_protos cfg [CONTROL_ALPN]) as [cfg'|err].
  2:{ split_and!; [split; [discriminate|intros Hn; contradiction]|discriminate|discriminate]. }
  split_and!; [split; [discriminate|reflexivity]|discriminate|].
  intros c Hc. injection Hc as <-. reflexivity.
Qed.

(** The server's command drain never adds or removes a connection: a key
    is in the map after the commands exactly when it was before. *)
Theorem X_server_commands_keep_keys {Conn : Type} `{QuicEngine Conn}
    (cmds : list WorkerCommand) (conns : gmap cid Conn) (y : cid) :
  is_Some (fold_left server_command cmds conns !! y) <-> is_Some (conns !! y).
Proof. apply server_commands_dom. Qed.

(** The server keeps [announced] within the keys of [conns]: if it holds
    before an iteration that goes on, it holds after it. *)
Theorem X_server_announced_stay_live {Conn : Type} `{QuicEngine Conn} `{Sha256}
    (handle_id : N) (local_addr : sockaddr) (allow : gset string)
    (st : ServerState Conn) (i : ServerInput) (evs : list QuicEvent) (st' : ServerState Conn) :
  (forall y, y ∈ sv_announced st -> is_Some (sv_conns st !! y)) ->
  server_step handle_id local_addr allow st i = (evs, Some st') ->
  forall y, y ∈ sv_announced st' -> is_Some (sv_conns st' !! y).
Proof. intros Hann Hstep. exact (proj2 (server_step_dom _ _ _ _ _ _ _ Hstep) Hann). Qed.

Lemma X_server_announced_stay_live_witness :
  let st' := {| sv_conns := {[ [Byte.x07] := {| toy_established := true;
                                               toy_closed := false; toy_inbox := [] |} ]};
                sv_announced := {[ [Byte.x07] ]} |} in
  [Byte.x07] ∈ sv_announced st' /\ is_Some (sv_conns st' !! [Byte.x07]).
Proof.
  intros st'.
  assert (Hin : [Byte.x07] ∈ sv_announced st') by (apply elem_of_singleton; reflexivity).
  split; [exact Hin|].
  apply (X_server_announced_stay_live 1 0 ∅
           {| sv_conns := {[ [Byte.x07] := toy_new ]}; sv_announced := ∅ |}
           {| si_cmds := []; si_recv := RecvData [Byte.x07; Byte.x02] 5;
              si_fresh := [Byte.x08] |}
           [Connected 1 "07" "00"] st').
  - intros y Hy. apply not_elem_of_empty in Hy. contradiction.
  - vm_compute. reflexivity.
  - exact Hin.
Defined.

(** After an iteration of the server loop, every connection key was
    already a key before it, or is the iteration's fresh random id. *)
Theorem X_server_keys_from_fresh_id_only {Conn : Type} `{QuicEngine Conn} `{Sha256}
    (handle_id : N) (local_addr : sockaddr) (allow : gset string)
    (st : ServerState Conn) (i : ServerInput) (evs : list QuicEvent) (st' : ServerState Conn) :
  server_step handle_id local_addr allow st i = (evs, Some st') ->
  forall y, is_Some (sv_conns st' !! y) -> is_Some (sv_conns st !! y) \/ y = si_fresh i.
Proof. intros Hstep. exact (proj1 (server_step_dom _ _ _ _ _ _ _ Hstep)). Qed.

Lemma X_server_keys_from_fresh_id_only_witness :
  let i := {| si_cmds := []; si_recv := RecvData [Byte.x09; Byte.x02] 5;
              si_fresh := [Byte.x07] |} in
  let st' := {| sv_conns := {[ [Byte.x07] := toy_new ]}; sv_announced := ∅ |} in
  is_Some (sv_conns st' !! [Byte.x07]) /\
  (is_Some (sv_conns (server_init (Conn := ToyConn)) !! [Byte.x07]) \/ [Byte.x07] = si_fresh i).
Proof.
  intros i st'.
  assert (Hs : is_Some (sv_conns st' !! [Byte.x07])) by (vm_compute; eexists; reflexivity).
  split; [exact Hs|].
  apply (X_server_keys_from_fresh_id_only 1 0 ∅ server_init i [] st').
  - vm_compute. reflexivity.
  - exact Hs.
Defined.

(** Iterations that only receive datagrams whose header does not parse,
    with no commands, post no event at all: the pass over the connections
    (sends, reads, timers, closures) is skipped each time. *)
Theorem X_server_unparsable_datagrams_silent {Conn : Type} `{QuicEngine Conn} `{Sha256}
    (handle_id : N) (local_addr : sockaddr) (allow : gset string)
    (st : ServerState Conn) (ins : list ServerInput) :
  Forall (fun i => si_cmds i = [] /\
                   exists data from, si_recv i = RecvData data from /\
                                     header_from_slice data = None) ins ->
  server_loop handle_id local_addr allow st ins = [].
Proof.
  intros Hall. induction Hall as [|i ins (Hc & data & from & Hr & Hh) Hall IH]; [reflexivity|].
  simpl. unfold server_step. rewrite Hc, Hr, Hh. cbn [fold_left]. simpl.
  destruct st as [conns ann]. exact IH.
Qed.

Lemma X_server_unparsable_datagrams_silent_witness :
  server_loop (Conn := ToyConn) 1 0 ∅
    {| sv_conns := {[ [Byte.x07] := {| toy_established := true; toy_closed := true;
                                      toy_inbox := [] |} ]};
       sv_announced := {[ [Byte.x07] ]} |}
    [{| si_cmds := []; si_recv := RecvData [Byte.x07] 5; si_fresh := [Byte.x08] |};
     {| si_cmds := []; si_recv := RecvData [] 5; si_fresh := [Byte.x09] |}] = [].
Proof.
  apply X_server_unparsable_datagrams_silent.
  repeat constructor; do 2 eexists; split; reflexivity.
Defined.

Section ServerSendError.
Context {Conn : Type} `{QuicEngine Conn} `{Sha256}.
Variable handle_id : N.
Variable trusted_allowlist : gset string.

Lemma filter_silent (x : string) (evs : list QuicEvent) :
  Forall (fun e => mentions x e = false) evs -> List.filter (mentions x) evs = [].
Proof. induction 1 as [|e evs He _ IH]; [reflexivity|]. simpl. rewrite He. exact IH. Qed.

Lemma server_pass_filter_self (y : cid) (c : Conn) (conns : gmap cid Conn) (ann : gset cid)
    (l : list (cid * Conn)) :
  NoDup l.*1 -> (y, c) ∈ l ->
  let o := process_conn handle_id trusted_allowlist y c (bool_decide (y ∈ ann)) in
  let '(evs, conns', ann', to_close) :=
    server_pass handle_id trusted_allowlist conns ann l in
  List.filter (mentions (hex_string y)) evs
  = List.filter (mentions (hex_string y)) (co_events o) /\
  (y ∈ to_close <-> co_close o = true).
Proof.
  revert conns ann; induction l as [|[z c'] l IH]; intros conns ann Hnd Hin;
    [apply not_elem_of_nil in Hin; contradiction|].
  cbn [fmap list_fmap fst] in Hnd. apply NoDup_cons in Hnd as [Hz Hnd].
  cbv zeta. simpl.
  remember (process_conn handle_id trusted_allowlist z c' (bool_decide (z ∈ ann)))
    as o eqn:Ho.
  destruct (decide (z = y)) as [<- | Hzy].
  - assert (c' = c) as <-.
    { apply elem_of_cons in Hin as [Heq | Hin]; [congruence|].
      exfalso. apply Hz. apply list_elem_of_fmap. exists (z, c). auto. }
    rewrite <- Ho.
    pose proof (server_pass_other false (fun Hf => ltac:(discriminate Hf)) handle_id trusted_allowlist z (<[z:=co_conn o]> conns)
                  (if co_announce o then {[z]} ∪ ann else ann) l Hz) as Hother.
    destruct (server_pass _ _ _ _ l) as [[[evs conns'] ann'] tc].
    destruct Hother as (Hevs & _ & _ & Htc). split.
    + rewrite List.filter_app, (filter_silent _ _ Hevs), app_nil_r. reflexivity.
    + destruct (co_close o); split; try reflexivity; intros Hx.
      * apply elem_of_cons; auto.
      * contradiction.
      * discriminate.
  - assert (Hin' : (y, c) ∈ l)
      by (apply elem_of_cons in Hin as [Heq | Hin]; [congruence | exact Hin]).
    specialize (IH (<[z:=co_conn o]> conns)
                   (if co_announce o then {[z]} ∪ ann else ann) Hnd Hin').
    assert (Hsame : bool_decide (y ∈ (if co_announce o then {[z]} ∪ ann else ann))
                    = bool_decide (y ∈ ann)).
    { apply bool_decide_ext. destruct (co_announce o); set_solver. }
    cbv zeta in IH. rewrite Hsame in IH.
    destruct (server_pass _ _ _ _ l) as [[[evs conns'] ann'] tc].
    destruct IH as (Hevs & Htc). split.
    + rewrite List.filter_app, filter_silent, Hevs by
        (rewrite Ho; apply process_conn_silent_for; exact Hzy).
      reflexivity.
    + destruct (co_close o); [|exact Htc].
      rewrite elem_of_cons, Htc. split; [intros [?|?]; [congruence|auto] | auto].
Qed.

End ServerSendError.

(** When the engine's [send] fails for a connection, the iteration posts
    exactly one event for it, the [server send error], and removes it from
    [conns] and [announced]: no [Closed] event is ever posted for it. *)
Theorem X_server_send_error_drops_without_closed {Conn : Type} `{QuicEngine Conn} `{Sha256}
    (handle_id : N) (trusted_allowlist : gset string)
    (conns : gmap cid Conn) (ann : gset cid) (y : cid) (c c1 : Conn) (err : string) :
  conns !! y = Some c -> conn_send c = (SendError err, c1) ->
  List.filter (mentions (hex_string y))
    (fst (finish_iteration handle_id trusted_allowlist conns ann))
  = [Error handle_id (Some (hex_string y)) (String.append "server send error: " err)] /\
  forall st', snd (finish_iteration handle_id trusted_allowlist conns ann) = Some st' ->
    sv_conns st' !! y = None /\ y ∉ sv_announced st'.
Proof.
  intros Hy Hsend.
  pose proof (server_pass_filter_self handle_id trusted_allowlist y c conns ann
                (map_to_list conns) (NoDup_fst_map_to_list conns)
                (proj2 (elem_of_map_to_list conns y c) Hy)) as Hself.
  cbv zeta in Hself. unfold process_conn at 1 2 in Hself. rewrite Hsend in Hself.
  cbn [co_events co_close] in Hself.
  unfold finish_iteration.
  destruct (server_pass _ _ _ _ _) as [[[evs conns'] ann'] tc].
  destruct Hself as (Hevs & Htc). split.
  - cbn [fst]. rewrite Hevs. simpl. unfold mentions. simpl.
    rewrite String.eqb_refl. reflexivity.
  - intros st' Hst. injection Hst as <-. cbn [sv_conns sv_announced].
    assert (Hin : y ∈ tc) by (apply Htc; reflexivity).
    split; [apply lookup_foldr_delete_in, Hin|].
    rewrite elem_of_difference, elem_of_list_to_set. intros [_ Hn]. contradiction.
Qed.

(** [hex_string] is injective: distinct connection ids are printed
    differently. *)
Theorem X_hex_string_injective (x y : list Byte.byte) :
  hex_string x = hex_string y -> x = y.
Proof. apply hex_string_inj. Qed.

Lemma X_hex_string_injective_witness :
  hex_string [Byte.x07; Byte.xab] = "07ab" /\ [Byte.x07; Byte.xab] = [Byte.x07; Byte.xab].
Proof.
  split; [reflexivity|].
  apply X_hex_string_injective. reflexivity.
Defined.

(** The [hex] crate's [decode] inverts [hex_string]. *)
Theorem X_hex_decode_round_trip (data : list Byte.byte) :
  hex_crate_decode (hex_string data) = Some data.
Proof. apply hex_crate_decode_hex_string. Qed.

(** Joining two CSV texts with a comma joins their allowlists. *)
Theorem X_parse_allowlist_comma (a b : string) :
  parse_allowlist (String.append a (String "," b)) = parse_allowlist a ∪ parse_allowlist b.
Proof. apply parse_allowlist_comma. Qed.

(** Entries of the shape [parse_allowlist] keeps, joined with commas, are
    parsed back to exactly that set. *)
Theorem X_parse_allowlist_join (xs : list string) :
  Forall (fun x => x <> EmptyString /\ trim x = x /\ to_lowercase x = x /\
                   ~ In ","%char (list_ascii_of_string x)) xs ->
  parse_allowlist (String.concat "," xs) = list_to_set xs.
Proof. apply parse_allowlist_join. Qed.

Lemma X_short_hex_shape_witness :
  short_hex (string_of_chars [97; 233; 233; 233; 233; 233; 233]) = None /\
  short_hex " 0123456789abcdef" <> None.
Proof.
  split.
  - destruct (X_short_hex_shape (string_of_chars [97; 233; 233; 233; 233; 233; 233]))
      as (_ & _ & H3 & _).
    apply (proj2 (H3 ltac:(vm_compute; lia))). left. vm_compute. reflexivity.
  - destruct (X_short_hex_shape " 0123456789abcdef") as (_ & _ & _ & _ & H5).
    apply H5. repeat constructor; vm_compute; reflexivity.
Defined.

Lemma X_parse_allowlist_join_witness :
  parse_allowlist (String.concat "," ["ab01"; "cd"]) = list_to_set ["ab01"; "cd"].
Proof.
  apply X_parse_allowlist_join.
  repeat constructor; try discriminate; try reflexivity; simpl; intros H;
    repeat (destruct H as [H|H]; [discriminate H|]); exact H.
Defined.

Lemma X_allowlist_entry_shape_witness :
  "ab" <> EmptyString /\ trim "ab" = "ab" /\ to_lowercase "ab" = "ab" /\
  ~ In ","%char (list_ascii_of_string "ab").
Proof.
  apply (X_allowlist_entry_shape " AB , ,cd").
  rewrite parse_allowlist_pieces. vm_compute. set_solver.
Defined.

Lemma X_allowlist_of_fingerprints_witness :
  server_rejects
    (parse_allowlist (String.concat "," (map (sha256_hex (H := fun d => Byte.x00 :: d))
                                            [[Byte.x01]; [Byte.x02]])))
    (peer_fingerprint (H := fun d => Byte.x00 :: d) (Some [Byte.x03])) = true
  <-> [[Byte.x01]; [Byte.x02]] <> [] /\
      Forall (fun t => Byte.x00 :: t <> Byte.x00 :: [Byte.x03]) [[Byte.x01]; [Byte.x02]].
Proof.
  apply (X_allowlist_of_fingerprints (H := fun d => Byte.x00 :: d)).
  intros d. discriminate.
Defined.

Lemma X_base64_encode_app_witness :
  base64_encode ([Byte.x41; Byte.x42; Byte.x43] ++ [Byte.x44])
  = String.append (base64_encode [Byte.x41; Byte.x42; Byte.x43]) (base64_encode [Byte.x44]).
Proof. apply X_base64_encode_app. reflexivity. Defined.

Lemma X_register_sessions_distinct_handles_witness :
  NoDup (fst (register_sessions
                {| g_next_handle := 2 ^ 64 - 2; g_connections := None; g_spawned := [] |} 4)).
Proof. apply X_register_sessions_distinct_handles; vm_compute; [reflexivity|discriminate]. Defined.

Lemma X_server_send_error_drops_without_closed_witness :
  List.filter (mentions (hex_string [Byte.x07]))
    (fst (finish_iteration (H := failing_engine) 1 ∅ {[ [Byte.x07] := tt ]} ∅))
  = [Error 1 (Some (hex_string [Byte.x07]))
       (String.append "server send error: " "invalid state")] /\
  forall st', snd (finish_iteration (H := failing_engine) 1 ∅ {[ [Byte.x07] := tt ]} ∅)
              = Some st' ->
    sv_conns st' !! [Byte.x07] = None /\ [Byte.x07] ∉ sv_announced st'.
Proof.
  apply (X_server_send_error_drops_without_closed (H := failing_engine) 1 ∅
           {[ [Byte.x07] := tt ]} ∅ [Byte.x07] tt tt "invalid state"); reflexivity.
Defined.

